(** * OptiFarm image generator: prompt construction and batch orchestration

    A shallow embedding of [src/config_manager.py] (the Entity Store and the
    prompt builder) and of [src/generator.py] (the Generation Engine and the
    Batch Orchestrator), followed by the properties of the specification
    that were checked against it and by further properties of the code:
    the entity store under modification, values by dotted path, and what
    the engine uploads, requests, writes and returns.

    Conventions.
    - Python [str] is [string], holding the UTF-8 bytes of the text; the
      characters that matter to the code (braces, digits, the prefix
      "http") are ASCII, and a replacement field whose name holds any other
      character is left to Python.
    - The configuration document is held by its content; where the code
      shares one dictionary between two places of the document, this is
      said at the function concerned.
    - A Python [dict] whose iteration order is observed is an association
      list in insertion order ([dict]); the upload cache, which is only
      looked up, is a [gmap].
    - Remote services, the clock and the file-system faults are oracles of a
      [World]; every effect of the engine is appended to a log of events.
    - Exceptions are values: a computation returns [Returned a] or
      [Raised e]; [try ... except Exception] is [try_except]. *)

From Stdlib Require Import String Ascii List ZArith QArith Lia Bool.
From Stdlib Require Import DecimalString Sorted Permutation.
From stdpp Require Import gmap strings.
Import ListNotations.

Local Open Scope string_scope.
Local Open Scope list_scope.

(* ===================================================================== *)
(** * Python values: exceptions, strings, dictionaries                    *)
(* ===================================================================== *)

(** The exceptions the modelled code raises or receives.  All of them are
    subclasses of [Exception]. *)
Inductive exn : Type :=
| FileNotFoundError (msg : string)
| KeyError (key : string)
| IndexError (msg : string)
| ValueError (msg : string)
| OtherError (msg : string).

(** [str(e)]: a [KeyError] prints the repr of its key, which is the key
    between apostrophes for a key of letters, digits and the like, such as
    the keys the engine itself looks up. *)
Definition exn_str (e : exn) : string :=
  match e with
  | FileNotFoundError m => m
  | KeyError k => "'" +:+ k +:+ "'"
  | IndexError m => m
  | ValueError m => m
  | OtherError m => m
  end.

Inductive outcome (A : Type) : Type :=
| Returned (a : A)
| Raised (e : exn).
Arguments Returned {A} a.
Arguments Raised {A} e.

(** Truthiness of an [Optional[str]] argument: [None] and [""] are falsy. *)
Definition truthy (o : option string) : option string :=
  match o with
  | Some EmptyString => None
  | other => other
  end.

Definition str_is_empty (s : string) : bool :=
  match s with EmptyString => true | _ => false end.

(** [s.startswith(p)] *)
Definition startswith (s p : string) : bool := String.prefix p s.

(** [sep.join(l)] *)
Definition str_join (sep : string) (l : list string) : string := String.concat sep l.

(** A byte that continues a character of several bytes in UTF-8. *)
Definition is_continuation (c : ascii) : bool :=
  let n := nat_of_ascii c in (128 <=? n)%nat && (n <? 192)%nat.

(** [s[:n]]: the first [n] characters.  A string holds the UTF-8 bytes of
    the Python text, in which a character is a leading byte and the
    continuation bytes that follow it. *)
Fixpoint str_take (n : nat) (s : string) : string :=
  match s with
  | EmptyString => EmptyString
  | String c s' =>
      if is_continuation c then String c (str_take n s')
      else match n with
           | O => EmptyString
           | S k => String c (str_take k s')
           end
  end.

(** [str(z)] for an [int]. *)
Definition Z_to_string (z : Z) : string := NilZero.string_of_int (Z.to_int z).

(** [f"{z:02d}"]: zero padding to width two; a sign counts for the width. *)
Definition format_02d (z : Z) : string :=
  if ((0 <=? z) && (z <? 10))%Z then "0" +:+ Z_to_string z else Z_to_string z.

(** ** [str.replace(old, new)]

    All non-overlapping occurrences, leftmost first.  [skip] counts the
    characters of a matched occurrence that are still to be dropped. *)
Fixpoint replace_from (old new : string) (skip : nat) (s : string) : string :=
  match s with
  | EmptyString => EmptyString
  | String c s' =>
      match skip with
      | S k => replace_from old new k s'
      | O =>
          if String.prefix old s
          then new +:+ replace_from old new (String.length old - 1) s'
          else String c (replace_from old new 0 s')
      end
  end.

(** With an empty [old], Python inserts [new] before every character and at
    the end. *)
Fixpoint interleave (new s : string) : string :=
  match s with
  | EmptyString => new
  | String c s' => new +:+ String c (interleave new s')
  end.

Definition str_replace (old new s : string) : string :=
  match old with
  | EmptyString => interleave new s
  | _ => replace_from old new 0 s
  end.

(** ** Dictionaries in insertion order *)
Definition dict (V : Type) : Type := list (string * V).

Fixpoint dict_get {V} (k : string) (d : dict V) : option V :=
  match d with
  | [] => None
  | (k', v) :: d' => if String.eqb k k' then Some v else dict_get k d'
  end.

Definition dict_in {V} (k : string) (d : dict V) : bool :=
  match dict_get k d with Some _ => true | None => false end.

(** [d[k] = v]: an existing key keeps its position, a new key goes last. *)
Fixpoint dict_set {V} (k : string) (v : V) (d : dict V) : dict V :=
  match d with
  | [] => [(k, v)]
  | (k', v') :: d' =>
      if String.eqb k k' then (k, v) :: d' else (k', v') :: dict_set k v d'
  end.

Definition dict_keys {V} (d : dict V) : list string := map fst d.
Definition dict_values {V} (d : dict V) : list V := map snd d.

(** [d.get(k, default)] on an optional field. *)
Definition get_or {A} (o : option A) (default : A) : A :=
  match o with Some a => a | None => default end.

(* ===================================================================== *)
(** * [str.format] with keyword arguments                                              *)
(* ===================================================================== *)

(** The result of formatting: the text, the [KeyError] of a named field
    that has no keyword argument, or another exception ([ValueError] for
    malformed markup, [IndexError] for a positional field, as no positional
    argument is ever passed). *)
Inductive fmt_result : Type :=
| FmtOk (s : string)
| FmtKeyError (k : string)
| FmtError (e : exn).

Definition is_digit (c : ascii) : bool :=
  let n := nat_of_ascii c in (48 <=? n)%nat && (n <=? 57)%nat.

(** A byte of a character outside ASCII (strings hold the UTF-8 bytes of
    the Python text). *)
Definition beyond_ascii (c : ascii) : bool := (128 <=? nat_of_ascii c)%nat.

(** The name of a field is a positional index when all its characters are
    decimal digits.  The names this is asked of hold ASCII characters only:
    a field with another character in its name is left to
    [format_beyond]. *)
Fixpoint all_digits (s : string) : bool :=
  match s with
  | EmptyString => true
  | String c s' => is_digit c && all_digits s'
  end.

(** [get_integer] of CPython's formatter: the index a digit string denotes,
    or [None] when it exceeds [PY_SSIZE_T_MAX] (a 64-bit build). *)
Fixpoint get_integer (acc : Z) (s : string) : option Z :=
  match s with
  | EmptyString => Some acc
  | String c s' =>
      let d := (Z.of_nat (nat_of_ascii c) - 48)%Z in
      if (acc >? (9223372036854775807 - d) / 10)%Z then None
      else get_integer (acc * 10 + d)%Z s'
  end.

Definition positional_error (idx : Z) : exn :=
  IndexError ("Replacement index " +:+ Z_to_string idx +:+
              " out of range for positional args tuple").

(** The scanner is in literal text, has just read an opening or a closing
    brace, or is inside a replacement field whose name so far is [name]. *)
Inductive fmt_mode : Type :=
| InText
| SeenOpen
| SeenClose
| InField (name : string).

Definition snoc (s : string) (c : ascii) : string := s +:+ String c EmptyString.

Section Format.

(** Replacement fields with attribute or index access ([.], [[]), a
    conversion ([!]) or a format specification ([:]) are rendered by Python
    itself, and so are the fields whose name holds a character outside
    ASCII: the formatter reads a name as a positional index when all its
    characters are decimal digits of any script, which the table of the
    Unicode database decides.  [format_beyond name rest kwargs out] is what
    [str.format] makes of the template from such a field on, [name] being
    the field text read so far, [rest] the template from the deciding
    character on and [out] the text produced before the field. *)
Variable format_beyond : string -> string -> dict string -> string -> fmt_result.

Fixpoint format_scan (kwargs : dict string) (m : fmt_mode) (s : string)
  (out : string) : fmt_result :=
  match s with
  | EmptyString =>
      match m with
      | InText => FmtOk out
      | SeenOpen => FmtError (ValueError "Single '{' encountered in format string")
      | SeenClose => FmtError (ValueError "Single '}' encountered in format string")
      | InField _ => FmtError (ValueError "expected '}' before end of string")
      end
  | String c s' =>
      let in_field (name : string) : fmt_result :=
        if Ascii.eqb c "}" then
          match name with
          | EmptyString => FmtError (positional_error 0)
          | _ =>
              if all_digits name then
                match get_integer 0 name with
                | Some idx => FmtError (positional_error idx)
                | None => FmtError (ValueError "Too many decimal digits in format string")
                end
              else
                match dict_get name kwargs with
                | Some v => format_scan kwargs InText s' (out +:+ v)
                | None => FmtKeyError name
                end
          end
        else if Ascii.eqb c "{" then
          FmtError (ValueError "unexpected '{' in field name")
        else if Ascii.eqb c "." || Ascii.eqb c "[" || Ascii.eqb c "!" || Ascii.eqb c ":"
                || beyond_ascii c then
          format_beyond name s kwargs out
        else format_scan kwargs (InField (snoc name c)) s' out in
      match m with
      | InText =>
          if Ascii.eqb c "{" then format_scan kwargs SeenOpen s' out
          else if Ascii.eqb c "}" then format_scan kwargs SeenClose s' out
          else format_scan kwargs InText s' (snoc out c)
      | SeenOpen =>
          if Ascii.eqb c "{" then format_scan kwargs InText s' (snoc out c)
          else in_field EmptyString
      | SeenClose =>
          if Ascii.eqb c "}" then format_scan kwargs InText s' (snoc out c)
          else FmtError (ValueError "Single '}' encountered in format string")
      | InField name => in_field name
      end
  end.

(** [template.format] applied to the keyword arguments *)
Definition str_format (template : string) (kwargs : dict string) : fmt_result :=
  format_scan kwargs InText template EmptyString.

End Format.

(* ===================================================================== *)
(** * The configuration document and the typed entities                   *)
(* ===================================================================== *)

(** A scene descriptor of a book: a raw mapping whose three keys are all
    optional ([scene.get("page", ...)] and so on). *)
Record Scene : Type := {
  page : option Z;
  prompt : option string;
  characters : option (list string)
}.

Module CharacterData.
Record t : Type := {
  name : option string;
  role : option string;
  description : option string;
  personality : option string;
  visual_cues : option string;
  virtues : option (list string);
  reference_image : option string;
  locations : option (list string);
  special_function : option string;
  appears_with_chime : option bool
}.
End CharacterData.

Module Character.
Record t : Type := {
  id : string;
  name : string;
  role : string;
  description : string;
  personality : string;
  visual_cues : string;
  virtues : list string;
  reference_image : string;
  locations : list string;
  special_function : option string;
  appears_with_chime : bool
}.

Definition from_dict (char_id : string) (data : CharacterData.t) : t := {|
  id := char_id;
  name := get_or (CharacterData.name data) "";
  role := get_or (CharacterData.role data) "core";
  description := get_or (CharacterData.description data) "";
  personality := get_or (CharacterData.personality data) "";
  visual_cues := get_or (CharacterData.visual_cues data) "";
  virtues := get_or (CharacterData.virtues data) [];
  reference_image := get_or (CharacterData.reference_image data) "";
  locations := get_or (CharacterData.locations data) [];
  special_function := CharacterData.special_function data;
  appears_with_chime := get_or (CharacterData.appears_with_chime data) false
|}.
End Character.

Module LocationData.
Record t : Type := {
  name : option string;
  description : option string;
  associated_virtues : option (list string);
  associated_characters : option (list string)
}.
End LocationData.

Module Location.
Record t : Type := {
  id : string;
  name : string;
  description : string;
  associated_virtues : list string;
  associated_characters : list string
}.

Definition from_dict (loc_id : string) (data : LocationData.t) : t := {|
  id := loc_id;
  name := get_or (LocationData.name data) "";
  description := get_or (LocationData.description data) "";
  associated_virtues := get_or (LocationData.associated_virtues data) [];
  associated_characters := get_or (LocationData.associated_characters data) []
|}.
End Location.

Module BookData.
Record t : Type := {
  title : option string;
  book_number : option Z;
  virtue : option string;
  featured_character : option string;
  supporting_characters : option (list string);
  primary_location : option string;
  prop : option string;
  mantra : option string;
  micro_ritual : option (dict string);
  scenes : option (list Scene)
}.
End BookData.

Module Book.
Record t : Type := {
  id : string;
  title : string;
  book_number : Z;
  virtue : string;
  featured_character : string;
  supporting_characters : list string;
  primary_location : string;
  prop : string;
  mantra : string;
  micro_ritual : dict string;
  scenes : list Scene
}.

Definition from_dict (book_id : string) (data : BookData.t) : t := {|
  id := book_id;
  title := get_or (BookData.title data) "";
  book_number := get_or (BookData.book_number data) 0%Z;
  virtue := get_or (BookData.virtue data) "";
  featured_character := get_or (BookData.featured_character data) "";
  supporting_characters := get_or (BookData.supporting_characters data) [];
  primary_location := get_or (BookData.primary_location data) "";
  prop := get_or (BookData.prop data) "";
  mantra := get_or (BookData.mantra data) "";
  micro_ritual := get_or (BookData.micro_ritual data) [];
  scenes := get_or (BookData.scenes data) []
|}.
End Book.

(** A style preset is kept as the raw mapping [{name, prompt}]. *)
Record StylePreset : Type := {
  style_name : option string;
  style_prompt : option string
}.

Record ApiDefaults : Type := {
  guidance_scale : option Q;
  num_inference_steps : option Z;
  output_format : option string
}.

Record ApiConfig : Type := {
  api_model_field : option string;
  api_defaults_field : option ApiDefaults;
  api_cost_per_image : option Q
}.

Record GenerationSettings : Type := {
  rate_limit_delay_seconds : option Q;
  save_prompts : option bool
}.

Record ImageSettingsData : Type := {
  isd_aspect_ratios : option (dict string);
  isd_default_aspect_ratio : option string;
  isd_hero_shot_ratio : option string;
  isd_scene_ratio : option string;
  isd_cover_ratio : option string;
  isd_group_shot_ratio : option string
}.

Record ImageSettings : Type := {
  aspect_ratios : dict string;
  default_aspect_ratio : string;
  hero_shot_ratio : string;
  scene_ratio : string;
  cover_ratio : string;
  group_shot_ratio : string
}.

(** The configuration document ([_raw_config]): the top-level sections,
    each of which may be absent. *)
Record Document : Type := {
  doc_project_name : option string;
  doc_api : option ApiConfig;
  doc_paths : option (dict string);
  doc_active_style : option string;
  doc_style_presets : option (dict StylePreset);
  doc_prompt_templates : option (dict string);
  doc_characters : option (dict CharacterData.t);
  doc_locations : option (dict LocationData.t);
  doc_books : option (dict BookData.t);
  doc_image_settings : option ImageSettingsData;
  doc_generation_settings : option GenerationSettings
}.

Definition empty_document : Document := {|
  doc_project_name := None; doc_api := None; doc_paths := None;
  doc_active_style := None; doc_style_presets := None;
  doc_prompt_templates := None; doc_characters := None;
  doc_locations := None; doc_books := None; doc_image_settings := None;
  doc_generation_settings := None
|}.

(** [raw["active_style"] = style_name] *)
Definition set_doc_active_style (style_name : string) (d : Document) : Document := {|
  doc_project_name := doc_project_name d;
  doc_api := doc_api d;
  doc_paths := doc_paths d;
  doc_active_style := Some style_name;
  doc_style_presets := doc_style_presets d;
  doc_prompt_templates := doc_prompt_templates d;
  doc_characters := doc_characters d;
  doc_locations := doc_locations d;
  doc_books := doc_books d;
  doc_image_settings := doc_image_settings d;
  doc_generation_settings := doc_generation_settings d
|}.

(* ===================================================================== *)
(** * ConfigManager                                                       *)
(* ===================================================================== *)

Record ConfigManager : Type := {
  config_path : string;
  _raw_config : Document;
  _characters : dict Character.t;
  _locations : dict Location.t;
  _books : dict Book.t;
  _style_presets : dict StylePreset;
  _prompt_templates : dict string;
  _image_settings : option ImageSettings
}.

Definition DEFAULT_CONFIG_PATH : string := "./config/master_config.json".

(** The loop [for k, data in section.items(): typed[k] = from_dict(k, data)]. *)
Definition parse_section {D T} (from_dict : string -> D -> T) (section : dict D) : dict T :=
  fold_left (fun typed kd => dict_set (fst kd) (from_dict (fst kd) (snd kd)) typed)
            section [].

Definition parse_image_settings (img : option ImageSettingsData) : ImageSettings :=
  let g {A} (f : ImageSettingsData -> option A) (default : A) : A :=
    match img with Some i => get_or (f i) default | None => default end in
  {| aspect_ratios := g isd_aspect_ratios [];
     default_aspect_ratio := g isd_default_aspect_ratio "square";
     hero_shot_ratio := g isd_hero_shot_ratio "square";
     scene_ratio := g isd_scene_ratio "landscape";
     cover_ratio := g isd_cover_ratio "portrait";
     group_shot_ratio := g isd_group_shot_ratio "landscape" |}.

(** [_parse_config], after [_raw_config] has been set to [raw]. *)
Definition _parse_config (path : string) (raw : Document) : ConfigManager := {|
  config_path := path;
  _raw_config := raw;
  _characters := parse_section Character.from_dict (get_or (doc_characters raw) []);
  _locations := parse_section Location.from_dict (get_or (doc_locations raw) []);
  _books := parse_section Book.from_dict (get_or (doc_books raw) []);
  _style_presets := get_or (doc_style_presets raw) [];
  _prompt_templates := get_or (doc_prompt_templates raw) [];
  _image_settings := Some (parse_image_settings (doc_image_settings raw))
|}.

(** The state [__init__] sets up before it calls [load]. *)
Definition blank_config (path : option string) : ConfigManager := {|
  config_path := get_or (truthy path) DEFAULT_CONFIG_PATH;
  _raw_config := empty_document;
  _characters := []; _locations := []; _books := [];
  _style_presets := []; _prompt_templates := [];
  _image_settings := None
|}.

(** The path an optional argument stands for: the argument when it is
    given and not empty, the path of the configuration otherwise. *)
Definition resolve_path (cm : ConfigManager) (path : option string) : string :=
  get_or (truthy path) (config_path cm).

Section Store.

(** [json.load] and [json.dump] restricted to documents: [json_load] is
    [None] on text that is not JSON or not a configuration document.  The
    files are a map from (normalised) paths to their text; [writable] tells
    where [save] can create its file. *)
Variable json_load : string -> option Document.
Variable json_dump : Document -> string.
Variable writable : string -> bool.

Definition load (cm : ConfigManager) (path_override : option string)
  (files : gmap string string) : outcome ConfigManager :=
  let path := resolve_path cm path_override in
  match files !! path with
  | None => Raised (FileNotFoundError ("Config file not found: " +:+ path))
  | Some text =>
      match json_load text with
      | None => Raised (ValueError "Expecting value")
      | Some raw => Returned (_parse_config (config_path cm) raw)
      end
  end.

Definition ConfigManager_init (path : option string) (files : gmap string string)
  : outcome ConfigManager :=
  load (blank_config path) None files.

Definition save (cm : ConfigManager) (path : option string)
  (files : gmap string string) : outcome (gmap string string) :=
  let output_path := resolve_path cm path in
  if writable output_path
  then Returned (<[output_path := json_dump (_raw_config cm)]> files)
  else Raised (OtherError ("cannot write " +:+ output_path)).

End Store.

(** ** Property accessors *)
Definition api_model (cm : ConfigManager) : string :=
  match doc_api (_raw_config cm) with
  | Some api => get_or (api_model_field api) "fal-ai/flux-pro/kontext"
  | None => "fal-ai/flux-pro/kontext"
  end.

Definition api_defaults (cm : ConfigManager) : ApiDefaults :=
  let hardwired := {| guidance_scale := Some (35 # 10);
                      num_inference_steps := Some 28%Z;
                      output_format := Some "jpeg" |} in
  match doc_api (_raw_config cm) with
  | Some api => get_or (api_defaults_field api) hardwired
  | None => hardwired
  end.

Definition cost_per_image (cm : ConfigManager) : Q :=
  match doc_api (_raw_config cm) with
  | Some api => get_or (api_cost_per_image api) (4 # 100)
  | None => 4 # 100
  end.

Definition paths (cm : ConfigManager) : dict string :=
  get_or (doc_paths (_raw_config cm)) [].

Definition active_style (cm : ConfigManager) : string :=
  get_or (doc_active_style (_raw_config cm)) "default".

Definition get_style_prompt (cm : ConfigManager) (style : string) : string :=
  match dict_get style (_style_presets cm) with
  | Some preset => get_or (style_prompt preset) ""
  | None => ""
  end.

Definition active_style_prompt (cm : ConfigManager) : string :=
  get_style_prompt cm (active_style cm).

Definition rate_limit_delay (cm : ConfigManager) : Q :=
  match doc_generation_settings (_raw_config cm) with
  | Some g => get_or (rate_limit_delay_seconds g) 1%Q
  | None => 1%Q
  end.

Definition save_prompts_enabled (cm : ConfigManager) : bool :=
  match doc_generation_settings (_raw_config cm) with
  | Some g => get_or (save_prompts g) true
  | None => true
  end.

Definition get_character (cm : ConfigManager) (char_id : string) : option Character.t :=
  dict_get char_id (_characters cm).

Definition list_character_ids (cm : ConfigManager) : list string :=
  dict_keys (_characters cm).

Definition get_location (cm : ConfigManager) (loc_id : string) : option Location.t :=
  dict_get loc_id (_locations cm).

Definition get_book (cm : ConfigManager) (book_id : string) : option Book.t :=
  dict_get book_id (_books cm).

Definition style_presets (cm : ConfigManager) : dict StylePreset := _style_presets cm.

(** [set_active_style]: the new state and the returned flag. *)
Definition set_active_style (cm : ConfigManager) (style : string) : ConfigManager * bool :=
  if dict_in style (_style_presets cm) then
    ({| config_path := config_path cm;
        _raw_config := set_doc_active_style style (_raw_config cm);
        _characters := _characters cm;
        _locations := _locations cm;
        _books := _books cm;
        _style_presets := _style_presets cm;
        _prompt_templates := _prompt_templates cm;
        _image_settings := _image_settings cm |}, true)
  else (cm, false).

Definition get_prompt_template (cm : ConfigManager) (template_name : string) : string :=
  get_or (dict_get template_name (_prompt_templates cm)) "".

Section PromptBuilder.

Variable format_beyond : string -> string -> dict string -> string -> fmt_result.

(** The [except KeyError] branch: one literal replacement per keyword
    argument, in the order of the arguments. *)
Definition partial_format (template : string) (kwargs : dict string) : string :=
  fold_left (fun t kv => str_replace ("{" +:+ fst kv +:+ "}") (snd kv) t) kwargs template.

Definition build_prompt (cm : ConfigManager) (template_name : string)
  (kwargs : dict string) : outcome string :=
  let template := get_prompt_template cm template_name in
  if str_is_empty template then Returned ""
  else
    let kwargs :=
      if dict_in "style_prompt" kwargs then kwargs
      else dict_set "style_prompt" (active_style_prompt cm) kwargs in
    match str_format format_beyond template kwargs with
    | FmtOk s => Returned s
    | FmtKeyError _ => Returned (partial_format template kwargs)
    | FmtError e => Raised e
    end.

End PromptBuilder.

(** [get_character_description_block] *)
Definition get_character_description_block (cm : ConfigManager)
  (char_ids : list string) : string :=
  str_join (String "010" "")
    (flat_map (fun cid =>
       match get_character cm cid with
       | Some c => [Character.name c +:+ ": " +:+ Character.description c]
       | None => []
       end) char_ids).

(* ===================================================================== *)
(** * ConfigManager: image settings, listings and modifications           *)
(* ===================================================================== *)

(** [ImageSettings.get_ratio] *)
Definition get_ratio (s : ImageSettings) (ratio_type : string) : string :=
  let ratio_map : dict string :=
    [("hero", hero_shot_ratio s);
     ("scene", scene_ratio s);
     ("cover", cover_ratio s);
     ("group", group_shot_ratio s);
     ("default", default_aspect_ratio s)] in
  let ratio_key := get_or (dict_get ratio_type ratio_map) (default_aspect_ratio s) in
  get_or (dict_get ratio_key (aspect_ratios s)) "1:1".

(** ** Queries and listings *)



(** The entry of a character in [list_characters]. *)
Definition character_info (c : Character.t) : dict string :=
  [("id", Character.id c); ("name", Character.name c); ("role", Character.role c)].

Definition list_characters (cm : ConfigManager) : list (dict string) :=
  map character_info (dict_values (_characters cm)).

Definition list_location_ids (cm : ConfigManager) : list string :=
  dict_keys (_locations cm).

Definition list_locations (cm : ConfigManager) : list (dict string) :=
  map (fun loc => [("id", Location.id loc); ("name", Location.name loc)])
      (dict_values (_locations cm)).

Definition list_book_ids (cm : ConfigManager) : list string :=
  dict_keys (_books cm).

(** [sorted(l, key=key)] on integer keys.  Python's sort is stable, and a
    stable sort has one possible result; it is computed here by insertion,
    an element going before the first element whose key is not smaller. *)
Fixpoint insert_by {A} (key : A -> Z) (x : A) (l : list A) : list A :=
  match l with
  | [] => [x]
  | y :: l' =>
      if (key x <=? key y)%Z then x :: y :: l' else y :: insert_by key x l'
  end.

Definition sorted {A} (key : A -> Z) (l : list A) : list A :=
  fold_right (insert_by key) [] l.

(** The entry of a book in [list_books]. *)
Definition book_info (book : Book.t) : dict (string + Z) :=
  [("id", inl (Book.id book));
   ("number", inr (Book.book_number book));
   ("title", inl (Book.title book));
   ("virtue", inl (Book.virtue book));
   ("featured_character", inl (Book.featured_character book))].

Definition list_books (cm : ConfigManager) : list (dict (string + Z)) :=
  map book_info (sorted Book.book_number (dict_values (_books cm))).

(** The entry of a style in [list_styles]: the id stands in for a missing
    name. *)
Definition style_info (style_id : string) (style_data : StylePreset) : dict string :=
  [("id", style_id); ("name", get_or (style_name style_data) style_id)].

Definition list_styles (cm : ConfigManager) : list (dict string) :=
  map (fun kv => style_info (fst kv) (snd kv)) (_style_presets cm).

(** [get_book_characters]: the featured character and the supporting ones,
    those that exist. *)
Definition get_book_characters (cm : ConfigManager) (book_id : string)
  : list Character.t :=
  match get_book cm book_id with
  | None => []
  | Some book =>
      flat_map (fun cid => match get_character cm cid with
                           | Some c => [c]
                           | None => []
                           end)
               (Book.featured_character book :: Book.supporting_characters book)
  end.

(** ** Modifications *)

(** [raw["characters"] = chars] *)
Definition set_doc_characters (chars : dict CharacterData.t) (d : Document) : Document := {|
  doc_project_name := doc_project_name d;
  doc_api := doc_api d;
  doc_paths := doc_paths d;
  doc_active_style := doc_active_style d;
  doc_style_presets := doc_style_presets d;
  doc_prompt_templates := doc_prompt_templates d;
  doc_characters := Some chars;
  doc_locations := doc_locations d;
  doc_books := doc_books d;
  doc_image_settings := doc_image_settings d;
  doc_generation_settings := doc_generation_settings d
|}.

(** [raw["style_presets"] = presets] *)
Definition set_doc_style_presets (presets : dict StylePreset) (d : Document) : Document := {|
  doc_project_name := doc_project_name d;
  doc_api := doc_api d;
  doc_paths := doc_paths d;
  doc_active_style := doc_active_style d;
  doc_style_presets := Some presets;
  doc_prompt_templates := doc_prompt_templates d;
  doc_characters := doc_characters d;
  doc_locations := doc_locations d;
  doc_books := doc_books d;
  doc_image_settings := doc_image_settings d;
  doc_generation_settings := doc_generation_settings d
|}.

(** [raw["books"] = books] *)
Definition set_doc_books (books : dict BookData.t) (d : Document) : Document := {|
  doc_project_name := doc_project_name d;
  doc_api := doc_api d;
  doc_paths := doc_paths d;
  doc_active_style := doc_active_style d;
  doc_style_presets := doc_style_presets d;
  doc_prompt_templates := doc_prompt_templates d;
  doc_characters := doc_characters d;
  doc_locations := doc_locations d;
  doc_books := Some books;
  doc_image_settings := doc_image_settings d;
  doc_generation_settings := doc_generation_settings d
|}.

(** [add_character]: [setdefault] creates the section when it is missing.
    The document is held here by its content.  The code puts the very
    dictionary of the caller into the document, so a dictionary added under
    two ids is one object under both: see [update_character]. *)
Definition add_character (cm : ConfigManager) (char_id : string)
  (char_data : CharacterData.t) : ConfigManager := {|
  config_path := config_path cm;
  _raw_config :=
    set_doc_characters
      (dict_set char_id char_data (get_or (doc_characters (_raw_config cm)) []))
      (_raw_config cm);
  _characters := dict_set char_id (Character.from_dict char_id char_data) (_characters cm);
  _locations := _locations cm;
  _books := _books cm;
  _style_presets := _style_presets cm;
  _prompt_templates := _prompt_templates cm;
  _image_settings := _image_settings cm
|}.

(** A key of [updates] that is present replaces the key of [data]. *)
Definition updated {A} (new old : option A) : option A :=
  match new with
  | Some a => Some a
  | None => old
  end.

(** [data.update(updates)] on the raw mapping of a character; [updates] is
    a partial mapping of the same keys. *)
Definition character_data_update (data updates : CharacterData.t) : CharacterData.t := {|
  CharacterData.name := updated (CharacterData.name updates) (CharacterData.name data);
  CharacterData.role := updated (CharacterData.role updates) (CharacterData.role data);
  CharacterData.description :=
    updated (CharacterData.description updates) (CharacterData.description data);
  CharacterData.personality :=
    updated (CharacterData.personality updates) (CharacterData.personality data);
  CharacterData.visual_cues :=
    updated (CharacterData.visual_cues updates) (CharacterData.visual_cues data);
  CharacterData.virtues :=
    updated (CharacterData.virtues updates) (CharacterData.virtues data);
  CharacterData.reference_image :=
    updated (CharacterData.reference_image updates) (CharacterData.reference_image data);
  CharacterData.locations :=
    updated (CharacterData.locations updates) (CharacterData.locations data);
  CharacterData.special_function :=
    updated (CharacterData.special_function updates) (CharacterData.special_function data);
  CharacterData.appears_with_chime :=
    updated (CharacterData.appears_with_chime updates)
            (CharacterData.appears_with_chime data)
|}.

(** [update_character]: the new state and the returned flag.  The entry of
    the document is changed in place and the character under [char_id] is
    built again from it.  Where the dictionary of the entry is also the
    entry of another id, the code changes the document under that id as
    well, without building its character again; the document as held here
    follows the code for an entry that is a dictionary of its own
    ([own_entry] below), while the typed characters are the code's in every
    case. *)
Definition update_character (cm : ConfigManager) (char_id : string)
  (updates : CharacterData.t) : ConfigManager * bool :=
  let chars := get_or (doc_characters (_raw_config cm)) [] in
  match dict_get char_id chars with
  | None => (cm, false)
  | Some data =>
      let data' := character_data_update data updates in
      ({| config_path := config_path cm;
          _raw_config := set_doc_characters (dict_set char_id data' chars) (_raw_config cm);
          _characters :=
            dict_set char_id (Character.from_dict char_id data') (_characters cm);
          _locations := _locations cm;
          _books := _books cm;
          _style_presets := _style_presets cm;
          _prompt_templates := _prompt_templates cm;
          _image_settings := _image_settings cm |}, true)
  end.

(** [add_style_preset]: the presets of the manager are the presets of the
    document, one and the same mapping. *)
Definition add_style_preset (cm : ConfigManager) (style_id name prompt : string)
  : ConfigManager :=
  let presets :=
    dict_set style_id {| style_name := Some name; style_prompt := Some prompt |}
             (get_or (doc_style_presets (_raw_config cm)) []) in
  {| config_path := config_path cm;
     _raw_config := set_doc_style_presets presets (_raw_config cm);
     _characters := _characters cm;
     _locations := _locations cm;
     _books := _books cm;
     _style_presets := presets;
     _prompt_templates := _prompt_templates cm;
     _image_settings := _image_settings cm |}.

(** [data["scenes"] = scenes] on the raw mapping of a book. *)
Definition book_data_set_scenes (scenes : list Scene) (data : BookData.t) : BookData.t := {|
  BookData.title := BookData.title data;
  BookData.book_number := BookData.book_number data;
  BookData.virtue := BookData.virtue data;
  BookData.featured_character := BookData.featured_character data;
  BookData.supporting_characters := BookData.supporting_characters data;
  BookData.primary_location := BookData.primary_location data;
  BookData.prop := BookData.prop data;
  BookData.mantra := BookData.mantra data;
  BookData.micro_ritual := BookData.micro_ritual data;
  BookData.scenes := Some scenes
|}.

(** [update_book_scenes]: the new state and the returned flag. *)
Definition update_book_scenes (cm : ConfigManager) (book_id : string)
  (scenes : list Scene) : ConfigManager * bool :=
  let books := get_or (doc_books (_raw_config cm)) [] in
  match dict_get book_id books with
  | None => (cm, false)
  | Some data =>
      let data' := book_data_set_scenes scenes data in
      ({| config_path := config_path cm;
          _raw_config := set_doc_books (dict_set book_id data' books) (_raw_config cm);
          _characters := _characters cm;
          _locations := _locations cm;
          _books := dict_set book_id (Book.from_dict book_id data') (_books cm);
          _style_presets := _style_presets cm;
          _prompt_templates := _prompt_templates cm;
          _image_settings := _image_settings cm |}, true)
  end.

(** ** Values by dotted path

    [get_value] and [set_value] walk [_raw_config] as an untyped tree, so
    they are modelled over the values of [json]. *)
#[warnings="-register-all"] Inductive json : Type :=
| JNull
| JBool (b : bool)
| JInt (z : Z)
| JFloat (q : Q)
| JString (s : string)
| JList (l : list json)
| JDict (d : list (string * json)).

(** [s.split(sep)] for a separator of one character: never an empty list. *)
Fixpoint str_split (sep : ascii) (s : string) : list string :=
  match s with
  | EmptyString => [EmptyString]
  | String c s' =>
      if Ascii.eqb c sep then EmptyString :: str_split sep s'
      else match str_split sep s' with
           | [] => [String c EmptyString]
           | p :: ps => String c p :: ps
           end
  end.

(** The loop of [get_value]. *)
Fixpoint get_path (keys : list string) (config default : json) : json :=
  match keys with
  | [] => config
  | key :: rest =>
      match config with
      | JDict d =>
          match dict_get key d with
          | Some v => get_path rest v default
          | None => default
          end
      | _ => default
      end
  end.

Definition get_value (raw : json) (key_path : string) (default : json) : json :=
  get_path (str_split "." key_path) raw default.

(** The loop of [set_value] and the assignment that ends it, on the tree:
    the dictionaries on the way are created when they are missing.  [None]
    stands for the [TypeError] Python raises where the walk meets a value
    that is not a dictionary; nothing has been changed by then, as a
    dictionary that the walk creates has only dictionaries below it. *)
Fixpoint set_path (keys : list string) (value config : json) : option json :=
  match keys with
  | [] => None
  | key :: rest =>
      match config with
      | JDict d =>
          match rest with
          | [] => Some (JDict (dict_set key value d))
          | _ :: _ =>
              match set_path rest value (get_or (dict_get key d) (JDict [])) with
              | Some child => Some (JDict (dict_set key child d))
              | None => None
              end
          end
      | _ => None
      end
  end.

Definition is_dict (j : json) : bool :=
  match j with JDict _ => true | _ => false end.

(** One of the loops of [_parse_config] over a section of entities, on the
    tree: a missing section counts as an empty one; the section has to be
    a dictionary, for its [items()], and so has each of its entries, for
    the [get] of [from_dict]. *)
Definition section_parses (raw : list (string * json)) (section : string) : bool :=
  match dict_get section raw with
  | None => true
  | Some (JDict entries) => forallb (fun kv => is_dict (snd kv)) entries
  | Some _ => false
  end.

(** Whether [_parse_config] runs through on the tree.  Where it does not,
    it raises [AttributeError]: the characters, the locations and the books
    are parsed entry by entry and the image settings are read with [get];
    the style presets and the prompt templates are taken as they are. *)
Definition parses (raw : json) : bool :=
  match raw with
  | JDict d =>
      section_parses d "characters" && section_parses d "locations"
      && section_parses d "books"
      && match dict_get "image_settings" d with
         | None => true
         | Some settings => is_dict settings
         end
  | _ => false
  end.

(** How a call of [set_value] ends. *)
Inductive assignment : Type :=
| NotAssigned
    (* [TypeError] in the walk: the document is as it was *)
| AssignedUnparsed (raw : json)
    (* the assignment leaves [raw], on which [_parse_config] raises *)
| Assigned (raw : json).
    (* the assignment leaves [raw], the typed entities are parsed from it *)

(** [set_value]: the assignment, then [_parse_config] on the document it
    leaves. *)
Definition set_value (raw : json) (key_path : string) (value : json) : assignment :=
  match set_path (str_split "." key_path) value raw with
  | None => NotAssigned
  | Some raw' => if parses raw' then Assigned raw' else AssignedUnparsed raw'
  end.

(** The document a call of [set_value] leaves, when it has assigned. *)
Definition assigned (a : assignment) : option json :=
  match a with
  | NotAssigned => None
  | AssignedUnparsed raw' => Some raw'
  | Assigned raw' => Some raw'
  end.

(* ===================================================================== *)
(** * The generation engine: world, state and effects                     *)
(* ===================================================================== *)

(** The request sent to the synthesis endpoint. *)
Record SynthesisRequest : Type := {
  arg_prompt : string;
  arg_guidance_scale : Q;
  arg_num_inference_steps : Z;
  arg_output_format : string;
  arg_image_url : option string
}.

(** The response: the ["images"] list, whose entries may carry a ["url"]. *)
Record ApiResponse : Type := {
  images : option (list (option string))
}.

(** What the engine does to the world, in the order it does it.  A remote
    call is logged when it is made, whatever its outcome; a directory or a
    file is logged when it has been created. *)
Inductive event : Type :=
| EvUpload (data : string)
| EvSubscribe (model : string) (arguments : SynthesisRequest)
| EvDownload (url : string)
| EvMkdir (path : string)
| EvWrite (path : string) (data : string)
| EvSleep (seconds : Q).

(** The collaborators of the engine.  Each oracle sees the log so far, so a
    remote service may answer differently from one call to the next. *)
Record World : Type := {
  read_file : list event -> string -> outcome string;
  fal_upload : list event -> string -> outcome string;
  fal_subscribe : list event -> string -> SynthesisRequest -> outcome ApiResponse;
  requests_get : list event -> string -> outcome string;
  mkdir_fault : list event -> string -> option exn;
  write_fault : list event -> string -> option exn;
  clock : list event -> Q;
  strftime : list event -> string -> string;
  path_join : string -> string -> string;
  path_parent : string -> string;
  path_parents : string -> list string;
  path_with_suffix : string -> string -> string
}.

(** The mutable state of one engine instance: the upload cache, the paths
    that exist on disk, and the log.  An operation runs over the disk as it
    is when the operation starts and adds to it what the engine creates;
    between two operations files may have appeared or gone, which is a
    state with other [files]. *)
Record EngineState : Type := {
  _uploaded_images : gmap string string;
  files : gset string;
  events : list event
}.

(** A freshly constructed engine over a disk holding [disk]. *)
Definition fresh_engine (disk : gset string) : EngineState :=
  {| _uploaded_images := ∅; files := disk; events := [] |}.

(** [save_to_disk] as [__init__] settles it. *)
Definition init_save_to_disk (save_to_disk : option bool) (is_serverless : bool) : bool :=
  match save_to_disk with
  | None => negb is_serverless
  | Some b => b
  end.

Record GenerationResult : Type := {
  success : bool;
  output_path : option string;
  image_url : option string;
  prompt_used : string;
  error : option string;
  cost : Q;
  generation_time : Q;
  metadata : dict (string + list string)
}.

(** [GenerationResult(success=False, error=..., prompt_used=...)] with the
    defaults of the dataclass. *)
Definition failed_result (err prompt : string) : GenerationResult := {|
  success := false; output_path := None; image_url := None;
  prompt_used := prompt; error := Some err; cost := 4 # 100;
  generation_time := 0; metadata := []
|}.

(** ** The monad of engine computations *)
Definition M (A : Type) : Type := EngineState -> outcome A * EngineState.

Definition ret {A} (a : A) : M A := fun st => (Returned a, st).

Definition bind {A B} (m : M A) (k : A -> M B) : M B :=
  fun st =>
    match m st with
    | (Returned a, st') => k a st'
    | (Raised e, st') => (Raised e, st')
    end.

Definition raise {A} (e : exn) : M A := fun st => (Raised e, st).

Definition lift {A} (o : outcome A) : M A := fun st => (o, st).

(** [try: m  except Exception as e: handler(e)] *)
Definition try_except {A} (m : M A) (handler : exn -> M A) : M A :=
  fun st =>
    match m st with
    | (Returned a, st') => (Returned a, st')
    | (Raised e, st') => handler e st'
    end.

Declare Scope engine_scope.
Delimit Scope engine_scope with engine.
Notation "x <- m ;; k" := (bind m (fun x => k))
  (at level 100, m at next level, k at level 200, right associativity) : engine_scope.
Notation "m ;; k" := (bind m (fun _ => k))
  (at level 100, k at level 200, right associativity) : engine_scope.
Local Open Scope engine_scope.

Definition log (e : event) (st : EngineState) : EngineState :=
  {| _uploaded_images := _uploaded_images st; files := files st;
     events := events st ++ [e] |}.

Definition create (ps : list string) (st : EngineState) : EngineState :=
  {| _uploaded_images := _uploaded_images st;
     files := list_to_set ps ∪ files st;
     events := events st |}.

Definition cache_store (image_path url : string) : M unit :=
  fun st => (Returned tt,
             {| _uploaded_images := <[image_path := url]> (_uploaded_images st);
                files := files st; events := events st |}).

Definition cache_lookup (image_path : string) : M (option string) :=
  fun st => (Returned (_uploaded_images st !! image_path), st).

Definition path_exists (p : string) : M bool :=
  fun st => (Returned (bool_decide (p ∈ files st)), st).

(** [for i, x in enumerate(l, i): results.append(body(i, x))] *)
Fixpoint for_enumerate {A B} (body : nat -> A -> M B) (i : nat) (l : list A)
  : M (list B) :=
  match l with
  | [] => ret []
  | x :: xs =>
      r <- body i x ;;
      rs <- for_enumerate body (S i) xs ;;
      ret (r :: rs)
  end.

(** [a or b] on an optional number: [None] and zero are falsy. *)
Definition or_Q (a : option Q) (b : Q) : Q :=
  match a with
  | Some q => if Qeq_bool q 0 then b else q
  | None => b
  end.

Definition or_Z (a : option Z) (b : Z) : Z :=
  match a with
  | Some z => if (z =? 0)%Z then b else z
  | None => b
  end.

Section Engine.

Variable format_beyond : string -> string -> dict string -> string -> fmt_result.
Variable w : World.
Variable config : ConfigManager.
Variable save_to_disk : bool.

(** [time.time()] *)
Definition now : M Q := fun st => (Returned (clock w (events st)), st).

(** [datetime.now().strftime(fmt)] *)
Definition timestamp (fmt : string) : M string :=
  fun st => (Returned (strftime w (events st) fmt), st).

(** [open(path, "rb").read()] *)
Definition read (path : string) : M string :=
  fun st => (read_file w (events st) path, st).

(** [fal_client.upload(data, content_type="image/jpeg")] *)
Definition upload (data : string) : M string :=
  fun st => (fal_upload w (events st) data, log (EvUpload data) st).

(** [fal_client.subscribe(model, arguments=..., with_logs=False)] *)
Definition subscribe (model : string) (arguments : SynthesisRequest) : M ApiResponse :=
  fun st => (fal_subscribe w (events st) model arguments,
             log (EvSubscribe model arguments) st).

(** [requests.get(url).content] *)
Definition download (url : string) : M string :=
  fun st => (requests_get w (events st) url, log (EvDownload url) st).

(** [path.mkdir(parents=True, exist_ok=True)] *)
Definition mkdir (path : string) : M unit :=
  fun st =>
    match mkdir_fault w (events st) path with
    | Some e => (Raised e, st)
    | None => (Returned tt, log (EvMkdir path) (create (path :: path_parents w path) st))
    end.

(** [with open(path, "w") as f: f.write(data)] *)
Definition write (path data : string) : M unit :=
  fun st =>
    match write_fault w (events st) path with
    | Some e => (Raised e, st)
    | None => (Returned tt, log (EvWrite path data) (create [path] st))
    end.

(** [time.sleep(seconds)] *)
Definition sleep (seconds : Q) : M unit :=
  fun st =>
    if Qle_bool 0 seconds
    then (Returned tt, log (EvSleep seconds) st)
    else (Raised (ValueError "sleep length must be non-negative"), st).

Definition _ensure_directory (path : string) : M string :=
  mkdir path ;; ret path.

Definition _upload_image (image_path : string) (force : bool) : M string :=
  if startswith image_path "http" then ret image_path
  else
    cached <- cache_lookup image_path ;;
    match (if force then None else cached) with
    | Some url => ret url
    | None =>
        present <- path_exists image_path ;;
        if negb present
        then raise (FileNotFoundError ("Image not found: " +:+ image_path))
        else
          data <- read image_path ;;
          url <- upload data ;;
          cache_store image_path url ;;
          ret url
    end.

(** The [arguments] mapping of [_call_api]. *)
Definition api_arguments (prompt : string) (reference_url : option string)
  (guidance : option Q) (num_steps : option Z) : SynthesisRequest :=
  let defaults := api_defaults config in
  {| arg_prompt := prompt;
     arg_guidance_scale := or_Q guidance (get_or (guidance_scale defaults) (35 # 10));
     arg_num_inference_steps :=
       or_Z num_steps (get_or (num_inference_steps defaults) 28%Z);
     arg_output_format := get_or (output_format defaults) "jpeg";
     arg_image_url := truthy reference_url |}.

Definition _call_api (prompt : string) (reference_url : option string)
  (guidance : option Q) (num_steps : option Z) : M ApiResponse :=
  subscribe (api_model config) (api_arguments prompt reference_url guidance num_steps).

(** [result["images"][0]["url"]] *)
Definition first_image_url (result : ApiResponse) : M string :=
  match images result with
  | None => raise (KeyError "images")
  | Some [] => raise (IndexError "list index out of range")
  | Some (None :: _) => raise (KeyError "url")
  | Some (Some url :: _) => ret url
  end.

Definition _save_image (url path : string) (save_prompt : bool) (prompt : string)
  : M string :=
  image_data <- download url ;;
  mkdir (path_parent w path) ;;
  write path image_data ;;
  (if save_prompt && negb (str_is_empty prompt) && save_prompts_enabled config
   then write (path_with_suffix w path ".txt") prompt
   else ret tt) ;;
  ret path.

(** The part the four operations share, inside their [try]: resolve the
    reference, call the endpoint, persist when enabled, package the result.
    [persist] says where the image goes. *)
Definition finish (start_time : Q) (prompt : string) (ref_url : option string)
  (persist : string -> M string) (meta : dict (string + list string))
  : M GenerationResult :=
  result <- _call_api prompt ref_url None None ;;
  url <- first_image_url result ;;
  t <- now ;;
  saved_path <- (if save_to_disk
                 then (p <- persist url ;; ret (Some p))
                 else ret None) ;;
  ret {| success := true; output_path := saved_path; image_url := Some url;
         prompt_used := prompt; error := None; cost := cost_per_image config;
         generation_time := t - start_time; metadata := meta |}.

(** [except Exception as e: return GenerationResult(success=False, ...)] *)
Definition capture (prompt : string) (e : exn) : M GenerationResult :=
  ret (failed_result (exn_str e) prompt).

Definition optional_reference (reference_image : option string) : M (option string) :=
  match truthy reference_image with
  | Some r => (u <- _upload_image r false ;; ret (Some u))
  | None => ret None
  end.

Definition location_description (location_id : option string) (default : string) : string :=
  match truthy location_id with
  | Some l =>
      match get_location config l with
      | Some loc => Location.description loc
      | None => default
      end
  | None => default
  end.

Definition jpg_name (output_name : option string) (default : M string) : M string :=
  match truthy output_name with
  | Some n => ret (n +:+ ".jpg")
  | None => default
  end.

(** *** Hero shot *)
Definition hero_prompt (character : Character.t) (location_id custom_prompt : option string)
  : outcome string :=
  match truthy custom_prompt with
  | Some p => Returned p
  | None =>
      build_prompt format_beyond config "hero_shot"
        [("character_name", Character.name character);
         ("character_description", Character.description character);
         ("location", location_description location_id "soft, neutral background");
         ("style_prompt", active_style_prompt config)]
  end.

(** Where a hero shot is written: a directory per character. *)
Definition hero_persist (character_id : string) (output_name : option string)
  (prompt url : string) : M string :=
  let output_dir :=
    get_or (dict_get "character_references" (paths config))
           "./reference_images/characters" in
  char_dir <- _ensure_directory (path_join w output_dir character_id) ;;
  filename <- jpg_name output_name
                (ts <- timestamp "%Y%m%d_%H%M%S" ;; ret ("hero_" +:+ ts +:+ ".jpg")) ;;
  _save_image url (path_join w char_dir filename) true prompt.

Definition hero_metadata (character_id : string) (character : Character.t)
  : dict (string + list string) :=
  [("character_id", inl character_id);
   ("character_name", inl (Character.name character));
   ("type", inl "hero_shot")].

(** The body of the [try] of a hero shot. *)
Definition hero_attempt (start_time : Q) (prompt character_id : string)
  (character : Character.t) (reference_image output_name : option string)
  : M GenerationResult :=
  ref_url <- optional_reference reference_image ;;
  finish start_time prompt ref_url
    (hero_persist character_id output_name prompt)
    (hero_metadata character_id character).

Definition generate_hero_shot (character_id : string)
  (reference_image location_id custom_prompt output_name : option string)
  : M GenerationResult :=
  start_time <- now ;;
  match get_character config character_id with
  | None => ret (failed_result ("Character not found: " +:+ character_id) "")
  | Some character =>
      prompt <- lift (hero_prompt character location_id custom_prompt) ;;
      try_except
        (hero_attempt start_time prompt character_id character reference_image
           output_name)
        (capture prompt)
  end.

(** *** All hero shots *)
Definition generate_all_hero_shots (reference_image : option string)
  (character_ids : option (list string)) : M (list GenerationResult) :=
  let ids_to_generate :=
    match character_ids with
    | Some (c :: cs) => c :: cs
    | _ => list_character_ids config
    end in
  for_enumerate
    (fun i char_id =>
       result <- generate_hero_shot char_id reference_image None None None ;;
       (if (i <? length ids_to_generate)%nat
        then sleep (rate_limit_delay config)
        else ret tt) ;;
       ret result)
    1 ids_to_generate.

(** *** Group shot *)
Definition resolve_characters (character_ids : list string) : list Character.t :=
  flat_map (fun cid => match get_character config cid with
                       | Some c => [c]
                       | None => []
                       end) character_ids.

Definition group_prompt (chars : list Character.t) (location_id custom_prompt : option string)
  : outcome string :=
  match truthy custom_prompt with
  | Some p => Returned p
  | None =>
      build_prompt format_beyond config "group_shot"
        [("character_list", str_join ", " (map Character.name chars));
         ("character_descriptions",
          str_join (String "010" "")
            (map (fun c => "- " +:+ Character.name c +:+ ": " +:+ Character.description c)
                 chars));
         ("location_description",
          location_description location_id "beautiful farm setting with rolling hills");
         ("style_prompt", active_style_prompt config)]
  end.

Definition group_persist (character_ids : list string) (output_name : option string)
  (prompt url : string) : M string :=
  output_dir <- _ensure_directory
                  (get_or (dict_get "group_shots" (paths config))
                          "./reference_images/group_shots") ;;
  filename <- jpg_name output_name
                (ts <- timestamp "%Y%m%d_%H%M%S" ;;
                 let char_abbrev :=
                   str_join "_" (map (str_take 3) (firstn 4 character_ids)) in
                 ret ("group_" +:+ char_abbrev +:+ "_" +:+ ts +:+ ".jpg")) ;;
  _save_image url (path_join w output_dir filename) true prompt.

Definition group_metadata (character_ids : list string) (chars : list Character.t)
  : dict (string + list string) :=
  [("character_ids", inr character_ids);
   ("character_names", inr (map Character.name chars));
   ("type", inl "group_shot")].

Definition group_attempt (start_time : Q) (prompt : string)
  (character_ids : list string) (chars : list Character.t)
  (reference_image output_name : option string) : M GenerationResult :=
  ref_url <- optional_reference reference_image ;;
  finish start_time prompt ref_url
    (group_persist character_ids output_name prompt)
    (group_metadata character_ids chars).

Definition generate_group_shot (character_ids : list string)
  (reference_image location_id custom_prompt output_name : option string)
  : M GenerationResult :=
  start_time <- now ;;
  match resolve_characters character_ids with
  | [] => ret (failed_result "No valid characters found" "")
  | c :: cs =>
      prompt <- lift (group_prompt (c :: cs) location_id custom_prompt) ;;
      try_except
        (group_attempt start_time prompt character_ids (c :: cs) reference_image
           output_name)
        (capture prompt)
  end.

(** *** Scene *)
Definition scene_prompt_text (scene_prompt : string) (character_ids : list string)
  (location_id : option string) (additional_notes : string) : outcome string :=
  match build_prompt format_beyond config "scene"
          [("scene_description", scene_prompt);
           ("character_list",
            str_join ", " (map Character.name (resolve_characters character_ids)));
           ("character_descriptions",
            get_character_description_block config character_ids);
           ("location_description", location_description location_id "");
           ("additional_notes", additional_notes);
           ("style_prompt", active_style_prompt config)] with
  | Raised e => Raised e
  | Returned prompt =>
      let consistency := get_prompt_template config "consistency_suffix" in
      if str_is_empty consistency then Returned prompt
      else Returned (prompt +:+ String "010" (String "010" "") +:+ consistency)
  end.

Definition scene_persist (scene_prompt : string) (output_name : option string)
  (prompt url : string) : M string :=
  output_dir <- _ensure_directory
                  (get_or (dict_get "output" (paths config)) "./output") ;;
  filename <- jpg_name output_name
                (ts <- timestamp "%H%M%S" ;;
                 let safe_prompt :=
                   str_replace "," "" (str_replace " " "_" (str_take 25 scene_prompt)) in
                 ret ("scene_" +:+ safe_prompt +:+ "_" +:+ ts +:+ ".jpg")) ;;
  _save_image url (path_join w output_dir filename) true prompt.

Definition scene_metadata (scene_prompt : string) (character_ids : list string)
  : dict (string + list string) :=
  [("scene_prompt", inl scene_prompt);
   ("character_ids", inr character_ids);
   ("type", inl "scene")].

Definition scene_attempt (start_time : Q) (prompt scene_prompt : string)
  (character_ids : list string) (reference_image : string)
  (output_name : option string) : M GenerationResult :=
  ref_url <- _upload_image reference_image false ;;
  finish start_time prompt (Some ref_url)
    (scene_persist scene_prompt output_name prompt)
    (scene_metadata scene_prompt character_ids).

Definition generate_scene (scene_prompt : string) (character_ids : list string)
  (reference_image : string) (location_id output_name : option string)
  (additional_notes : string) : M GenerationResult :=
  start_time <- now ;;
  prompt <- lift (scene_prompt_text scene_prompt character_ids location_id
                    additional_notes) ;;
  try_except
    (scene_attempt start_time prompt scene_prompt character_ids reference_image
       output_name)
    (capture prompt).

(** *** Cover *)
Definition cover_prompt (book : Book.t) (featured : Character.t)
  (custom_prompt : option string) : outcome string :=
  match truthy custom_prompt with
  | Some p => Returned p
  | None =>
      build_prompt format_beyond config "cover"
        [("book_title", Book.title book);
         ("virtue", Book.virtue book);
         ("featured_character_name", Character.name featured);
         ("featured_character_description", Character.description featured);
         ("location_description",
          match get_location config (Book.primary_location book) with
          | Some loc => Location.description loc
          | None => "beautiful farm setting"
          end);
         ("style_prompt", active_style_prompt config)]
  end.

Definition cover_persist (book_id : string) (output_name : option string)
  (prompt url : string) : M string :=
  output_dir <- _ensure_directory
                  (get_or (dict_get "covers_output" (paths config))
                          "./output/covers") ;;
  filename <- jpg_name output_name (ret ("cover_" +:+ book_id +:+ ".jpg")) ;;
  _save_image url (path_join w output_dir filename) true prompt.

Definition cover_metadata (book_id : string) (book : Book.t)
  : dict (string + list string) :=
  [("book_id", inl book_id);
   ("book_title", inl (Book.title book));
   ("type", inl "cover")].

Definition cover_attempt (start_time : Q) (prompt book_id : string) (book : Book.t)
  (reference_image : string) (output_name : option string) : M GenerationResult :=
  ref_url <- _upload_image reference_image false ;;
  finish start_time prompt (Some ref_url)
    (cover_persist book_id output_name prompt)
    (cover_metadata book_id book).

Definition generate_cover (book_id reference_image : string)
  (custom_prompt output_name : option string) : M GenerationResult :=
  start_time <- now ;;
  match get_book config book_id with
  | None => ret (failed_result ("Book not found: " +:+ book_id) "")
  | Some book =>
      match get_character config (Book.featured_character book) with
      | None =>
          ret (failed_result
                 ("Featured character not found: " +:+ Book.featured_character book) "")
      | Some featured =>
          prompt <- lift (cover_prompt book featured custom_prompt) ;;
          try_except
            (cover_attempt start_time prompt book_id book reference_image output_name)
            (capture prompt)
      end
  end.

(** *** Whole book *)

(** [start <= s.get("page", 0) <= end] *)
Definition page_in_range (range : Z * Z) (s : Scene) : bool :=
  ((fst range <=? get_or (page s) 0) && (get_or (page s) 0 <=? snd range))%Z.

(** The scenes a book generation works on. *)
Definition select_scenes (page_range : option (Z * Z)) (scenes : list Scene) : list Scene :=
  match page_range with
  | Some range => List.filter (page_in_range range) scenes
  | None => scenes
  end.

(** The directory the pages of a book go to. *)
Definition book_output_dir (book_id : string) : string :=
  path_join w (get_or (dict_get "books_output" (paths config)) "./output/books") book_id.

(** The arguments a scene of a book is generated with. *)
Definition book_scene_characters (book : Book.t) (scene : Scene) : list string :=
  get_or (characters scene)
         (Book.featured_character book :: Book.supporting_characters book).

(** One round of the loop over the scenes; [total] is their number. *)
Definition book_scene_step (book_id reference_image : string) (book : Book.t)
  (total : nat) (i : nat) (scene : Scene) : M GenerationResult :=
  let page_num := get_or (page scene) (Z.of_nat i) in
  result <- generate_scene
              (get_or (prompt scene) "")
              (book_scene_characters book scene)
              reference_image
              (Some (Book.primary_location book))
              (Some (path_join w (book_output_dir book_id)
                       ("page_" +:+ format_02d page_num)))
              "" ;;
  (if (i <? total)%nat then sleep (rate_limit_delay config) else ret tt) ;;
  ret result.

(** The cover of a book generation, with the delay that follows it. *)
Definition book_cover_step (book_id reference_image : string)
  : M (list GenerationResult) :=
  cover_result <- generate_cover book_id reference_image None
                    (Some (path_join w (book_output_dir book_id) "cover")) ;;
  sleep (rate_limit_delay config) ;;
  ret [cover_result].

Definition generate_book (book_id reference_image : string) (include_cover : bool)
  (page_range : option (Z * Z)) : M (list GenerationResult) :=
  match get_book config book_id with
  | None => ret []
  | Some book =>
      match Book.scenes book with
      | [] => ret []
      | _ =>
          let scenes := select_scenes page_range (Book.scenes book) in
          _ensure_directory (book_output_dir book_id) ;;
          cover_results <-
            (if include_cover then book_cover_step book_id reference_image
             else ret []) ;;
          scene_results <-
            for_enumerate
              (book_scene_step book_id reference_image book (length scenes))
              1 scenes ;;
          ret (cover_results ++ scene_results)
      end
  end.

End Engine.

(* ===================================================================== *)
(** * Templates as the specification reads them                           *)
(* ===================================================================== *)

(** The specification speaks of a template as literal text interleaved with
    named placeholders.  [render] gives the text of such a template. *)
Inductive segment : Type :=
| Lit (text : string)
| Field (name : string).

Definition render_segment (g : segment) : string :=
  match g with
  | Lit t => t
  | Field n => "{" +:+ n +:+ "}"
  end.

Fixpoint render (segs : list segment) : string :=
  match segs with
  | [] => ""
  | g :: gs => render_segment g +:+ render gs
  end.

Fixpoint str_forallb (p : ascii -> bool) (s : string) : bool :=
  match s with
  | EmptyString => true
  | String c s' => p c && str_forallb p s'
  end.

Definition is_brace (c : ascii) : bool := Ascii.eqb c "{" || Ascii.eqb c "}".

Definition brace_free (s : string) : bool := str_forallb (fun c => negb (is_brace c)) s.

(** The characters that end a field name or make the field a compound one,
    and the bytes of the characters outside ASCII. *)
Definition is_field_special (c : ascii) : bool :=
  is_brace c || Ascii.eqb c "." || Ascii.eqb c "[" || Ascii.eqb c "!" || Ascii.eqb c ":"
  || beyond_ascii c.

(** A plain named placeholder: a non-empty name of ASCII characters that is
    not a number and holds none of the special characters. *)
Definition field_name_ok (n : string) : bool :=
  negb (str_is_empty n) && str_forallb (fun c => negb (is_field_special c)) n
  && negb (all_digits n).

Definition simple_segment (g : segment) : bool :=
  match g with
  | Lit t => brace_free t
  | Field n => field_name_ok n
  end.

(** Literal text without braces and plain named placeholders only. *)
Definition simple_template (segs : list segment) : bool := forallb simple_segment segs.

(** Any placeholder between braces, whatever its name. *)
Definition placeholder_segment (g : segment) : bool :=
  match g with
  | Lit t => brace_free t
  | Field n => brace_free n
  end.

(** The variables a prompt is built from: those of the caller, and the
    active style's prompt under [style_prompt] unless the caller gave one. *)
Definition supplied (cm : ConfigManager) (kwargs : dict string) : dict string :=
  match dict_get "style_prompt" kwargs with
  | Some _ => kwargs
  | None => kwargs ++ [("style_prompt", active_style_prompt cm)]
  end.

(** A placeholder with a matching variable becomes that variable's value;
    any other placeholder stays as it is. *)
Definition substitute (vars : dict string) (g : segment) : segment :=
  match g with
  | Lit t => Lit t
  | Field n =>
      match dict_get n vars with
      | Some v => Lit v
      | None => Field n
      end
  end.

Definition expected_prompt (vars : dict string) (segs : list segment) : string :=
  render (map (substitute vars) segs).

(** One step of the fallback on the segments: the placeholders named [k]
    become the text [v]. *)
Definition replace_segment (k v : string) (g : segment) : segment :=
  match g with
  | Lit t => Lit t
  | Field n => if String.eqb n k then Lit v else Field n
  end.

(** The placeholders that have no matching variable. *)
Definition unmatched (vars : dict string) (segs : list segment) : list string :=
  flat_map (fun g => match g with
                     | Field n => if dict_in n vars then [] else [n]
                     | Lit _ => []
                     end) segs.

(** Neither the names nor the values of the variables hold a brace. *)
Definition marker_free (vars : dict string) : bool :=
  forallb (fun kv => brace_free (fst kv) && brace_free (snd kv)) vars.


(** No prompt construction raises, whatever the template and the
    variables. *)
Definition prompts_never_raise
  (fb : string -> string -> dict string -> string -> fmt_result)
  (cm : ConfigManager) : Prop :=
  forall tn kwargs, exists s, build_prompt fb cm tn kwargs = Returned s.


(* ===================================================================== *)
(** * Observations on a run                                               *)
(* ===================================================================== *)

Definition is_upload (e : event) : bool :=
  match e with EvUpload _ => true | _ => false end.

Definition is_sleep (e : event) : bool :=
  match e with EvSleep _ => true | _ => false end.

Definition is_subscribe (e : event) : bool :=
  match e with EvSubscribe _ _ => true | _ => false end.

(** The number of upload calls made so far. *)
Definition upload_calls (st : EngineState) : nat :=
  length (List.filter is_upload (events st)).

(** Every cached reference is a path that exists. *)
Definition cache_sound (st : EngineState) : Prop :=
  forall p url, _uploaded_images st !! p = Some url -> p ∈ files st.

(** The states one engine instance goes through when the disk is left to
    it: it starts fresh over some disk, and then runs its operations in any
    order with any arguments. *)
Inductive engine_state (fb : string -> string -> dict string -> string -> fmt_result)
  (w : World) (cm : ConfigManager) (s2d : bool) : EngineState -> Prop :=
| es_fresh disk : engine_state fb w cm s2d (fresh_engine disk)
| es_upload st p force :
    engine_state fb w cm s2d st ->
    engine_state fb w cm s2d (snd (_upload_image w p force st))
| es_hero st cid ref loc custom out :
    engine_state fb w cm s2d st ->
    engine_state fb w cm s2d (snd (generate_hero_shot fb w cm s2d cid ref loc custom out st))
| es_all_heroes st ref ids :
    engine_state fb w cm s2d st ->
    engine_state fb w cm s2d (snd (generate_all_hero_shots fb w cm s2d ref ids st))
| es_group st ids ref loc custom out :
    engine_state fb w cm s2d st ->
    engine_state fb w cm s2d (snd (generate_group_shot fb w cm s2d ids ref loc custom out st))
| es_scene st sp ids ref loc out notes :
    engine_state fb w cm s2d st ->
    engine_state fb w cm s2d (snd (generate_scene fb w cm s2d sp ids ref loc out notes st))
| es_cover st bid ref custom out :
    engine_state fb w cm s2d st ->
    engine_state fb w cm s2d (snd (generate_cover fb w cm s2d bid ref custom out st))
| es_book st bid ref cover range :
    engine_state fb w cm s2d st ->
    engine_state fb w cm s2d (snd (generate_book fb w cm s2d bid ref cover range st)).

(** A computation keeps a property of the state, whatever its outcome. *)
Definition preserves {A} (I : EngineState -> Prop) (m : M A) : Prop :=
  forall st, I st -> I (snd (m st)).

(** A result either reports success and no error, or reports failure and
    says why. *)
Definition well_flagged (r : GenerationResult) : Prop :=
  (success r = true /\ error r = None) \/
  (success r = false /\ exists msg, error r = Some msg).









(** The successes of a batch and what they cost. *)
Definition successful (results : list GenerationResult) : nat :=
  length (List.filter success results).

(** ** The states of a configuration manager *)

(** A Python dictionary holds each key once. *)
Definition wf_dict {V} (d : dict V) : Prop := List.NoDup (dict_keys d).

(** The entity sections of a document, as [json.load] builds them. *)
Definition wf_document (raw : Document) : Prop :=
  wf_dict (get_or (doc_characters raw) []) /\
  wf_dict (get_or (doc_locations raw) []) /\
  wf_dict (get_or (doc_books raw) []).

(** The states one manager goes through: it is loaded from a document that
    satisfies [ok], and then modified in any order. *)
Inductive configured (ok : Document -> Prop) : ConfigManager -> Prop :=
| cf_load path raw :
    ok raw -> configured ok (_parse_config path raw)
| cf_set_active_style cm style :
    configured ok cm -> configured ok (fst (set_active_style cm style))
| cf_add_character cm char_id char_data :
    configured ok cm -> configured ok (add_character cm char_id char_data)
| cf_update_character cm char_id updates :
    configured ok cm -> configured ok (fst (update_character cm char_id updates))
| cf_add_style_preset cm style_id name prompt :
    configured ok cm -> configured ok (add_style_preset cm style_id name prompt)
| cf_update_book_scenes cm book_id scenes :
    configured ok cm -> configured ok (fst (update_book_scenes cm book_id scenes)).

(** Any document. *)
Definition any_document (raw : Document) : Prop := True.

(** The dictionary of the character [char_id] is no other character's:
    two entries of the document that are one and the same dictionary have
    the same content, so an entry that differs from every other entry is a
    dictionary of its own. *)
Definition own_entry (cm : ConfigManager) (char_id : string) : Prop :=
  let chars := get_or (doc_characters (_raw_config cm)) [] in
  forall data other,
    dict_get char_id chars = Some data ->
    other <> char_id ->
    dict_get other chars <> Some data.

(** The states of a manager that is loaded from a well-formed document and
    then modified in any order, a character being updated only where its
    dictionary is its own. *)
Inductive tended : ConfigManager -> Prop :=
| td_load path raw :
    wf_document raw -> tended (_parse_config path raw)
| td_set_active_style cm style :
    tended cm -> tended (fst (set_active_style cm style))
| td_add_character cm char_id char_data :
    tended cm -> tended (add_character cm char_id char_data)
| td_update_character cm char_id updates :
    tended cm -> own_entry cm char_id ->
    tended (fst (update_character cm char_id updates))
| td_add_style_preset cm style_id name prompt :
    tended cm -> tended (add_style_preset cm style_id name prompt)
| td_update_book_scenes cm book_id scenes :
    tended cm -> tended (fst (update_book_scenes cm book_id scenes)).

(** The ratio name the settings give to a ratio type: the one of the type
    for "hero", "scene", "cover" and "group", the default one otherwise. *)
Definition ratio_name (s : ImageSettings) (ratio_type : string) : string :=
  if String.eqb ratio_type "hero" then hero_shot_ratio s
  else if String.eqb ratio_type "scene" then scene_ratio s
  else if String.eqb ratio_type "cover" then cover_ratio s
  else if String.eqb ratio_type "group" then group_shot_ratio s
  else default_aspect_ratio s.

(** The image settings of a document that gives the table of aspect ratios
    and nothing else. *)
Definition table_only (table : dict string) : ImageSettingsData := {|
  isd_aspect_ratios := Some table;
  isd_default_aspect_ratio := None;
  isd_hero_shot_ratio := None;
  isd_scene_ratio := None;
  isd_cover_ratio := None;
  isd_group_shot_ratio := None
|}.

(** The typed entities are what [_parse_config] makes of the document. *)
Definition in_sync (cm : ConfigManager) : Prop :=
  cm = _parse_config (config_path cm) (_raw_config cm).

(** Every entity is stored under its own id. *)
Definition keyed_by_id (cm : ConfigManager) : Prop :=
  Forall (fun kc => Character.id (snd kc) = fst kc) (_characters cm) /\
  Forall (fun kl => Location.id (snd kl) = fst kl) (_locations cm) /\
  Forall (fun kb => Book.id (snd kb) = fst kb) (_books cm).

(** The typed entry of a raw entry. *)
Definition typed_entry {D T} (from_dict : string -> D -> T) (kd : string * D)
  : string * T :=
  (fst kd, from_dict (fst kd) (snd kd)).

(** ** What the operations leave alone *)

(** The events of persisting an image: the download of the produced image,
    a directory or a file created. *)
Definition is_persist (e : event) : bool :=
  match e with
  | EvDownload _ | EvMkdir _ | EvWrite _ _ => true
  | _ => false
  end.

(** The number of synthesis requests made so far. *)
Definition requests (st : EngineState) : nat :=
  length (List.filter is_subscribe (events st)).

(** A computation that makes at most [n] synthesis requests. *)
Definition requests_at_most {A} (n : nat) (m : M A) : Prop :=
  forall st, (requests (snd (m st)) <= requests st + n)%nat.

(** A reference that needs no upload in a state whose cache is [cache]: an
    address, or a path that has been uploaded. *)
Definition resolved (cache : gmap string string) (p : string) : Prop :=
  startswith p "http" = true \/ is_Some (cache !! p).

(** The references an optional argument stands for satisfy [good]. *)
Definition reference_ok (good : string -> Prop) (reference_image : option string) : Prop :=
  forall r, truthy reference_image = Some r -> good r.

(** The uploads made and the cache are [n] and [cache]. *)
Definition uploads_are (n : nat) (cache : gmap string string) (st : EngineState) : Prop :=
  upload_calls st = n /\ _uploaded_images st = cache.

(** The disk and the persisting events are [disk] and [evs]. *)
Definition disk_is (disk : gset string) (evs : list event) (st : EngineState) : Prop :=
  files st = disk /\ List.filter is_persist (events st) = evs.

(** A synthesis request of the log went to the configured model with the
    configured parameters; an empty reference address is never sent. *)
Definition configured_request (cm : ConfigManager) (e : event) : Prop :=
  match e with
  | EvSubscribe model request =>
      model = api_model cm /\
      arg_guidance_scale request
      = get_or (guidance_scale (api_defaults cm)) (35 # 10) /\
      arg_num_inference_steps request
      = get_or (num_inference_steps (api_defaults cm)) 28%Z /\
      arg_output_format request = get_or (output_format (api_defaults cm)) "jpeg" /\
      arg_image_url request <> Some ""
  | _ => True
  end.

(** What a result looks like: a success carries the address of the image
    and the configured cost, and no local path when persistence is off; a
    failure carries an error text and the defaults of the dataclass. *)
Definition result_shape (cm : ConfigManager) (s2d : bool) (r : GenerationResult) : Prop :=
  (success r = true /\ error r = None /\ cost r = cost_per_image cm /\
   (exists url, image_url r = Some url) /\
   (s2d = false -> output_path r = None)) \/
  (success r = false /\ (exists err, error r = Some err) /\ cost r = 4 # 100 /\
   image_url r = None /\ output_path r = None /\ metadata r = []).



(** The uploads made and the cache are those of [st]. *)
Definition same_uploads (st st' : EngineState) : Prop :=
  uploads_are (upload_calls st) (_uploaded_images st) st'.

(** The disk and the persisting events are those of [st]. *)
Definition same_disk (st st' : EngineState) : Prop :=
  disk_is (files st) (List.filter is_persist (events st)) st'.

(** Every synthesis request of the log is a configured one. *)
Definition requests_configured (cm : ConfigManager) (st : EngineState) : Prop :=
  List.Forall (configured_request cm) (events st).

(** The directory [dir] has been created. *)
Definition directory_made (dir : string) (st : EngineState) : Prop :=
  dir ∈ files st /\ In (EvMkdir dir) (events st).

(** The local path of a result, when it has one, names a file of the disk. *)
Definition result_on_disk (st : EngineState) (r : GenerationResult) : Prop :=
  forall p, output_path r = Some p -> p ∈ files st.

(** The local path of a result, when it has one, is [path]. *)
Definition saved_at (path : string) (r : GenerationResult) : Prop :=
  forall p, output_path r = Some p -> p = path.

(** The requests made from [st] to [st'] cover the successes among [rs]:
    one request at least for each. *)
Definition successes_paid (st st' : EngineState) (rs : list GenerationResult) : Prop :=
  (requests st + successful rs <= requests st')%nat.

(* ===================================================================== *)
(** * A small farm: the configuration and the worlds used in examples     *)
(* ===================================================================== *)

Definition barnaby_data : CharacterData.t := {|
  CharacterData.name := Some "Barnaby";
  CharacterData.role := Some "core";
  CharacterData.description := Some "a brave young rabbit";
  CharacterData.personality := None;
  CharacterData.visual_cues := None;
  CharacterData.virtues := Some ["courage"];
  CharacterData.reference_image := None;
  CharacterData.locations := Some ["meadow"];
  CharacterData.special_function := None;
  CharacterData.appears_with_chime := None
|}.

Definition meadow_data : LocationData.t := {|
  LocationData.name := Some "Meadow";
  LocationData.description := Some "a sunlit meadow";
  LocationData.associated_virtues := None;
  LocationData.associated_characters := Some ["barnaby_bunny"]
|}.

Definition scene_on_page (p : Z) (text : string) : Scene :=
  {| page := Some p; prompt := Some text; characters := None |}.

Definition courage_data : BookData.t := {|
  BookData.title := Some "The Brave Little Bunny";
  BookData.book_number := Some 1%Z;
  BookData.virtue := Some "courage";
  BookData.featured_character := Some "barnaby_bunny";
  BookData.supporting_characters := Some [];
  BookData.primary_location := Some "meadow";
  BookData.prop := None;
  BookData.mantra := None;
  BookData.micro_ritual := None;
  BookData.scenes :=
    Some [scene_on_page 1 "Barnaby wakes up";
          scene_on_page 2 "Barnaby meets the fox";
          scene_on_page 3 "Barnaby comes home"]
|}.

Definition farm_templates : dict string :=
  [("hero_shot", "{character_name} in {style_prompt}");
   ("scene", "{scene_description} with {character_list}, {style_prompt}");
   ("cover", "Cover of {book_title} about {virtue}, {style_prompt}")].

Definition farm_document_full (templates : dict string) (delay : Q) : Document := {|
  doc_project_name := Some "Optimist Farm";
  doc_api := Some {| api_model_field := None; api_defaults_field := None;
                     api_cost_per_image := Some (5 # 100) |};
  doc_paths := None;
  doc_active_style := Some "pixar";
  doc_style_presets :=
    Some [("pixar", {| style_name := Some "Pixar";
                       style_prompt := Some "pixar style 3d render" |});
          ("watercolor", {| style_name := Some "Watercolor";
                            style_prompt := Some "soft watercolor" |})];
  doc_prompt_templates := Some templates;
  doc_characters := Some [("barnaby_bunny", barnaby_data)];
  doc_locations := Some [("meadow", meadow_data)];
  doc_books := Some [("book_01_courage", courage_data)];
  doc_image_settings := None;
  doc_generation_settings :=
    Some {| rate_limit_delay_seconds := Some delay; save_prompts := Some false |}
|}.

Definition farm_document_with (templates : dict string) : Document :=
  farm_document_full templates (2 # 1).

Definition farm_document : Document := farm_document_with farm_templates.

Definition farm_config_with (templates : dict string) : ConfigManager :=
  _parse_config DEFAULT_CONFIG_PATH (farm_document_with templates).

Definition farm_config : ConfigManager := farm_config_with farm_templates.




(** The same farm with every generation template cut short. *)
Definition broken_config : ConfigManager :=
  farm_config_with [("hero_shot", "{character_name} }"); ("group_shot", "{");
                    ("scene", "{0}"); ("cover", "{book_title")].



(** No template of the examples needs Python's compound fields. *)
Definition no_beyond : string -> string -> dict string -> string -> fmt_result :=
  fun _ _ _ _ => FmtError (ValueError "compound replacement field").

(** A world in which everything works. *)
Definition calm_world : World := {|
  read_file := fun _ p => Returned ("bytes of " +:+ p);
  fal_upload := fun h _ =>
    Returned ("https://cdn.example/ref" +:+ Z_to_string (Z.of_nat (length h)));
  fal_subscribe := fun _ _ _ =>
    Returned {| images := Some [Some "https://cdn.example/out.jpg"] |};
  requests_get := fun _ _ => Returned "jpeg bytes";
  mkdir_fault := fun _ _ => None;
  write_fault := fun _ _ => None;
  clock := fun h => inject_Z (Z.of_nat (length h));
  strftime := fun _ _ => "20260101_120000";
  path_join := fun a b => a +:+ "/" +:+ b;
  path_parent := fun p => p +:+ "/..";
  path_parents := fun _ => [];
  path_with_suffix := fun p s => p +:+ s
|}.

Definition with_subscribe
  (f : list event -> string -> SynthesisRequest -> outcome ApiResponse) (w : World) : World := {|
  read_file := read_file w; fal_upload := fal_upload w; fal_subscribe := f;
  requests_get := requests_get w; mkdir_fault := mkdir_fault w;
  write_fault := write_fault w; clock := clock w; strftime := strftime w;
  path_join := path_join w; path_parent := path_parent w;
  path_parents := path_parents w; path_with_suffix := path_with_suffix w
|}.

Definition with_requests_get (f : list event -> string -> outcome string) (w : World)
  : World := {|
  read_file := read_file w; fal_upload := fal_upload w;
  fal_subscribe := fal_subscribe w;
  requests_get := f; mkdir_fault := mkdir_fault w;
  write_fault := write_fault w; clock := clock w; strftime := strftime w;
  path_join := path_join w; path_parent := path_parent w;
  path_parents := path_parents w; path_with_suffix := path_with_suffix w
|}.


(** The synthesis endpoint fails on its [n]-th call and works otherwise. *)
Definition flaky_world (n : nat) : World :=
  with_subscribe
    (fun h _ _ =>
       if Nat.eqb (S (length (List.filter is_subscribe h))) n
       then Raised (OtherError "rate limit exceeded")
       else Returned {| images := Some [Some "https://cdn.example/out.jpg"] |})
    calm_world.

(** The synthesis endpoint works but the produced image cannot be fetched. *)
Definition unreachable_cdn_world : World :=
  with_requests_get (fun _ _ => Raised (OtherError "connection reset")) calm_world.


Definition reference_disk : gset string := {[ "./reference.jpg" ]}.

(** A codec for the examples: it knows two documents by name. *)
Definition toy_dump (d : Document) : string :=
  match doc_project_name d with
  | Some _ => "farm"
  | None => "blank"
  end.

Definition toy_load (text : string) : option Document :=
  if String.eqb text "farm" then Some farm_document
  else if String.eqb text "blank" then Some empty_document
  else None.

(** A second character, and the farm after it has been added and its
    description revised. *)
Definition gus_data : CharacterData.t := {|
  CharacterData.name := Some "Gus";
  CharacterData.role := None;
  CharacterData.description := Some "a stubborn old goat";
  CharacterData.personality := None;
  CharacterData.visual_cues := None;
  CharacterData.virtues := Some ["patience"];
  CharacterData.reference_image := None;
  CharacterData.locations := None;
  CharacterData.special_function := None;
  CharacterData.appears_with_chime := None
|}.

Definition gus_revision : CharacterData.t := {|
  CharacterData.name := None;
  CharacterData.role := Some "supporting";
  CharacterData.description := Some "a patient old goat";
  CharacterData.personality := None;
  CharacterData.visual_cues := None;
  CharacterData.virtues := None;
  CharacterData.reference_image := None;
  CharacterData.locations := None;
  CharacterData.special_function := None;
  CharacterData.appears_with_chime := None
|}.

Definition farm_with_gus : ConfigManager :=
  add_character farm_config "gus_goat" gus_data.

Definition revised_farm : ConfigManager :=
  fst (update_character farm_with_gus "gus_goat" gus_revision).

(** A codec for the examples that also knows the revised farm. *)
Definition revised_dump (d : Document) : string :=
  match doc_characters d with
  | Some (_ :: _ :: _) => "revised"
  | _ => toy_dump d
  end.

Definition revised_load (text : string) : option Document :=
  if String.eqb text "revised" then Some (_raw_config revised_farm)
  else toy_load text.

(* ===================================================================== *)
(** * Facts about strings and dictionaries                                *)
(* ===================================================================== *)

(** Appending to a string that starts with a known character computes. *)
#[local] Arguments String.append !s1 s2 : simpl nomatch.

Lemma str_app_assoc (a b c : string) : (a +:+ b) +:+ c = a +:+ (b +:+ c).
Proof. induction a as [|x a IH]; simpl; [reflexivity | now rewrite IH]. Qed.

Lemma str_app_nil_r (a : string) : a +:+ "" = a.
Proof. induction a as [|x a IH]; simpl; [reflexivity | now rewrite IH]. Qed.

Lemma str_length_app (a b : string) :
  String.length (a +:+ b) = (String.length a + String.length b)%nat.
Proof. induction a as [|x a IH]; simpl; [reflexivity | now rewrite IH]. Qed.

Lemma str_app_empty (a b : string) : a +:+ b = "" -> a = "" /\ b = "".
Proof. destruct a; simpl; [auto | discriminate]. Qed.

Lemma dict_set_absent {V} (k : string) (v : V) (d : dict V) :
  dict_get k d = None -> dict_set k v d = d ++ [(k, v)].
Proof.
  induction d as [|[k' v'] d IH]; simpl; [reflexivity|].
  destruct (String.eqb k k'); [discriminate|].
  intros H. now rewrite IH.
Qed.

Lemma dict_get_In {V} (k : string) (v : V) (d : dict V) :
  dict_get k d = Some v -> In (k, v) d.
Proof.
  induction d as [|[k' v'] d IH]; simpl; [discriminate|].
  destruct (String.eqb_spec k k') as [->|_].
  - intros [= ->]. now left.
  - intros H. right. now apply IH.
Qed.

Lemma is_brace_false (c : ascii) :
  is_brace c = false -> Ascii.eqb c "{" = false /\ Ascii.eqb c "}" = false.
Proof. unfold is_brace. now intros [? ?]%orb_false_iff. Qed.

Lemma is_field_special_false (c : ascii) :
  is_field_special c = false ->
  is_brace c = false /\ Ascii.eqb c "." = false /\ Ascii.eqb c "[" = false /\
  Ascii.eqb c "!" = false /\ Ascii.eqb c ":" = false /\ beyond_ascii c = false.
Proof.
  unfold is_field_special.
  intros [[[[[? ?]%orb_false_iff ?]%orb_false_iff ?]%orb_false_iff
             ?]%orb_false_iff ?]%orb_false_iff.
  auto 7.
Qed.

Lemma str_forallb_weaken (p q : ascii -> bool) (s : string) :
  (forall c, p c = true -> q c = true) ->
  str_forallb p s = true -> str_forallb q s = true.
Proof.
  intros Hpq. induction s as [|c s IH]; simpl; [auto|].
  intros [Hc Hs]%andb_true_iff. rewrite (Hpq _ Hc). now apply IH.
Qed.

Lemma field_name_ok_brace_free (n : string) :
  field_name_ok n = true -> brace_free n = true.
Proof.
  unfold field_name_ok, brace_free.
  intros [[_ H]%andb_true_iff _]%andb_true_iff.
  revert H. apply str_forallb_weaken.
  intros c Hc. apply negb_true_iff in Hc.
  apply is_field_special_false in Hc as [Hb _]. now rewrite Hb.
Qed.

Lemma simple_is_placeholder (segs : list segment) :
  simple_template segs = true -> forallb placeholder_segment segs = true.
Proof.
  unfold simple_template. induction segs as [|g gs IH]; simpl; [auto|].
  intros [Hg Hgs]%andb_true_iff. rewrite (IH Hgs), andb_true_r.
  destruct g; simpl in *; [assumption | now apply field_name_ok_brace_free].
Qed.

(* ===================================================================== *)
(** * [str.format] on simple templates                                    *)
(* ===================================================================== *)

Section FormatFacts.

Variable fb : string -> string -> dict string -> string -> fmt_result.
Variable kw : dict string.

Lemma scan_text (t rest out : string) :
  brace_free t = true ->
  format_scan fb kw InText (t +:+ rest) out = format_scan fb kw InText rest (out +:+ t).
Proof.
  revert out. induction t as [|c t IH]; intros out; simpl.
  - now rewrite str_app_nil_r.
  - intros [Hc Ht]%andb_true_iff. apply negb_true_iff, is_brace_false in Hc as [Ho Hcl].
    rewrite Ho, Hcl, (IH _ Ht). unfold snoc. now rewrite str_app_assoc.
Qed.

Lemma scan_name (n acc rest out : string) :
  str_forallb (fun c => negb (is_field_special c)) n = true ->
  format_scan fb kw (InField acc) (n +:+ rest) out
  = format_scan fb kw (InField (acc +:+ n)) rest out.
Proof.
  revert acc. induction n as [|c n IH]; intros acc; simpl.
  - now rewrite str_app_nil_r.
  - intros [Hc Hn]%andb_true_iff.
    apply negb_true_iff, is_field_special_false in Hc as (Hb & H1 & H2 & H3 & H4 & H5).
    apply is_brace_false in Hb as [Ho Hcl].
    rewrite Ho, Hcl, H1, H2, H3, H4, H5. simpl.
    rewrite (IH _ Hn). unfold snoc. now rewrite str_app_assoc.
Qed.

Lemma scan_close (n rest out : string) :
  n <> "" -> all_digits n = false ->
  format_scan fb kw (InField n) (String "}" rest) out
  = match dict_get n kw with
    | Some v => format_scan fb kw InText rest (out +:+ v)
    | None => FmtKeyError n
    end.
Proof.
  intros Hne Hd. simpl. destruct n as [|c n]; [congruence|]. now rewrite Hd.
Qed.

Lemma field_name_ok_inv (n : string) :
  field_name_ok n = true ->
  n <> "" /\ str_forallb (fun c => negb (is_field_special c)) n = true /\
  all_digits n = false.
Proof.
  unfold field_name_ok. intros [[H1 H2]%andb_true_iff H3]%andb_true_iff.
  split; [|split]; [|assumption|now apply negb_true_iff].
  intros ->. discriminate.
Qed.

Lemma scan_field (n rest out : string) :
  field_name_ok n = true ->
  format_scan fb kw InText (render_segment (Field n) +:+ rest) out
  = match dict_get n kw with
    | Some v => format_scan fb kw InText rest (out +:+ v)
    | None => FmtKeyError n
    end.
Proof.
  intros Hok. destruct (field_name_ok_inv n Hok) as (Hne & Hall & Hd).
  rewrite <- (scan_close n rest out Hne Hd).
  destruct n as [|c n]; [congruence|].
  change (render_segment (Field (String c n)) +:+ rest)
    with (String "{" (String c ((n +:+ "}") +:+ rest))).
  rewrite str_app_assoc. change ("}" +:+ rest) with (String "}" rest).
  simpl in Hall. apply andb_true_iff in Hall as [Hc Hn].
  apply negb_true_iff, is_field_special_false in Hc as (Hb & H1 & H2 & H3 & H4 & H5).
  apply is_brace_false in Hb as [Ho Hcl].
  transitivity (format_scan fb kw (InField (String c "")) (n +:+ String "}" rest) out).
  - simpl. rewrite Ho, Hcl, H1, H2, H3, H4, H5. reflexivity.
  - now rewrite (scan_name n _ _ _ Hn).
Qed.

Lemma format_simple (segs : list segment) (out : string) :
  simple_template segs = true ->
  format_scan fb kw InText (render segs) out
  = match unmatched kw segs with
    | [] => FmtOk (out +:+ expected_prompt kw segs)
    | n :: _ => FmtKeyError n
    end.
Proof.
  unfold simple_template, expected_prompt.
  revert out. induction segs as [|g gs IH]; intros out; simpl.
  - intros _. now rewrite str_app_nil_r.
  - intros [Hg Hgs]%andb_true_iff. destruct g as [t|n]; simpl in Hg.
    + simpl render_segment. rewrite (scan_text _ _ _ Hg), (IH _ Hgs). simpl.
      destruct (unmatched kw gs); [|reflexivity]. now rewrite str_app_assoc.
    + rewrite (scan_field _ _ _ Hg). unfold dict_in.
      destruct (dict_get n kw) as [v|] eqn:Hv; simpl; rewrite ?Hv; [|reflexivity].
      rewrite (IH _ Hgs). destruct (unmatched kw gs); [|reflexivity].
      simpl. now rewrite str_app_assoc.
Qed.

End FormatFacts.

(* ===================================================================== *)
(** * [str.replace] on templates                                          *)
(* ===================================================================== *)

Section ReplaceFacts.

Variable k v : string.
Hypothesis k_plain : brace_free k = true.

Let old : string := "{" +:+ k +:+ "}".

Lemma replace_from_0 (new : string) (c : ascii) (s : string) :
  replace_from old new 0 (String c s)
  = if String.prefix old (String c s)
    then new +:+ replace_from old new (String.length old - 1) s
    else String c (replace_from old new 0 s).
Proof. reflexivity. Qed.

Lemma prefix_cons (a b : ascii) (s1 s2 : string) :
  String.prefix (String a s1) (String b s2)
  = if ascii_dec a b then String.prefix s1 s2 else false.
Proof. reflexivity. Qed.

Lemma prefix_nil (s : string) : String.prefix "" s = true.
Proof. now destruct s. Qed.

Lemma prefix_old_other (c : ascii) (s : string) :
  Ascii.eqb c "{" = false -> String.prefix old (String c s) = false.
Proof.
  intros Hc. change old with (String "{" (k +:+ "}")). rewrite prefix_cons.
  destruct (ascii_dec "{" c) as [<-|_]; [discriminate | reflexivity].
Qed.

Lemma replace_text (t rest : string) :
  brace_free t = true ->
  replace_from old v 0 (t +:+ rest) = t +:+ replace_from old v 0 rest.
Proof.
  induction t as [|c t IH]; [reflexivity|].
  intros [Hc Ht]%andb_true_iff. apply negb_true_iff, is_brace_false in Hc as [Ho _].
  change (String c t +:+ rest) with (String c (t +:+ rest)).
  rewrite replace_from_0, (prefix_old_other _ _ Ho), (IH Ht). reflexivity.
Qed.

Lemma replace_skip (u rest new : string) :
  replace_from old new (String.length u) (u +:+ rest) = replace_from old new 0 rest.
Proof.
  induction u as [|c u IH]; [|exact IH].
  change ("" +:+ rest) with rest. now destruct rest.
Qed.

Lemma prefix_name (n rest : string) :
  brace_free n = true ->
  String.prefix (k +:+ "}") (n +:+ String "}" rest) = String.eqb n k.
Proof.
  revert k_plain. clear old. revert n.
  induction k as [|a k' IH]; intros n Hk Hn.
  - change ("" +:+ "}") with (String "}" "").
    destruct n as [|b n].
    + change ("" +:+ String "}" rest) with (String "}" rest).
      rewrite prefix_cons, prefix_nil.
      destruct (ascii_dec "}" "}"); [reflexivity | congruence].
    + change (String b n +:+ String "}" rest) with (String b (n +:+ String "}" rest)).
      rewrite prefix_cons.
      apply andb_true_iff in Hn as [Hb _].
      apply negb_true_iff, is_brace_false in Hb as [_ Hb].
      destruct (ascii_dec "}" b) as [<-|_]; [discriminate | reflexivity].
  - apply andb_true_iff in Hk as [Ha Hk].
    apply negb_true_iff, is_brace_false in Ha as [_ Ha].
    change (String a k' +:+ "}") with (String a (k' +:+ "}")).
    destruct n as [|b n].
    + change ("" +:+ String "}" rest) with (String "}" rest).
      rewrite prefix_cons.
      destruct (ascii_dec a "}") as [->|_]; [discriminate | reflexivity].
    + change (String b n +:+ String "}" rest) with (String b (n +:+ String "}" rest)).
      rewrite prefix_cons.
      apply andb_true_iff in Hn as [_ Hn].
      change (String.eqb (String b n) (String a k'))
        with (Ascii.eqb b a && String.eqb n k').
      destruct (ascii_dec a b) as [->|Hab].
      * rewrite Ascii.eqb_refl. now apply IH.
      * destruct (Ascii.eqb_spec b a) as [->|_]; [congruence | reflexivity].
Qed.

Lemma replace_field (n rest : string) :
  brace_free n = true ->
  replace_from old v 0 (render_segment (Field n) +:+ rest)
  = if String.eqb n k then v +:+ replace_from old v 0 rest
    else render_segment (Field n) +:+ replace_from old v 0 rest.
Proof.
  intros Hn.
  change (render_segment (Field n) +:+ rest) with (String "{" ((n +:+ "}") +:+ rest)).
  rewrite str_app_assoc. change ("}" +:+ rest) with (String "}" rest).
  rewrite replace_from_0.
  replace (String.prefix old (String "{" (n +:+ String "}" rest)))
    with (String.eqb n k).
  2:{ change old with (String "{" (k +:+ "}")). rewrite prefix_cons.
      destruct (ascii_dec "{" "{") as [_|Hne]; [|congruence].
      symmetry. now apply prefix_name. }
  destruct (String.eqb_spec n k) as [->|Hnk].
  - f_equal. change old with (String "{" (k +:+ "}")).
    change (String.length (String "{" (k +:+ "}")) - 1)%nat
      with (String.length (k +:+ "}") - 0)%nat.
    rewrite Nat.sub_0_r.
    change (k +:+ String "}" rest) with (k +:+ ("}" +:+ rest)).
    rewrite <- str_app_assoc. apply replace_skip.
  - change (render_segment (Field n) +:+ replace_from old v 0 rest)
      with (String "{" ((n +:+ "}") +:+ replace_from old v 0 rest)).
    f_equal. rewrite (replace_text n _ Hn), str_app_assoc. reflexivity.
Qed.

Lemma replace_render (segs : list segment) :
  forallb placeholder_segment segs = true ->
  str_replace old v (render segs) = render (map (replace_segment k v) segs).
Proof.
  change (str_replace old v (render segs)) with (replace_from old v 0 (render segs)).
  induction segs as [|g gs IH]; [reflexivity|]. simpl.
  intros [Hg Hgs]%andb_true_iff. destruct g as [t|n]; simpl in Hg.
  - simpl render_segment. now rewrite (replace_text _ _ Hg), (IH Hgs).
  - rewrite (replace_field _ _ Hg), (IH Hgs). unfold replace_segment.
    destruct (String.eqb n k); reflexivity.
Qed.

End ReplaceFacts.

Lemma substitute_nil (segs : list segment) : map (substitute []) segs = segs.
Proof.
  induction segs as [|g gs IH]; simpl; [reflexivity|]. rewrite IH. now destruct g.
Qed.

Lemma partial_format_render (kw : dict string) (segs : list segment) :
  forallb placeholder_segment segs = true ->
  marker_free kw = true ->
  partial_format (render segs) kw = expected_prompt kw segs.
Proof.
  unfold partial_format, expected_prompt, marker_free.
  revert segs. induction kw as [|[k v] kw IH]; intros segs Hsegs Hkw;
    cbn [fold_left fst snd].
  - now rewrite substitute_nil.
  - simpl in Hkw. apply andb_true_iff in Hkw as [[Hk Hv]%andb_true_iff Hkw].
    rewrite (replace_render k v Hk segs Hsegs), IH; [|clear IH|assumption].
    + f_equal. rewrite map_map. apply map_ext. intros [t|n]; simpl; [reflexivity|].
      destruct (String.eqb n k); reflexivity.
    + induction segs as [|g gs IHs]; simpl in *; [reflexivity|].
      apply andb_true_iff in Hsegs as [Hg Hgs]. rewrite (IHs Hgs), andb_true_r.
      destruct g as [t|n]; simpl in *; [assumption|].
      now destruct (String.eqb n k).
Qed.

Lemma render_empty (vars : dict string) (segs : list segment) :
  render segs = "" -> expected_prompt vars segs = "".
Proof.
  unfold expected_prompt. induction segs as [|g gs IH]; simpl; [reflexivity|].
  intros [Hg Hgs]%str_app_empty. destruct g as [t|n]; simpl in *; [|discriminate].
  subst t. simpl. now apply IH.
Qed.

Lemma effective_kwargs (cm : ConfigManager) (kwargs : dict string) :
  (if dict_in "style_prompt" kwargs then kwargs
   else dict_set "style_prompt" (active_style_prompt cm) kwargs)
  = supplied cm kwargs.
Proof.
  unfold dict_in, supplied.
  destruct (dict_get "style_prompt" kwargs) eqn:H; [reflexivity|].
  now apply dict_set_absent.
Qed.


(* ===================================================================== *)
(** * The prompt builder                                                  *)
(* ===================================================================== *)

(** On a simple template [build_prompt] returns: either [str.format]
    succeeds, or it raises the [KeyError] that the fallback handles. *)
Lemma build_prompt_simple_returns fb cm tn kwargs segs :
  get_prompt_template cm tn = render segs ->
  simple_template segs = true ->
  build_prompt fb cm tn kwargs
  = Returned (if str_is_empty (render segs) then ""
              else match unmatched (supplied cm kwargs) segs with
                   | [] => expected_prompt (supplied cm kwargs) segs
                   | _ :: _ => partial_format (render segs) (supplied cm kwargs)
                   end).
Proof.
  intros Ht Hs. unfold build_prompt. rewrite Ht, effective_kwargs.
  destruct (str_is_empty (render segs)); [reflexivity|].
  unfold str_format. rewrite (format_simple fb _ segs "" Hs).
  now destruct (unmatched (supplied cm kwargs) segs).
Qed.


(** On a simple template, with every placeholder supplied or with
    brace-free variables, the prompt is the template after substitution. *)
Lemma build_prompt_expected fb cm tn kwargs segs :
  get_prompt_template cm tn = render segs ->
  simple_template segs = true ->
  unmatched (supplied cm kwargs) segs = [] \/ marker_free (supplied cm kwargs) = true ->
  build_prompt fb cm tn kwargs = Returned (expected_prompt (supplied cm kwargs) segs).
Proof.
  intros Ht Hs Hcase.
  rewrite (build_prompt_simple_returns fb cm tn kwargs segs Ht Hs). f_equal.
  destruct (str_is_empty (render segs)) eqn:He.
  - symmetry. apply render_empty. now destruct (render segs).
  - destruct (unmatched (supplied cm kwargs) segs) eqn:Hu; [reflexivity|].
    destruct Hcase as [Hnone|Hfree]; [discriminate|].
    apply partial_format_render; [now apply simple_is_placeholder | exact Hfree].
Qed.




(** C10: with a template name that is not in the template mapping,
    [build_prompt] returns the empty string, whatever the variables. *)
Theorem build_prompt_unknown_template fb cm tn kwargs :
  dict_get tn (_prompt_templates cm) = None ->
  build_prompt fb cm tn kwargs = Returned "".
Proof.
  intros H. unfold build_prompt, get_prompt_template. now rewrite H.
Qed.

Lemma build_prompt_unknown_template_witness :
  dict_get "poster" (_prompt_templates farm_config) = None /\
  build_prompt no_beyond farm_config "poster" [("title", "Courage")] = Returned "".
Proof.
  split; [reflexivity|].
  apply (build_prompt_unknown_template no_beyond farm_config "poster"). reflexivity.
Defined.

(* ===================================================================== *)
(** * The entity store                                                    *)
(* ===================================================================== *)

(** C7: [set_active_style] returns true and points the active style at the
    given id when the id names a preset, leaving every preset as it was;
    otherwise it returns false and leaves the whole state untouched. *)
Theorem set_active_style_spec cm style :
  let r := set_active_style cm style in
  if dict_in style (style_presets cm)
  then snd r = true /\
       active_style (fst r) = style /\
       style_presets (fst r) = style_presets cm /\
       doc_style_presets (_raw_config (fst r)) = doc_style_presets (_raw_config cm) /\
       (forall s, get_style_prompt (fst r) s = get_style_prompt cm s) /\
       _characters (fst r) = _characters cm /\
       _locations (fst r) = _locations cm /\
       _books (fst r) = _books cm /\
       _prompt_templates (fst r) = _prompt_templates cm
  else snd r = false /\ fst r = cm.
Proof.
  unfold set_active_style, style_presets.
  destruct (dict_in style (_style_presets cm)); simpl; repeat split; intros; reflexivity.
Qed.

Lemma set_active_style_witness :
  (snd (set_active_style farm_config "watercolor") = true /\
   active_style (fst (set_active_style farm_config "watercolor")) = "watercolor" /\
   style_presets (fst (set_active_style farm_config "watercolor"))
   = style_presets farm_config) /\
  (snd (set_active_style farm_config "oil") = false /\
   fst (set_active_style farm_config "oil") = farm_config).
Proof.
  split.
  - pose proof (set_active_style_spec farm_config "watercolor") as H.
    cbv zeta in H.
    change (dict_in "watercolor" (style_presets farm_config)) with true in H.
    cbv iota in H. destruct H as (H1 & H2 & H3 & _). auto.
  - pose proof (set_active_style_spec farm_config "oil") as H.
    cbv zeta in H.
    change (dict_in "oil" (style_presets farm_config)) with false in H.
    exact H.
Defined.

(* ===================================================================== *)
(** * The selection of scenes under a page range                          *)
(* ===================================================================== *)

(** The selection under a page range keeps the scenes whose page number
    lies between the two bounds, both included, in the order of the book;
    pages 1, 2, 3, 5, 8 under the range (2, 5) give pages 2, 3, 5. *)
Lemma select_scenes_inclusive :
  (forall scenes lo hi s,
     In s (select_scenes (Some (lo, hi)) scenes)
     <-> In s scenes /\ (lo <= get_or (page s) 0 <= hi)%Z) /\
  (forall scenes lo hi,
     select_scenes (Some (lo, hi)) scenes
     = List.filter (fun s => (lo <=? get_or (page s) 0)%Z && (get_or (page s) 0 <=? hi)%Z)
                   scenes) /\
  map page (select_scenes (Some (2, 5)%Z)
              (map (fun p => scene_on_page p "") [1; 2; 3; 5; 8]%Z))
  = [Some 2; Some 3; Some 5]%Z.
Proof.
  split; [|split; [reflexivity | reflexivity]].
  intros scenes lo hi s. unfold select_scenes. rewrite filter_In.
  unfold page_in_range. simpl. rewrite andb_true_iff, !Z.leb_le. tauto.
Qed.

(* ===================================================================== *)
(** * Saving and reloading the configuration                              *)
(* ===================================================================== *)

Section StoreFacts.

Variable json_load : string -> option Document.
Variable json_dump : Document -> string.
Variable writable : string -> bool.

Lemma load_inv cm path files cm' :
  load json_load cm path files = Returned cm' ->
  exists text raw,
    files !! resolve_path cm path = Some text /\
    json_load text = Some raw /\
    cm' = _parse_config (config_path cm) raw.
Proof.
  unfold load.
  destruct (files !! resolve_path cm path) as [text|] eqn:Hf; [|discriminate].
  destruct (json_load text) as [raw|] eqn:Hj; [|discriminate].
  intros [= <-]. now exists text, raw.
Qed.

(** C8: load, then save, then load again (from the file that was read or
    from the file that was written) gives a store with the same typed
    contents: the same characters, locations, books, style presets, prompt
    templates, image settings and active style.  What [json.load] makes of
    [json.dump] is the document itself: that is the codec's law, used for
    the document at hand. *)
Theorem load_save_load cm0 a b c files cm1 files' :
  load json_load cm0 a files = Returned cm1 ->
  json_load (json_dump (_raw_config cm1)) = Some (_raw_config cm1) ->
  save json_dump writable cm1 b files = Returned files' ->
  resolve_path cm1 c = resolve_path cm0 a \/ resolve_path cm1 c = resolve_path cm1 b ->
  exists cm2,
    load json_load cm1 c files' = Returned cm2 /\
    _characters cm2 = _characters cm1 /\
    _locations cm2 = _locations cm1 /\
    _books cm2 = _books cm1 /\
    _style_presets cm2 = _style_presets cm1 /\
    _prompt_templates cm2 = _prompt_templates cm1 /\
    _image_settings cm2 = _image_settings cm1 /\
    active_style cm2 = active_style cm1 /\
    _raw_config cm2 = _raw_config cm1.
Proof.
  intros Hload Hcodec Hsave Hpath.
  apply load_inv in Hload as (text & raw & Hfile & Htext & ->).
  simpl in Hcodec.
  unfold save in Hsave.
  destruct (writable (resolve_path (_parse_config (config_path cm0) raw) b));
    [|discriminate].
  injection Hsave as <-.
  exists (_parse_config (config_path cm0) raw).
  split; [|repeat split].
  unfold load. simpl _raw_config.
  set (cm1 := _parse_config (config_path cm0) raw) in *.
  destruct (decide (resolve_path cm1 c = resolve_path cm1 b)) as [Heq|Hne].
  - rewrite Heq, lookup_insert_eq, Hcodec. reflexivity.
  - destruct Hpath as [Hpa|Hpb]; [|contradiction].
    rewrite lookup_insert_ne by congruence.
    rewrite Hpa, Hfile, Htext. reflexivity.
Qed.

End StoreFacts.

Lemma load_save_load_witness :
  let files : gmap string string := {[ DEFAULT_CONFIG_PATH := "farm" ]} in
  let everywhere := fun _ : string => true in
  load toy_load (blank_config None) None files = Returned farm_config /\
  toy_load (toy_dump (_raw_config farm_config)) = Some (_raw_config farm_config) /\
  save toy_dump everywhere farm_config (Some "./backup.json") files
  = Returned (<[ "./backup.json" := "farm" ]> files) /\
  exists cm2,
    load toy_load farm_config (Some "./backup.json")
      (<[ "./backup.json" := "farm" ]> files) = Returned cm2 /\
    _characters cm2 = _characters farm_config /\
    _books cm2 = _books farm_config.
Proof.
  intros files everywhere.
  assert (H1 : load toy_load (blank_config None) None files = Returned farm_config)
    by reflexivity.
  assert (H2 : toy_load (toy_dump (_raw_config farm_config))
               = Some (_raw_config farm_config)) by reflexivity.
  assert (H3 : save toy_dump everywhere farm_config (Some "./backup.json") files
               = Returned (<[ "./backup.json" := "farm" ]> files)) by reflexivity.
  split; [exact H1|]. split; [exact H2|]. split; [exact H3|].
  destruct (load_save_load toy_load toy_dump everywhere (blank_config None)
              None (Some "./backup.json") (Some "./backup.json") files
              farm_config _ H1 H2 H3 (or_intror eq_refl))
    as (cm2 & Hl & Hc & _ & Hb & _).
  exists cm2. auto.
Defined.

(* ===================================================================== *)
(** * Engine computations                                                 *)
(* ===================================================================== *)

Lemma bind_returned {A B} (m : M A) (k : A -> M B) st a st1 :
  m st = (Returned a, st1) -> bind m k st = k a st1.
Proof. unfold bind. now intros ->. Qed.

Lemma bind_raised {A B} (m : M A) (k : A -> M B) st e st1 :
  m st = (Raised e, st1) -> bind m k st = (Raised e, st1).
Proof. unfold bind. now intros ->. Qed.

Lemma bind_inv {A B} (m : M A) (k : A -> M B) st b st' :
  bind m k st = (Returned b, st') ->
  exists a st1, m st = (Returned a, st1) /\ k a st1 = (Returned b, st').
Proof.
  unfold bind. destruct (m st) as [[a|e] st1]; [|discriminate].
  intros H. now exists a, st1.
Qed.

(** A guarded attempt always returns: its own result, or the failure that
    records the exception. *)
Lemma try_capture (m : M GenerationResult) (prompt : string) st :
  try_except m (capture prompt) st
  = match m st with
    | (Returned r, st') => (Returned r, st')
    | (Raised e, st') => (Returned (failed_result (exn_str e) prompt), st')
    end.
Proof. reflexivity. Qed.

Lemma failed_result_flagged err prompt : well_flagged (failed_result err prompt).
Proof. right. split; [reflexivity | now exists err]. Qed.

(** ** Keeping a property of the state *)

Lemma preserves_ret {A} I (a : A) : preserves I (ret a).
Proof. now intros st. Qed.

Lemma preserves_raise {A} I e : preserves I (@raise A e).
Proof. now intros st. Qed.

Lemma preserves_lift {A} I (o : outcome A) : preserves I (lift o).
Proof. now intros st. Qed.

Lemma preserves_bind {A B} I (m : M A) (k : A -> M B) :
  preserves I m -> (forall a, preserves I (k a)) -> preserves I (bind m k).
Proof.
  intros Hm Hk st Hst. unfold bind. specialize (Hm st Hst).
  destruct (m st) as [[a|e] st1]; simpl in *; [now apply Hk | assumption].
Qed.

Lemma preserves_try {A} I (m : M A) (h : exn -> M A) :
  preserves I m -> (forall e, preserves I (h e)) -> preserves I (try_except m h).
Proof.
  intros Hm Hh st Hst. unfold try_except. specialize (Hm st Hst).
  destruct (m st) as [[a|e] st1]; simpl in *; [assumption | now apply Hh].
Qed.

Lemma preserves_for_enumerate {A B} I (body : nat -> A -> M B) (l : list A) :
  (forall i x, preserves I (body i x)) ->
  forall i, preserves I (for_enumerate body i l).
Proof.
  intros Hbody. induction l as [|x xs IH]; intros i; simpl.
  - apply preserves_ret.
  - apply preserves_bind; [apply Hbody|]. intros r.
    apply preserves_bind; [apply IH|]. intros rs. apply preserves_ret.
Qed.

(** ** While no file is removed, the cache only holds paths that exist *)

Lemma cache_sound_fresh disk : cache_sound (fresh_engine disk).
Proof. intros p url H. simpl in H. now rewrite lookup_empty in H. Qed.

Lemma cache_sound_log e st : cache_sound st -> cache_sound (log e st).
Proof. intros H p url. apply H. Qed.

Lemma cache_sound_create ps st : cache_sound st -> cache_sound (create ps st).
Proof.
  intros H p url Hp. simpl. apply elem_of_union_r. now apply (H p url).
Qed.

Section EngineFacts.

Variable fb : string -> string -> dict string -> string -> fmt_result.
Variable w : World.
Variable cm : ConfigManager.
Variable s2d : bool.

Lemma sound_now : preserves cache_sound (now w).
Proof. now intros st. Qed.

Lemma sound_timestamp fmt : preserves cache_sound (timestamp w fmt).
Proof. now intros st. Qed.

Lemma sound_subscribe model args : preserves cache_sound (subscribe w model args).
Proof. intros st H. now apply cache_sound_log. Qed.

Lemma sound_download url : preserves cache_sound (download w url).
Proof. intros st H. now apply cache_sound_log. Qed.

Lemma sound_sleep d : preserves cache_sound (sleep d).
Proof.
  intros st H. unfold sleep. destruct (Qle_bool 0 d); simpl; [|assumption].
  now apply cache_sound_log.
Qed.

Lemma sound_mkdir path : preserves cache_sound (mkdir w path).
Proof.
  intros st H. unfold mkdir. destruct (mkdir_fault w (events st) path); simpl;
    [assumption|]. now apply cache_sound_log, cache_sound_create.
Qed.

Lemma sound_write path data : preserves cache_sound (write w path data).
Proof.
  intros st H. unfold write. destruct (write_fault w (events st) path); simpl;
    [assumption|]. now apply cache_sound_log, cache_sound_create.
Qed.

(** What [_upload_image] does, case by case. *)
Lemma upload_image_cases (p : string) (force : bool) (st : EngineState) :
  _upload_image w p force st
  = if startswith p "http" then (Returned p, st)
    else match (if force then None else _uploaded_images st !! p) with
         | Some url => (Returned url, st)
         | None =>
             if bool_decide (p ∈ files st) then
               match read_file w (events st) p with
               | Raised e => (Raised e, st)
               | Returned data =>
                   match fal_upload w (events st) data with
                   | Raised e => (Raised e, log (EvUpload data) st)
                   | Returned url =>
                       (Returned url,
                        {| _uploaded_images := <[p := url]> (_uploaded_images st);
                           files := files st;
                           events := events st ++ [EvUpload data] |})
                   end
               end
             else (Raised (FileNotFoundError ("Image not found: " +:+ p)), st)
         end.
Proof.
  unfold _upload_image. destruct (startswith p "http"); [reflexivity|].
  unfold bind, cache_lookup, path_exists, read, upload, cache_store, ret, raise.
  destruct force; simpl.
  - destruct (bool_decide (p ∈ files st)); simpl; [|reflexivity].
    destruct (read_file w (events st) p); [|reflexivity].
    destruct (fal_upload w (events st) a); reflexivity.
  - destruct (_uploaded_images st !! p); [reflexivity|].
    destruct (bool_decide (p ∈ files st)); simpl; [|reflexivity].
    destruct (read_file w (events st) p); [|reflexivity].
    destruct (fal_upload w (events st) a); reflexivity.
Qed.

Lemma sound_upload_image p force : preserves cache_sound (_upload_image w p force).
Proof.
  intros st H. rewrite upload_image_cases.
  destruct (startswith p "http"); [assumption|].
  destruct (if force then None else _uploaded_images st !! p); [assumption|].
  destruct (bool_decide (p ∈ files st)) eqn:Hp; [|assumption].
  apply bool_decide_eq_true in Hp.
  destruct (read_file w (events st) p) as [data|e]; [|assumption].
  destruct (fal_upload w (events st) data) as [url|e]; simpl.
  - intros q u Hq. simpl in *.
    destruct (decide (p = q)) as [<-|Hne]; [assumption|].
    rewrite lookup_insert_ne in Hq by assumption. now apply (H q u).
  - now apply cache_sound_log.
Qed.

(** Every step of the engine is built from the steps above. *)
Ltac sound :=
  repeat first
    [ apply preserves_ret | apply preserves_raise | apply preserves_lift
    | apply sound_now | apply sound_timestamp | apply sound_subscribe
    | apply sound_download | apply sound_sleep | apply sound_mkdir
    | apply sound_write | apply sound_upload_image
    | progress unfold first_image_url, optional_reference, jpg_name
    | match goal with
      | |- preserves _ (match ?x with _ => _ end) => destruct x
      end
    | apply preserves_for_enumerate; intros ? ?
    | apply preserves_bind; [|intros ?]
    | apply preserves_try; [|intros ?] ].

Lemma sound_hero cid ref loc custom out :
  preserves cache_sound (generate_hero_shot fb w cm s2d cid ref loc custom out).
Proof. sound. Qed.

Lemma sound_group ids ref loc custom out :
  preserves cache_sound (generate_group_shot fb w cm s2d ids ref loc custom out).
Proof. sound. Qed.

Lemma sound_scene sp ids ref loc out notes :
  preserves cache_sound (generate_scene fb w cm s2d sp ids ref loc out notes).
Proof. sound. Qed.

Lemma sound_cover bid ref custom out :
  preserves cache_sound (generate_cover fb w cm s2d bid ref custom out).
Proof. sound. Qed.

Lemma sound_all_heroes ref ids :
  preserves cache_sound (generate_all_hero_shots fb w cm s2d ref ids).
Proof. unfold generate_all_hero_shots. sound. Qed.

Lemma sound_book bid ref cover range :
  preserves cache_sound (generate_book fb w cm s2d bid ref cover range).
Proof. unfold generate_book. sound. Qed.

(** The invariant of an engine instance whose disk is left to it. *)
Lemma engine_state_sound st : engine_state fb w cm s2d st -> cache_sound st.
Proof.
  induction 1.
  - apply cache_sound_fresh.
  - now apply sound_upload_image.
  - now apply sound_hero.
  - now apply sound_all_heroes.
  - now apply sound_group.
  - now apply sound_scene.
  - now apply sound_cover.
  - now apply sound_book.
Qed.

End EngineFacts.

(* ===================================================================== *)
(** * The reference resolver                                              *)
(* ===================================================================== *)





(* ===================================================================== *)
(** * The four generation operations                                      *)
(* ===================================================================== *)


Section Operations.

Variable fb : string -> string -> dict string -> string -> fmt_result.
Variable w : World.
Variable cm : ConfigManager.
Variable s2d : bool.

(** A result that [finish] returns reports success. *)
Lemma finish_inv start prompt ref_url persist meta st r st' :
  finish w cm s2d start prompt ref_url persist meta st = (Returned r, st') ->
  success r = true /\ error r = None /\ prompt_used r = prompt /\
  cost r = cost_per_image cm /\ metadata r = meta.
Proof.
  unfold finish. intros H.
  apply bind_inv in H as (resp & s1 & _ & H).
  apply bind_inv in H as (url & s2 & _ & H).
  apply bind_inv in H as (t & s3 & _ & H).
  apply bind_inv in H as (saved & s4 & _ & H).
  injection H as <- _. repeat split.
Qed.

(** A guarded attempt that ends in [finish] returns a well-flagged result
    and keeps the prompt; when the attempt raises, the result is the
    failure that carries the text of the exception. *)
Lemma guarded_returns (attempt : M GenerationResult) prompt st :
  (forall r s1, attempt st = (Returned r, s1) ->
     success r = true /\ error r = None /\ prompt_used r = prompt) ->
  exists r st',
    try_except attempt (capture prompt) st = (Returned r, st') /\
    well_flagged r /\
    prompt_used r = prompt /\
    (forall e s1, attempt st = (Raised e, s1) -> r = failed_result (exn_str e) prompt).
Proof.
  intros Hok. rewrite try_capture.
  destruct (attempt st) as [[r|e] s1] eqn:Ha.
  - destruct (Hok r s1 eq_refl) as (Hs & He & Hp).
    exists r, s1. repeat split; [now left | assumption | discriminate].
  - exists (failed_result (exn_str e) prompt), s1.
    repeat split; [apply failed_result_flagged|]. now intros e' s' [= <- _].
Qed.

Lemma attempt_inv {A} (resolve : M A) start prompt (ref : A -> option string)
  persist meta st r s1 :
  bind resolve (fun u => finish w cm s2d start prompt (ref u) persist meta) st
  = (Returned r, s1) ->
  success r = true /\ error r = None /\ prompt_used r = prompt.
Proof.
  intros H. apply bind_inv in H as (u & s0 & _ & H).
  apply finish_inv in H as (? & ? & ? & _). auto.
Qed.


Lemma group_prompt_returns chars loc custom :
  prompts_never_raise fb cm -> exists p, group_prompt fb cm chars loc custom = Returned p.
Proof. intros Hok. unfold group_prompt. destruct (truthy custom); [eauto | apply Hok]. Qed.



Lemma hero_shot_returns cid ref loc custom out st :
  (forall c, get_character cm cid = Some c ->
             exists p, hero_prompt fb cm c loc custom = Returned p) ->
  exists r st',
    generate_hero_shot fb w cm s2d cid ref loc custom out st = (Returned r, st') /\
    well_flagged r /\
    (get_character cm cid = None ->
     r = failed_result ("Character not found: " +:+ cid) "") /\
    (forall c p e s1,
       get_character cm cid = Some c ->
       hero_prompt fb cm c loc custom = Returned p ->
       hero_attempt w cm s2d (clock w (events st)) p cid c ref out st = (Raised e, s1) ->
       r = failed_result (exn_str e) p).
Proof.
  intros Hprompt. unfold generate_hero_shot, bind at 1, now.
  destruct (get_character cm cid) as [c|] eqn:Hc.
  - destruct (Hprompt c eq_refl) as [p Hp].
    rewrite Hp. unfold bind at 1, lift.
    destruct (guarded_returns
                (hero_attempt w cm s2d (clock w (events st)) p cid c ref out) p st)
      as (r & st' & Hrun & Hflag & _ & Hcap).
    { intros r s1. apply attempt_inv. }
    exists r, st'.
    split; [exact Hrun|]. split; [exact Hflag|]. split; [discriminate|].
    intros c' p' e s1 [= <-] Hp'. rewrite Hp in Hp'. injection Hp' as <-. apply Hcap.
  - eexists _, _.
    split; [reflexivity|]. split; [apply failed_result_flagged|].
    split; [reflexivity | discriminate].
Qed.

Lemma group_shot_returns ids ref loc custom out st :
  (resolve_characters cm ids <> [] ->
   exists p, group_prompt fb cm (resolve_characters cm ids) loc custom = Returned p) ->
  exists r st',
    generate_group_shot fb w cm s2d ids ref loc custom out st = (Returned r, st') /\
    well_flagged r /\
    (resolve_characters cm ids = [] -> r = failed_result "No valid characters found" "") /\
    (forall p e s1,
       group_prompt fb cm (resolve_characters cm ids) loc custom = Returned p ->
       group_attempt w cm s2d (clock w (events st)) p ids (resolve_characters cm ids)
         ref out st = (Raised e, s1) ->
       resolve_characters cm ids <> [] ->
       r = failed_result (exn_str e) p).
Proof.
  intros Hprompt. unfold generate_group_shot, bind at 1, now.
  destruct (resolve_characters cm ids) as [|c cs] eqn:Hc.
  - eexists _, _.
    split; [reflexivity|]. split; [apply failed_result_flagged|].
    split; [reflexivity | congruence].
  - destruct Hprompt as [p Hp]; [discriminate|].
    rewrite Hp. unfold bind at 1, lift.
    destruct (guarded_returns
                (group_attempt w cm s2d (clock w (events st)) p ids (c :: cs) ref out) p st)
      as (r & st' & Hrun & Hflag & _ & Hcap).
    { intros r s1. apply attempt_inv. }
    exists r, st'.
    split; [exact Hrun|]. split; [exact Hflag|]. split; [discriminate|].
    intros p' e s1 [= <-] Hraise _. now apply (Hcap e s1).
Qed.

Lemma scene_returns sp ids ref loc out notes st :
  (exists p, scene_prompt_text fb cm sp ids loc notes = Returned p) ->
  exists r st',
    generate_scene fb w cm s2d sp ids ref loc out notes st = (Returned r, st') /\
    well_flagged r /\
    scene_prompt_text fb cm sp ids loc notes = Returned (prompt_used r) /\
    (forall e s1,
       scene_attempt w cm s2d (clock w (events st)) (prompt_used r) sp ids ref out st
       = (Raised e, s1) ->
       r = failed_result (exn_str e) (prompt_used r)).
Proof.
  intros [p Hp]. unfold generate_scene, bind at 1, now.
  rewrite Hp. unfold bind at 1, lift.
  destruct (guarded_returns
              (scene_attempt w cm s2d (clock w (events st)) p sp ids ref out) p st)
    as (r & st' & Hrun & Hflag & Hused & Hcap).
  { intros r s1. apply attempt_inv. }
  exists r, st'. rewrite Hused.
  split; [exact Hrun|]. split; [exact Hflag|]. split; [reflexivity | exact Hcap].
Qed.

Lemma cover_returns bid ref custom out st :
  (forall book featured,
     get_book cm bid = Some book ->
     get_character cm (Book.featured_character book) = Some featured ->
     exists p, cover_prompt fb cm book featured custom = Returned p) ->
  exists r st',
    generate_cover fb w cm s2d bid ref custom out st = (Returned r, st') /\
    well_flagged r /\
    (get_book cm bid = None -> r = failed_result ("Book not found: " +:+ bid) "") /\
    (forall book,
       get_book cm bid = Some book ->
       get_character cm (Book.featured_character book) = None ->
       r = failed_result
             ("Featured character not found: " +:+ Book.featured_character book) "") /\
    (forall book featured p e s1,
       get_book cm bid = Some book ->
       get_character cm (Book.featured_character book) = Some featured ->
       cover_prompt fb cm book featured custom = Returned p ->
       cover_attempt w cm s2d (clock w (events st)) p bid book ref out st = (Raised e, s1) ->
       r = failed_result (exn_str e) p).
Proof.
  intros Hprompt. unfold generate_cover, bind at 1, now.
  destruct (get_book cm bid) as [book|] eqn:Hb.
  - destruct (get_character cm (Book.featured_character book)) as [featured|] eqn:Hf.
    + destruct (Hprompt book featured eq_refl Hf) as [p Hp].
      rewrite Hp. unfold bind at 1, lift.
      destruct (guarded_returns
                  (cover_attempt w cm s2d (clock w (events st)) p bid book ref out) p st)
        as (r & st' & Hrun & Hflag & _ & Hcap).
      { intros r s1. apply attempt_inv. }
      exists r, st'.
      split; [exact Hrun|]. split; [exact Hflag|]. split; [discriminate|]. split.
      * intros b' [= <-]. congruence.
      * intros b' f' p' e s1 [= <-] Hf'. rewrite Hf in Hf'. injection Hf' as <-.
        intros Hp'. rewrite Hp in Hp'. injection Hp' as <-. apply Hcap.
    + eexists _, _.
      split; [reflexivity|]. split; [apply failed_result_flagged|].
      split; [discriminate|]. split.
      * intros b' [= <-] _. reflexivity.
      * intros b' f' p e s1 [= <-]. congruence.
  - eexists _, _.
    split; [reflexivity|]. split; [apply failed_result_flagged|].
    split; [reflexivity|]. split; discriminate.
Qed.

End Operations.

(** The failures inside a guarded attempt: the steps the four attempts are
    made of raise on a missing reference file, on a failed upload and on a
    failed synthesis call. *)
Lemma upload_image_missing w st p :
  startswith p "http" = false ->
  _uploaded_images st !! p = None ->
  p ∉ files st ->
  _upload_image w p false st
  = (Raised (FileNotFoundError ("Image not found: " +:+ p)), st).
Proof.
  intros Hp Hc Hm. rewrite upload_image_cases, Hp, Hc.
  now rewrite bool_decide_eq_false_2.
Qed.

Lemma upload_image_remote_failure w st p data e :
  startswith p "http" = false ->
  _uploaded_images st !! p = None ->
  p ∈ files st ->
  read_file w (events st) p = Returned data ->
  fal_upload w (events st) data = Raised e ->
  _upload_image w p false st = (Raised e, log (EvUpload data) st).
Proof.
  intros Hp Hc Hin Hr Hu. rewrite upload_image_cases, Hp, Hc.
  now rewrite bool_decide_eq_true_2, Hr, Hu.
Qed.

Lemma finish_synthesis_failure w cm s2d start prompt ref persist meta st e :
  fal_subscribe w (events st) (api_model cm) (api_arguments cm prompt ref None None)
  = Raised e ->
  finish w cm s2d start prompt ref persist meta st
  = (Raised e,
     log (EvSubscribe (api_model cm) (api_arguments cm prompt ref None None)) st).
Proof.
  intros H. unfold finish, _call_api, bind at 1, subscribe. now rewrite H.
Qed.

(** C1, as amended: whenever the construction of its prompt does not
    raise, each of the four operations returns a result for every input and
    every behaviour of the world, never an exception; the result either
    reports success without an error or reports failure with an error text;
    a missing entity gives the failure that names it, and any exception
    raised inside the guarded part (a missing reference file, a failed
    upload, a failed synthesis call, a failed download or write) gives the
    failure that carries its text. *)
Theorem generation_captures_failures fb w cm s2d :
  (forall cid ref loc custom out st,
     (forall c, get_character cm cid = Some c ->
                exists p, hero_prompt fb cm c loc custom = Returned p) ->
     exists r st',
       generate_hero_shot fb w cm s2d cid ref loc custom out st = (Returned r, st') /\
       well_flagged r /\
       (get_character cm cid = None ->
        r = failed_result ("Character not found: " +:+ cid) "") /\
       (forall c p e s1,
          get_character cm cid = Some c ->
          hero_prompt fb cm c loc custom = Returned p ->
          hero_attempt w cm s2d (clock w (events st)) p cid c ref out st = (Raised e, s1) ->
          r = failed_result (exn_str e) p)) /\
  (forall ids ref loc custom out st,
     (resolve_characters cm ids <> [] ->
      exists p, group_prompt fb cm (resolve_characters cm ids) loc custom = Returned p) ->
     exists r st',
       generate_group_shot fb w cm s2d ids ref loc custom out st = (Returned r, st') /\
       well_flagged r /\
       (resolve_characters cm ids = [] ->
        r = failed_result "No valid characters found" "") /\
       (forall p e s1,
          group_prompt fb cm (resolve_characters cm ids) loc custom = Returned p ->
          group_attempt w cm s2d (clock w (events st)) p ids (resolve_characters cm ids)
            ref out st = (Raised e, s1) ->
          resolve_characters cm ids <> [] ->
          r = failed_result (exn_str e) p)) /\
  (forall sp ids ref loc out notes st,
     (exists p, scene_prompt_text fb cm sp ids loc notes = Returned p) ->
     exists r st',
       generate_scene fb w cm s2d sp ids ref loc out notes st = (Returned r, st') /\
       well_flagged r /\
       scene_prompt_text fb cm sp ids loc notes = Returned (prompt_used r) /\
       (forall e s1,
          scene_attempt w cm s2d (clock w (events st)) (prompt_used r) sp ids ref out st
          = (Raised e, s1) ->
          r = failed_result (exn_str e) (prompt_used r))) /\
  (forall bid ref custom out st,
     (forall book featured,
        get_book cm bid = Some book ->
        get_character cm (Book.featured_character book) = Some featured ->
        exists p, cover_prompt fb cm book featured custom = Returned p) ->
     exists r st',
       generate_cover fb w cm s2d bid ref custom out st = (Returned r, st') /\
       well_flagged r /\
       (get_book cm bid = None -> r = failed_result ("Book not found: " +:+ bid) "") /\
       (forall book,
          get_book cm bid = Some book ->
          get_character cm (Book.featured_character book) = None ->
          r = failed_result
                ("Featured character not found: " +:+ Book.featured_character book) "") /\
       (forall book featured p e s1,
          get_book cm bid = Some book ->
          get_character cm (Book.featured_character book) = Some featured ->
          cover_prompt fb cm book featured custom = Returned p ->
          cover_attempt w cm s2d (clock w (events st)) p bid book ref out st
          = (Raised e, s1) ->
          r = failed_result (exn_str e) p)).
Proof.
  repeat apply conj; intros.
  - now apply hero_shot_returns.
  - now apply group_shot_returns.
  - now apply scene_returns.
  - now apply cover_returns.
Qed.

(** A hero shot for a character that does not exist, and a scene whose
    synthesis call fails. *)
Lemma generation_captures_failures_witness :
  (exists st',
     generate_hero_shot no_beyond calm_world farm_config true "nobody" None None None None
       (fresh_engine reference_disk)
     = (Returned (failed_result "Character not found: nobody" ""), st')) /\
  (exists p, scene_prompt_text no_beyond farm_config "Barnaby wakes up"
               ["barnaby_bunny"] None "" = Returned p) /\
  (exists st',
     generate_scene no_beyond (flaky_world 1) farm_config true "Barnaby wakes up"
       ["barnaby_bunny"] "./reference.jpg" None None "" (fresh_engine reference_disk)
     = (Returned
          (failed_result "rate limit exceeded"
             "Barnaby wakes up with Barnaby, pixar style 3d render"), st')).
Proof.
  destruct (generation_captures_failures no_beyond calm_world farm_config true)
    as (Hhero & _).
  destruct (generation_captures_failures no_beyond (flaky_world 1) farm_config true)
    as (_ & _ & Hscene & _).
  assert (Hp : exists p, scene_prompt_text no_beyond farm_config "Barnaby wakes up"
                           ["barnaby_bunny"] None "" = Returned p)
    by (eexists; reflexivity).
  split; [|split; [exact Hp|]].
  - destruct (Hhero "nobody" None None None None (fresh_engine reference_disk))
      as (r & st' & Hrun & _ & Hmissing & _); [discriminate|].
    exists st'. rewrite Hrun, (Hmissing eq_refl). reflexivity.
  - destruct (Hscene "Barnaby wakes up" ["barnaby_bunny"] "./reference.jpg" None None ""
                (fresh_engine reference_disk) Hp)
      as (r & st' & Hrun & _ & Hprompt & Hcap).
    exists st'. rewrite Hrun. f_equal. f_equal.
    assert (Hbuilt : scene_prompt_text no_beyond farm_config "Barnaby wakes up"
                       ["barnaby_bunny"] None ""
                     = Returned "Barnaby wakes up with Barnaby, pixar style 3d render")
      by reflexivity.
    assert (Hused : prompt_used r = "Barnaby wakes up with Barnaby, pixar style 3d render")
      by congruence.
    rewrite Hused in Hcap.
    eapply (Hcap (OtherError "rate limit exceeded")). reflexivity.
Defined.

(** C1 as stated fails: a template that [str.format] rejects makes each of
    the four operations raise, since the prompt is built before the guarded
    part and [build_prompt] only handles [KeyError]. *)
Lemma generation_raises_counterexample :
  let st := fresh_engine reference_disk in
  fst (generate_hero_shot no_beyond calm_world broken_config false
         "barnaby_bunny" None None None None st)
  = Raised (ValueError "Single '}' encountered in format string") /\
  fst (generate_group_shot no_beyond calm_world broken_config false
         ["barnaby_bunny"] None None None None st)
  = Raised (ValueError "Single '{' encountered in format string") /\
  fst (generate_scene no_beyond calm_world broken_config false
         "Barnaby wakes up" ["barnaby_bunny"] "./reference.jpg" None None "" st)
  = Raised (IndexError "Replacement index 0 out of range for positional args tuple") /\
  fst (generate_cover no_beyond calm_world broken_config false
         "book_01_courage" "./reference.jpg" None None st)
  = Raised (ValueError "expected '}' before end of string").
Proof. repeat split; reflexivity. Qed.

(* ===================================================================== *)
(** * A successful hero shot                                              *)
(* ===================================================================== *)

Lemma finish_success w cm s2d start prompt ref persist meta st resp url rest :
  fal_subscribe w (events st) (api_model cm) (api_arguments cm prompt ref None None)
  = Returned resp ->
  images resp = Some (Some url :: rest) ->
  (s2d = false \/
   exists path st3,
     persist url (log (EvSubscribe (api_model cm)
                         (api_arguments cm prompt ref None None)) st)
     = (Returned path, st3)) ->
  exists saved st',
    finish w cm s2d start prompt ref persist meta st
    = (Returned {| success := true; output_path := saved; image_url := Some url;
                   prompt_used := prompt; error := None; cost := cost_per_image cm;
                   generation_time :=
                     clock w (events st ++ [EvSubscribe (api_model cm)
                                (api_arguments cm prompt ref None None)]) - start;
                   metadata := meta |}, st').
Proof.
  intros Hresp Himg Hpersist.
  unfold finish, _call_api, bind at 1, subscribe. rewrite Hresp.
  unfold bind at 1, first_image_url. rewrite Himg. unfold ret at 1.
  unfold bind at 1, now. simpl events.
  destruct Hpersist as [-> | (path & st3 & Hp)].
  - eexists _, _. reflexivity.
  - destruct s2d.
    + unfold bind at 1, bind at 1. rewrite Hp. eexists _, _. reflexivity.
    + eexists _, _. reflexivity.
Qed.

(** C9, as amended: for a known character, a hero-shot request whose
    reference is resolved, whose synthesis call returns an image handle and
    whose image is persisted without error (or persistence is off) returns a
    result with success true, the handle, the prompt that was built, the
    configured per-image cost and a metadata mapping holding the character
    id and the operation type; with the template "{character_name} in
    {style_prompt}" the prompt is the character's name, " in ", and the
    active style's prompt. *)
Theorem hero_shot_success fb w cm s2d cid ref loc custom out st
  character built ref_url st1 resp url rest :
  get_character cm cid = Some character ->
  hero_prompt fb cm character loc custom = Returned built ->
  optional_reference w ref st = (Returned ref_url, st1) ->
  fal_subscribe w (events st1) (api_model cm) (api_arguments cm built ref_url None None)
  = Returned resp ->
  images resp = Some (Some url :: rest) ->
  (s2d = false \/
   exists path st3,
     hero_persist w cm cid out built url
       (log (EvSubscribe (api_model cm) (api_arguments cm built ref_url None None)) st1)
     = (Returned path, st3)) ->
  (exists r st',
     generate_hero_shot fb w cm s2d cid ref loc custom out st = (Returned r, st') /\
     success r = true /\
     error r = None /\
     image_url r = Some url /\
     prompt_used r = built /\
     cost r = cost_per_image cm /\
     dict_get "character_id" (metadata r) = Some (inl cid) /\
     dict_get "type" (metadata r) = Some (inl "hero_shot")) /\
  (get_prompt_template cm "hero_shot" = "{character_name} in {style_prompt}" ->
   truthy custom = None ->
   built = Character.name character +:+ " in " +:+ active_style_prompt cm).
Proof.
  intros Hc Hbuilt Href Hresp Himg Hpersist. split.
  - destruct (finish_success w cm s2d (clock w (events st)) built ref_url
                (hero_persist w cm cid out built) (hero_metadata cid character)
                st1 resp url rest Hresp Himg Hpersist) as (saved & st' & Hfin).
    eexists _, st'. split.
    + unfold generate_hero_shot, bind at 1, now. rewrite Hc, Hbuilt.
      unfold bind at 1, lift. rewrite try_capture.
      unfold hero_attempt, bind at 1. rewrite Href, Hfin. reflexivity.
    + repeat split.
  - intros Ht Hcustom. unfold hero_prompt in Hbuilt. rewrite Hcustom in Hbuilt.
    pose (segs := [Field "character_name"; Lit " in "; Field "style_prompt"]).
    match type of Hbuilt with
    | build_prompt _ _ _ ?kw = _ =>
        pose proof (build_prompt_expected fb cm "hero_shot" kw segs Ht eq_refl
                      (or_introl eq_refl)) as Hb
    end.
    rewrite Hb in Hbuilt. injection Hbuilt as <-.
    unfold expected_prompt. simpl. now rewrite str_app_nil_r.
Qed.

Lemma hero_shot_success_witness :
  exists r st',
    generate_hero_shot no_beyond calm_world farm_config false "barnaby_bunny"
      None None None None (fresh_engine reference_disk) = (Returned r, st') /\
    success r = true /\
    prompt_used r = "Barnaby in pixar style 3d render" /\
    cost r = 5 # 100 /\
    dict_get "character_id" (metadata r) = Some (inl "barnaby_bunny").
Proof.
  destruct (hero_shot_success no_beyond calm_world farm_config false "barnaby_bunny"
              None None None None (fresh_engine reference_disk)
              (Character.from_dict "barnaby_bunny" barnaby_data)
              "Barnaby in pixar style 3d render" None (fresh_engine reference_disk)
              {| images := Some [Some "https://cdn.example/out.jpg"] |}
              "https://cdn.example/out.jpg" []
              eq_refl eq_refl eq_refl eq_refl eq_refl (or_introl eq_refl))
    as [(r & st' & Hrun & Hs & _ & _ & Hp & Hcost & Hid & _) _].
  exists r, st'. repeat split; assumption.
Defined.

(** C9 as stated fails: the synthesis call succeeds, the produced image
    cannot be downloaded, and the hero shot is a failure. *)
Lemma hero_shot_counterexample :
  let st := fresh_engine reference_disk in
  let request := api_arguments farm_config "Barnaby in pixar style 3d render" None None None in
  let run := generate_hero_shot no_beyond unreachable_cdn_world farm_config true
               "barnaby_bunny" None None None None st in
  get_character farm_config "barnaby_bunny"
  = Some (Character.from_dict "barnaby_bunny" barnaby_data) /\
  fal_subscribe unreachable_cdn_world (events st) (api_model farm_config) request
  = Returned {| images := Some [Some "https://cdn.example/out.jpg"] |} /\
  In (EvSubscribe (api_model farm_config) request) (events (snd run)) /\
  fst run = Returned (failed_result "connection reset" "Barnaby in pixar style 3d render").
Proof.
  repeat split; try reflexivity. vm_compute. tauto.
Qed.

(* ===================================================================== *)
(** * Book generation                                                     *)
(* ===================================================================== *)







(* ===================================================================== *)
(** * Book generation: the page range                                     *)
(* ===================================================================== *)






(* ===================================================================== *)
(** * The delay between the items of a batch                              *)
(* ===================================================================== *)

(** ** Where the delay is applied *)






Section Delays.

Variable fb : string -> string -> dict string -> string -> fmt_result.
Variable w : World.
Variable cm : ConfigManager.
Variable s2d : bool.















End Delays.


(** C5 fails on the code: with a cover and a page range that selects no
    scene, the cover is the only item of the batch, and the delay is still
    applied after it (the scene loop and the hero loop test for the last
    item, the cover step does not). *)
Theorem delay_after_last_item :
  let run := generate_book no_beyond calm_world farm_config false "book_01_courage"
               "./reference.jpg" true (Some (10, 20)%Z) (fresh_engine reference_disk) in
  select_scenes (Some (10, 20)%Z)
    (Book.scenes (Book.from_dict "book_01_courage" courage_data)) = [] /\
  (exists r, fst run = Returned [r] /\ success r = true) /\
  (exists before, events (snd run) = before ++ [EvSleep (rate_limit_delay farm_config)]) /\
  length (List.filter is_sleep (events (snd run))) = 1%nat.
Proof.
  split; [reflexivity|]. split; [|split].
  - eexists. split; reflexivity.
  - eexists [_; _; _]. reflexivity.
  - reflexivity.
Qed.

(* ===================================================================== *)
(** * The Python string operations on small inputs                        *)
(* ===================================================================== *)

Example take_ex1 : str_take 3 "barnaby" = "bar".
Proof. reflexivity. Qed.
Example take_ex2 : str_take 3 "zo" = "zo".
Proof. reflexivity. Qed.
Example take_ex3 :
  str_take 2 (String "195" (String "169" "te")) = String "195" (String "169" "t").
Proof. reflexivity. Qed.
Example replace_ex1 : str_replace "{a}" "X" "{a} and {b} and {a}" = "X and {b} and X".
Proof. reflexivity. Qed.
Example replace_ex2 : str_replace "" "-" "abc" = "-a-b-c-".
Proof. reflexivity. Qed.
Example format_ex1 :
  str_format no_beyond "{a} in {{x}} {b}" [("a", "X"); ("b", "Y")]
  = FmtOk "X in {x} Y".
Proof. reflexivity. Qed.
Example format_ex2 :
  str_format no_beyond "{a} and {b}" [("a", "X")] = FmtKeyError "b".
Proof. reflexivity. Qed.
Example format_ex3 : format_02d 5 = "05" /\ format_02d 12 = "12" /\ format_02d (-3) = "-3".
Proof. repeat split; reflexivity. Qed.

(* ===================================================================== *)
(** * Dictionaries: lookup after assignment                               *)
(* ===================================================================== *)

Lemma dict_get_set_eq {V} (k : string) (v : V) (d : dict V) :
  dict_get k (dict_set k v d) = Some v.
Proof.
  induction d as [|[k' v'] d IH]; simpl.
  - now rewrite String.eqb_refl.
  - destruct (String.eqb k k') eqn:E; simpl.
    + now rewrite String.eqb_refl.
    + now rewrite E.
Qed.

Lemma dict_get_set_ne {V} (k k' : string) (v : V) (d : dict V) :
  k <> k' -> dict_get k' (dict_set k v d) = dict_get k' d.
Proof.
  intros Hne. induction d as [|[k0 v0] d IH]; simpl.
  - destruct (String.eqb_spec k' k); [congruence | reflexivity].
  - destruct (String.eqb_spec k k0) as [->|]; simpl.
    + destruct (String.eqb_spec k' k0); [congruence | reflexivity].
    + destruct (String.eqb k' k0); [reflexivity | exact IH].
Qed.

Lemma dict_in_keys {V} (k : string) (d : dict V) :
  dict_in k d = true <-> In k (dict_keys d).
Proof.
  unfold dict_in. induction d as [|[k' v'] d IH]; simpl.
  - split; [discriminate | contradiction].
  - destruct (String.eqb_spec k k') as [->|Hne].
    + split; auto.
    + rewrite IH. split; [auto | intros [?|?]; [congruence | assumption]].
Qed.

Lemma dict_get_absent {V} (k : string) (d : dict V) :
  ~ In k (dict_keys d) -> dict_get k d = None.
Proof.
  intros H. destruct (dict_get k d) eqn:E; [|reflexivity].
  exfalso. apply H, dict_in_keys. unfold dict_in. now rewrite E.
Qed.

Lemma dict_keys_set {V} (k : string) (v : V) (d : dict V) :
  dict_keys (dict_set k v d)
  = if dict_in k d then dict_keys d else dict_keys d ++ [k].
Proof.
  unfold dict_in. induction d as [|[k' v'] d IH]; simpl; [reflexivity|].
  destruct (String.eqb_spec k k') as [->|Hne]; simpl; [reflexivity|].
  rewrite IH. now destruct (dict_get k d).
Qed.

Lemma wf_dict_set {V} (k : string) (v : V) (d : dict V) :
  wf_dict d -> wf_dict (dict_set k v d).
Proof.
  unfold wf_dict. intros H. rewrite dict_keys_set.
  destruct (dict_in k d) eqn:E; [assumption|].
  apply List.NoDup_app; [assumption | repeat constructor; intros [] |].
  intros x Hx [<-|[]]. apply dict_in_keys in Hx. congruence.
Qed.


(** ** Parsing a section entry by entry *)

Lemma dict_set_typed {D T} (f : string -> D -> T) (k : string) (v : D) (d : dict D) :
  dict_set k (f k v) (map (typed_entry f) d) = map (typed_entry f) (dict_set k v d).
Proof.
  induction d as [|[k' v'] d IH]; simpl; [reflexivity|].
  destruct (String.eqb k k'); simpl; [reflexivity | now rewrite IH].
Qed.

Lemma dict_get_typed {D T} (f : string -> D -> T) (k : string) (d : dict D) :
  dict_get k (map (typed_entry f) d) = option_map (f k) (dict_get k d).
Proof.
  induction d as [|[k' v'] d IH]; simpl; [reflexivity|].
  destruct (String.eqb_spec k k') as [->|_]; [reflexivity | exact IH].
Qed.

Lemma dict_keys_typed {D T} (f : string -> D -> T) (d : dict D) :
  dict_keys (map (typed_entry f) d) = dict_keys d.
Proof. unfold dict_keys. rewrite map_map. reflexivity. Qed.

Lemma parse_section_from {D T} (f : string -> D -> T) (d : dict D) (acc : dict T) :
  List.NoDup (dict_keys acc ++ dict_keys d) ->
  fold_left (fun typed kd => dict_set (fst kd) (f (fst kd) (snd kd)) typed) d acc
  = acc ++ map (typed_entry f) d.
Proof.
  revert acc. induction d as [|[k v] d IH]; intros acc Hnd; simpl.
  - now rewrite app_nil_r.
  - simpl in Hnd.
    assert (Hk : ~ In k (dict_keys acc)).
    { intros Hin. apply List.NoDup_remove_2 in Hnd. apply Hnd, in_or_app. now left. }
    rewrite dict_set_absent by now apply dict_get_absent.
    rewrite IH.
    + rewrite <- app_assoc. reflexivity.
    + unfold dict_keys in *. rewrite map_app. simpl. rewrite <- app_assoc. exact Hnd.
Qed.

(** On a dictionary the loop of [_parse_config] converts the entries one
    by one and keeps their order. *)
Lemma parse_section_map {D T} (f : string -> D -> T) (d : dict D) :
  wf_dict d -> parse_section f d = map (typed_entry f) d.
Proof. intros H. unfold parse_section. now rewrite parse_section_from. Qed.

Lemma parse_section_set {D T} (f : string -> D -> T) (k : string) (v : D) (d : dict D) :
  wf_dict d ->
  parse_section f (dict_set k v d) = dict_set k (f k v) (parse_section f d).
Proof.
  intros H. rewrite !parse_section_map by (try apply wf_dict_set; assumption).
  now rewrite dict_set_typed.
Qed.

(* ===================================================================== *)
(** * The configuration manager under modification                        *)
(* ===================================================================== *)

Lemma Forall_dict_set {V} (P : string * V -> Prop) (k : string) (v : V) (d : dict V) :
  P (k, v) -> List.Forall P d -> List.Forall P (dict_set k v d).
Proof.
  intros Hkv. induction 1 as [|[k' v'] d Hx Hd IH]; simpl.
  - now repeat constructor.
  - destruct (String.eqb k k'); constructor; assumption.
Qed.

Lemma parse_section_Forall {D T} (f : string -> D -> T) (P : string * T -> Prop)
  (d : dict D) :
  (forall k x, P (k, f k x)) -> List.Forall P (parse_section f d).
Proof.
  intros Hf. unfold parse_section.
  assert (H : List.Forall P (@nil (string * T))) by constructor.
  revert H. generalize (@nil (string * T)) as acc.
  induction d as [|[k x] d IH]; intros acc Hacc; simpl; [assumption|].
  apply IH. now apply Forall_dict_set.
Qed.

Lemma Forall_dict_get {V} (P : string * V -> Prop) (k : string) (v : V) (d : dict V) :
  List.Forall P d -> dict_get k d = Some v -> P (k, v).
Proof.
  intros Hall Hget. apply dict_get_In in Hget.
  now apply (proj1 (List.Forall_forall P d) Hall).
Qed.

(** The entities of a manager stay stored under their own ids. *)
Lemma configured_keyed ok cm : configured ok cm -> keyed_by_id cm.
Proof.
  induction 1 as [path raw Hok | cm style _ IH | cm cid data _ IH
                 | cm cid updates _ IH | cm sid name prompt _ IH
                 | cm bid scenes _ IH].
  - repeat split; now apply parse_section_Forall.
  - unfold set_active_style. now destruct (dict_in style (_style_presets cm)).
  - destruct IH as (Hc & Hl & Hb). repeat split; simpl; try assumption.
    now apply Forall_dict_set.
  - unfold update_character.
    destruct (dict_get cid (get_or (doc_characters (_raw_config cm)) []));
      [|assumption].
    destruct IH as (Hc & Hl & Hb). repeat split; simpl; try assumption.
    now apply Forall_dict_set.
  - exact IH.
  - unfold update_book_scenes.
    destruct (dict_get bid (get_or (doc_books (_raw_config cm)) []));
      [|assumption].
    destruct IH as (Hc & Hl & Hb). repeat split; simpl; try assumption.
    now apply Forall_dict_set.
Qed.

(** X1: in every state of a configuration manager (loaded from any
    document, then modified by [set_active_style], [add_character],
    [update_character], [add_style_preset] and [update_book_scenes] in any
    order) the character, the location and the book that a lookup returns
    carry the id they were looked up by, and [list_characters] and
    [list_locations] show the ids of [list_character_ids] and
    [list_location_ids], in the same order. *)
Theorem entities_keyed_by_id cm :
  configured any_document cm ->
  (forall k c, get_character cm k = Some c -> Character.id c = k) /\
  (forall k l, get_location cm k = Some l -> Location.id l = k) /\
  (forall k b, get_book cm k = Some b -> Book.id b = k) /\
  map (dict_get "id") (list_characters cm) = map Some (list_character_ids cm) /\
  map (dict_get "id") (list_locations cm) = map Some (list_location_ids cm).
Proof.
  intros H. destruct (configured_keyed _ _ H) as (Hc & Hl & Hb).
  split; [|split; [|split; [|split]]].
  - intros k c Hk. exact (Forall_dict_get _ _ _ _ Hc Hk).
  - intros k l Hk. exact (Forall_dict_get _ _ _ _ Hl Hk).
  - intros k b Hk. exact (Forall_dict_get _ _ _ _ Hb Hk).
  - unfold list_characters, list_character_ids, dict_values, dict_keys.
    rewrite !map_map. apply map_ext_in. intros [k c] Hin. simpl.
    f_equal. exact (proj1 (List.Forall_forall _ _) Hc _ Hin).
  - unfold list_locations, list_location_ids, dict_values, dict_keys.
    rewrite !map_map. apply map_ext_in. intros [k l] Hin. simpl.
    f_equal. exact (proj1 (List.Forall_forall _ _) Hl _ Hin).
Qed.

Lemma entities_keyed_by_id_witness :
  configured any_document revised_farm /\
  (forall k c, get_character revised_farm k = Some c -> Character.id c = k) /\
  map (dict_get "id") (list_characters revised_farm)
  = [Some "barnaby_bunny"; Some "gus_goat"].
Proof.
  assert (H : configured any_document revised_farm).
  { apply cf_update_character, cf_add_character, cf_load. exact I. }
  split; [exact H|].
  destruct (entities_keyed_by_id revised_farm H) as (Hc & _ & _ & Hl & _).
  split; [exact Hc | exact Hl].
Defined.

(** ** The typed entities follow the document *)

Lemma configured_in_sync cm :
  configured wf_document cm -> in_sync cm /\ wf_document (_raw_config cm).
Proof.
  induction 1 as [path raw Hok | cm style _ IH | cm cid data _ IH
                 | cm cid updates _ IH | cm sid name prompt _ IH
                 | cm bid scenes _ IH].
  - split; [reflexivity | exact Hok].
  - unfold set_active_style. destruct (dict_in style (_style_presets cm)); [|exact IH].
    destruct IH as (Hs & Hwf). split; [|exact Hwf].
    destruct cm as [p r cs ls bs sp pt im]. unfold in_sync, _parse_config in *.
    simpl in *. injection Hs as -> -> -> -> -> ->. reflexivity.
  - destruct IH as (Hs & Hc & Hl & Hb). split.
    + destruct cm as [p r cs ls bs sp pt im].
      unfold in_sync, _parse_config, add_character in *.
      simpl in *. injection Hs as -> -> -> -> -> ->.
      now rewrite parse_section_set.
    + repeat split; simpl; try assumption. now apply wf_dict_set.
  - unfold update_character.
    destruct (dict_get cid (get_or (doc_characters (_raw_config cm)) []));
      [|exact IH].
    destruct IH as (Hs & Hc & Hl & Hb). split.
    + destruct cm as [p r cs ls bs sp pt im]. unfold in_sync, _parse_config in *.
      simpl in *. injection Hs as -> -> -> -> -> ->.
      now rewrite parse_section_set.
    + repeat split; simpl; try assumption. now apply wf_dict_set.
  - destruct IH as (Hs & Hwf). split; [|exact Hwf].
    destruct cm as [p r cs ls bs sp pt im].
    unfold in_sync, _parse_config, add_style_preset in *.
    simpl in *. injection Hs as -> -> -> -> -> ->. reflexivity.
  - unfold update_book_scenes.
    destruct (dict_get bid (get_or (doc_books (_raw_config cm)) []));
      [|exact IH].
    destruct IH as (Hs & Hc & Hl & Hb). split.
    + destruct cm as [p r cs ls bs sp pt im]. unfold in_sync, _parse_config in *.
      simpl in *. injection Hs as -> -> -> -> -> ->.
      now rewrite parse_section_set.
    + repeat split; simpl; try assumption. now apply wf_dict_set.
Qed.

Lemma farm_document_wf : wf_document farm_document.
Proof.
  repeat split; unfold wf_dict; simpl; repeat constructor; intros [].
Qed.

Lemma revised_farm_configured : configured wf_document revised_farm.
Proof.
  apply cf_update_character, cf_add_character, cf_load, farm_document_wf.
Qed.

Lemma tended_configured cm : tended cm -> configured wf_document cm.
Proof.
  induction 1; [now apply cf_load | now apply cf_set_active_style
               | now apply cf_add_character | now apply cf_update_character
               | now apply cf_add_style_preset | now apply cf_update_book_scenes].
Qed.

Section Persistence.

Variable json_load : string -> option Document.
Variable json_dump : Document -> string.
Variable writable : string -> bool.

(** X2: whatever modifications a manager has gone through since it was
    loaded from a well-formed document, a character being updated only
    where its dictionary is no other character's, its typed entities are
    those of its document, so that [save] followed by [load] of the same
    file gives back the manager itself: characters, locations, books,
    presets, templates, image settings and document.  That [json.load]
    reads back what [json.dump] wrote is the law of the codec, used for the
    document at hand. *)
Theorem modifications_persist cm path files files' :
  tended cm ->
  json_load (json_dump (_raw_config cm)) = Some (_raw_config cm) ->
  save json_dump writable cm path files = Returned files' ->
  in_sync cm /\
  load json_load cm path files' = Returned cm.
Proof.
  intros Hcm Hcodec Hsave.
  destruct (configured_in_sync cm (tended_configured cm Hcm)) as (Hs & _).
  split; [exact Hs|].
  unfold save in Hsave. destruct (writable (resolve_path cm path)); [|discriminate].
  injection Hsave as <-.
  unfold load. rewrite lookup_insert_eq, Hcodec. now rewrite <- Hs.
Qed.

End Persistence.

Lemma revised_farm_tended : tended revised_farm.
Proof.
  apply td_update_character; [apply td_add_character, td_load, farm_document_wf|].
  intros data other Hdata Hne Hother. simpl in Hdata, Hother.
  injection Hdata as <-.
  destruct (String.eqb other "barnaby_bunny"); [discriminate|].
  destruct (String.eqb_spec other "gus_goat"); [contradiction | discriminate].
Qed.

Lemma modifications_persist_witness :
  let files : gmap string string := {[ DEFAULT_CONFIG_PATH := "farm" ]} in
  tended revised_farm /\
  Character.description
    <$> get_character revised_farm "gus_goat" = Some "a patient old goat" /\
  save revised_dump (fun _ => true) revised_farm None files
  = Returned (<[ DEFAULT_CONFIG_PATH := "revised" ]> files) /\
  load revised_load revised_farm None (<[ DEFAULT_CONFIG_PATH := "revised" ]> files)
  = Returned revised_farm.
Proof.
  intros files.
  assert (Hsave : save revised_dump (fun _ => true) revised_farm None files
                  = Returned (<[ DEFAULT_CONFIG_PATH := "revised" ]> files))
    by reflexivity.
  split; [exact revised_farm_tended|]. split; [reflexivity|]. split; [exact Hsave|].
  exact (proj2 (modifications_persist revised_load revised_dump (fun _ => true)
                  revised_farm None files _ revised_farm_tended eq_refl Hsave)).
Defined.

(** ** Characters *)

(** X3: after [add_character] the character is found under its id, as
    [Character.from_dict] reads the given data; every other character, every
    location, book and preset is as before; a new id goes to the end of the
    listing and an id already present keeps its place. *)
Theorem add_character_lookup cm char_id char_data :
  get_character (add_character cm char_id char_data) char_id
  = Some (Character.from_dict char_id char_data) /\
  (forall other,
     other <> char_id ->
     get_character (add_character cm char_id char_data) other
     = get_character cm other) /\
  list_character_ids (add_character cm char_id char_data)
  = (if dict_in char_id (_characters cm) then list_character_ids cm
     else list_character_ids cm ++ [char_id]) /\
  _locations (add_character cm char_id char_data) = _locations cm /\
  _books (add_character cm char_id char_data) = _books cm /\
  style_presets (add_character cm char_id char_data) = style_presets cm /\
  active_style (add_character cm char_id char_data) = active_style cm.
Proof.
  unfold get_character, list_character_ids, add_character. simpl.
  split; [apply dict_get_set_eq|]. split; [|split; [apply dict_keys_set | auto]].
  intros other Hne. apply dict_get_set_ne. congruence.
Qed.

Lemma add_character_lookup_witness :
  get_character farm_with_gus "gus_goat"
  = Some (Character.from_dict "gus_goat" gus_data) /\
  get_character farm_with_gus "barnaby_bunny" = get_character farm_config "barnaby_bunny" /\
  list_character_ids farm_with_gus = ["barnaby_bunny"; "gus_goat"].
Proof.
  destruct (add_character_lookup farm_config "gus_goat" gus_data)
    as (Hnew & Hother & Hids & _).
  split; [exact Hnew|]. split; [|exact Hids].
  apply Hother. discriminate.
Defined.

Lemma get_or_updated {A} (new old : option A) (default : A) :
  get_or (updated new old) default = get_or new (get_or old default).
Proof. now destruct new. Qed.

(** In a manager that follows its document, a character is found exactly
    when the document has it. *)
Lemma get_character_follows cm char_id :
  in_sync cm ->
  wf_document (_raw_config cm) ->
  get_character cm char_id
  = option_map (Character.from_dict char_id)
      (dict_get char_id (get_or (doc_characters (_raw_config cm)) [])).
Proof.
  intros Hs (Hc & _).
  unfold in_sync in Hs. unfold get_character. rewrite Hs at 1. simpl.
  rewrite parse_section_map by assumption. apply dict_get_typed.
Qed.

(** X4: in a manager whose typed entities are those of its well-formed
    document, as they are after a load, [update_character] on an unknown id
    returns false and changes nothing; on a known id it returns true, and
    the character then found under the id has the fields of the update
    where the update has them and the fields it had before elsewhere; the
    other characters, as the manager answers them, and the order of the
    listing are unchanged. *)
Theorem update_character_spec cm char_id updates :
  in_sync cm ->
  wf_document (_raw_config cm) ->
  match get_character cm char_id with
  | None => update_character cm char_id updates = (cm, false)
  | Some c =>
      snd (update_character cm char_id updates) = true /\
      exists c',
        get_character (fst (update_character cm char_id updates)) char_id = Some c' /\
        Character.id c' = char_id /\
        Character.name c' = get_or (CharacterData.name updates) (Character.name c) /\
        Character.role c' = get_or (CharacterData.role updates) (Character.role c) /\
        Character.description c'
        = get_or (CharacterData.description updates) (Character.description c) /\
        Character.personality c'
        = get_or (CharacterData.personality updates) (Character.personality c) /\
        Character.visual_cues c'
        = get_or (CharacterData.visual_cues updates) (Character.visual_cues c) /\
        Character.virtues c'
        = get_or (CharacterData.virtues updates) (Character.virtues c) /\
        Character.reference_image c'
        = get_or (CharacterData.reference_image updates) (Character.reference_image c) /\
        Character.locations c'
        = get_or (CharacterData.locations updates) (Character.locations c) /\
        Character.special_function c'
        = updated (CharacterData.special_function updates)
                  (Character.special_function c) /\
        Character.appears_with_chime c'
        = get_or (CharacterData.appears_with_chime updates)
                 (Character.appears_with_chime c) /\
        (forall other,
           other <> char_id ->
           get_character (fst (update_character cm char_id updates)) other
           = get_character cm other) /\
        list_character_ids (fst (update_character cm char_id updates))
        = list_character_ids cm
  end.
Proof.
  intros Hs Hwf. pose proof (get_character_follows cm char_id Hs Hwf) as Hget.
  unfold update_character.
  destruct (dict_get char_id (get_or (doc_characters (_raw_config cm)) []))
    as [data|] eqn:Hraw; simpl in Hget; rewrite Hget; [|reflexivity].
  split; [reflexivity|].
  exists (Character.from_dict char_id (character_data_update data updates)).
  unfold get_character, list_character_ids. simpl.
  split; [apply dict_get_set_eq|].
  rewrite !get_or_updated.
  repeat (split; [reflexivity|]). split.
  - intros other Hne. apply dict_get_set_ne. congruence.
  - rewrite dict_keys_set.
    assert (Hin : dict_in char_id (_characters cm) = true).
    { unfold dict_in. fold (get_character cm char_id). now rewrite Hget. }
    now rewrite Hin.
Qed.

Lemma update_character_spec_witness :
  in_sync farm_with_gus /\
  wf_document (_raw_config farm_with_gus) /\
  snd (update_character farm_with_gus "gus_goat" gus_revision) = true /\
  exists c',
    get_character (fst (update_character farm_with_gus "gus_goat" gus_revision))
      "gus_goat" = Some c' /\
    Character.name c' = "Gus" /\
    Character.role c' = "supporting" /\
    Character.description c' = "a patient old goat".
Proof.
  assert (Hs : in_sync farm_with_gus) by reflexivity.
  assert (Hwf : wf_document (_raw_config farm_with_gus)).
  { repeat split; unfold wf_dict; simpl;
      repeat match goal with
             | |- List.NoDup _ => constructor
             | |- ~ In _ _ => simpl; intuition discriminate
             end. }
  split; [exact Hs|]. split; [exact Hwf|].
  pose proof (update_character_spec farm_with_gus "gus_goat" gus_revision Hs Hwf) as H.
  change (get_character farm_with_gus "gus_goat")
    with (Some (Character.from_dict "gus_goat" gus_data)) in H.
  cbv iota in H.
  destruct H as (Hflag & c' & Hget & _ & Hname & Hrole & Hdesc & _).
  split; [exact Hflag|]. exists c'.
  split; [exact Hget|]. split; [exact Hname|]. split; [exact Hrole | exact Hdesc].
Defined.



(** ** The scenes of a book *)

Lemma get_book_in_sync cm book_id :
  configured wf_document cm ->
  get_book cm book_id
  = option_map (Book.from_dict book_id)
      (dict_get book_id (get_or (doc_books (_raw_config cm)) [])).
Proof.
  intros H. destruct (configured_in_sync cm H) as (Hs & _ & _ & Hb).
  unfold in_sync in Hs. unfold get_book. rewrite Hs at 1. simpl.
  rewrite parse_section_map by assumption. apply dict_get_typed.
Qed.

(** X21: in any state of a manager loaded from a well-formed document,
    [update_book_scenes] on an unknown id returns false and changes
    nothing; on a known id it returns true, and the book then found under
    the id has the given scenes and every other field as before; the other
    books, the characters and the order of the books are unchanged. *)
Theorem update_book_scenes_spec cm book_id scenes :
  configured wf_document cm ->
  match get_book cm book_id with
  | None => update_book_scenes cm book_id scenes = (cm, false)
  | Some b =>
      snd (update_book_scenes cm book_id scenes) = true /\
      exists b',
        get_book (fst (update_book_scenes cm book_id scenes)) book_id = Some b' /\
        Book.scenes b' = scenes /\
        Book.id b' = book_id /\
        Book.title b' = Book.title b /\
        Book.book_number b' = Book.book_number b /\
        Book.virtue b' = Book.virtue b /\
        Book.featured_character b' = Book.featured_character b /\
        Book.supporting_characters b' = Book.supporting_characters b /\
        Book.primary_location b' = Book.primary_location b /\
        Book.prop b' = Book.prop b /\
        Book.mantra b' = Book.mantra b /\
        Book.micro_ritual b' = Book.micro_ritual b /\
        (forall other,
           other <> book_id ->
           get_book (fst (update_book_scenes cm book_id scenes)) other
           = get_book cm other) /\
        _characters (fst (update_book_scenes cm book_id scenes)) = _characters cm /\
        list_book_ids (fst (update_book_scenes cm book_id scenes)) = list_book_ids cm
  end.
Proof.
  intros H. pose proof (get_book_in_sync cm book_id H) as Hget.
  unfold update_book_scenes.
  destruct (dict_get book_id (get_or (doc_books (_raw_config cm)) []))
    as [data|] eqn:Hraw; simpl in Hget; rewrite Hget; [|reflexivity].
  split; [reflexivity|].
  exists (Book.from_dict book_id (book_data_set_scenes scenes data)).
  unfold get_book, list_book_ids. simpl.
  split; [apply dict_get_set_eq|].
  repeat (split; [reflexivity|]). split; [|split].
  - intros other Hne. apply dict_get_set_ne. congruence.
  - reflexivity.
  - rewrite dict_keys_set.
    assert (Hin : dict_in book_id (_books cm) = true).
    { unfold dict_in. fold (get_book cm book_id). now rewrite Hget. }
    now rewrite Hin.
Qed.

Lemma update_book_scenes_spec_witness :
  configured wf_document farm_config /\
  snd (update_book_scenes farm_config "book_01_courage" [scene_on_page 7 "The end"])
  = true /\
  exists b',
    get_book (fst (update_book_scenes farm_config "book_01_courage"
                     [scene_on_page 7 "The end"])) "book_01_courage" = Some b' /\
    Book.scenes b' = [scene_on_page 7 "The end"] /\
    Book.title b' = "The Brave Little Bunny".
Proof.
  assert (Hcm : configured wf_document farm_config).
  { apply cf_load.
    repeat split; unfold wf_dict; simpl; repeat constructor; intros []. }
  split; [exact Hcm|].
  pose proof (update_book_scenes_spec farm_config "book_01_courage"
                [scene_on_page 7 "The end"] Hcm) as H.
  change (get_book farm_config "book_01_courage")
    with (Some (Book.from_dict "book_01_courage" courage_data)) in H.
  cbv iota in H.
  destruct H as (Hflag & b' & Hget & Hscenes & _ & Htitle & _).
  split; [exact Hflag|]. exists b'.
  split; [exact Hget|]. split; [exact Hscenes | exact Htitle].
Defined.

(** ** Style presets *)

(** The presets of a manager are those of its document. *)
Lemma configured_presets ok cm :
  configured ok cm ->
  _style_presets cm = get_or (doc_style_presets (_raw_config cm)) [].
Proof.
  induction 1 as [path raw Hok | cm style _ IH | cm cid data _ IH
                 | cm cid updates _ IH | cm sid name prompt _ IH
                 | cm bid scenes _ IH]; try exact IH; try reflexivity.
  - unfold set_active_style. now destruct (dict_in style (_style_presets cm)).
  - unfold update_character.
    now destruct (dict_get cid (get_or (doc_characters (_raw_config cm)) [])).
  - unfold update_book_scenes.
    now destruct (dict_get bid (get_or (doc_books (_raw_config cm)) [])).
Qed.

(** X6: a preset added with [add_style_preset] shows in [list_styles] with
    its id and name, gives its prompt to [get_style_prompt], and can be
    activated: [set_active_style] then returns true and the active style
    prompt is the prompt of the preset.  Adding it changes neither the
    active style nor the prompt of any other preset, and [list_styles]
    always has one entry per preset, in order, under the id of the preset. *)
Theorem added_style_is_usable cm style_id name prompt :
  configured any_document cm ->
  get_style_prompt (add_style_preset cm style_id name prompt) style_id = prompt /\
  In (style_info style_id {| style_name := Some name; style_prompt := Some prompt |})
     (list_styles (add_style_preset cm style_id name prompt)) /\
  snd (set_active_style (add_style_preset cm style_id name prompt) style_id) = true /\
  active_style_prompt
    (fst (set_active_style (add_style_preset cm style_id name prompt) style_id))
  = prompt /\
  (forall other,
     other <> style_id ->
     get_style_prompt (add_style_preset cm style_id name prompt) other
     = get_style_prompt cm other) /\
  active_style (add_style_preset cm style_id name prompt) = active_style cm /\
  map (dict_get "id") (list_styles (add_style_preset cm style_id name prompt))
  = map Some (dict_keys (style_presets (add_style_preset cm style_id name prompt))).
Proof.
  intros H. pose proof (configured_presets _ _ H) as Halias.
  set (preset := {| style_name := Some name; style_prompt := Some prompt |}).
  set (presets := dict_set style_id preset (get_or (doc_style_presets (_raw_config cm)) [])).
  assert (Hget : dict_get style_id presets = Some preset) by apply dict_get_set_eq.
  split; [|split; [|split; [|split; [|split; [|split]]]]].
  - unfold get_style_prompt, add_style_preset. simpl. fold preset presets.
    now rewrite Hget.
  - unfold list_styles, add_style_preset. simpl. fold preset presets.
    apply dict_get_In in Hget.
    exact (in_map (fun kv => style_info (fst kv) (snd kv)) _ _ Hget).
  - unfold set_active_style, dict_in, add_style_preset. simpl. fold preset presets.
    now rewrite Hget.
  - unfold set_active_style, dict_in, add_style_preset. simpl. fold preset presets.
    rewrite Hget. unfold active_style_prompt, active_style, get_style_prompt. simpl.
    now rewrite Hget.
  - intros other Hne. unfold get_style_prompt, add_style_preset. simpl.
    fold preset presets. unfold presets.
    rewrite dict_get_set_ne by congruence. now rewrite Halias.
  - reflexivity.
  - unfold list_styles, style_presets, dict_keys. rewrite !map_map.
    apply map_ext. now intros [k p].
Qed.

Lemma added_style_is_usable_witness :
  configured any_document farm_config /\
  active_style_prompt
    (fst (set_active_style (add_style_preset farm_config "ink" "Ink" "black ink lines")
            "ink"))
  = "black ink lines" /\
  get_style_prompt (add_style_preset farm_config "ink" "Ink" "black ink lines") "pixar"
  = get_style_prompt farm_config "pixar".
Proof.
  assert (Hcm : configured any_document farm_config) by (apply cf_load; exact I).
  split; [exact Hcm|].
  destruct (added_style_is_usable farm_config "ink" "Ink" "black ink lines" Hcm)
    as (_ & _ & _ & Hactive & Hother & _).
  split; [exact Hactive|]. apply Hother. discriminate.
Defined.

(** ** Books *)

Lemma insert_by_perm {A} (key : A -> Z) (x : A) (l : list A) :
  Permutation (insert_by key x l) (x :: l).
Proof.
  induction l as [|y l IH]; simpl; [reflexivity|].
  destruct (key x <=? key y)%Z; [reflexivity|].
  rewrite IH. apply perm_swap.
Qed.

Lemma sorted_perm {A} (key : A -> Z) (l : list A) : Permutation (sorted key l) l.
Proof.
  induction l as [|x l IH]; simpl; [reflexivity|].
  rewrite insert_by_perm. now constructor.
Qed.

Lemma insert_by_sorted {A} (key : A -> Z) (x : A) (l : list A) :
  StronglySorted (fun a b => (key a <= key b)%Z) l ->
  StronglySorted (fun a b => (key a <= key b)%Z) (insert_by key x l).
Proof.
  induction 1 as [|y l Hs IH Hy]; simpl; [repeat constructor|].
  destruct (key x <=? key y)%Z eqn:E.
  - apply Z.leb_le in E. constructor; [now constructor|].
    constructor; [assumption|].
    eapply List.Forall_impl; [|exact Hy]. intros b Hb. simpl in Hb. lia.
  - apply Z.leb_gt in E. constructor; [assumption|].
    apply (Permutation_Forall (x := x :: l)); [symmetry; apply insert_by_perm|].
    constructor; [lia | assumption].
Qed.

Lemma sorted_sorted {A} (key : A -> Z) (l : list A) :
  StronglySorted (fun a b => (key a <= key b)%Z) (sorted key l).
Proof.
  induction l as [|x l IH]; simpl; [constructor | now apply insert_by_sorted].
Qed.

Lemma insert_by_filter {A} (key : A -> Z) (n : Z) (x : A) (l : list A) :
  List.filter (fun b => (key b =? n)%Z) (insert_by key x l)
  = List.filter (fun b => (key b =? n)%Z) (x :: l).
Proof.
  induction l as [|y l IH]; simpl; [reflexivity|].
  destruct (key x <=? key y)%Z eqn:E; [reflexivity|].
  apply Z.leb_gt in E. simpl in *. rewrite IH.
  destruct (key x =? n)%Z eqn:Ex; [|reflexivity].
  apply Z.eqb_eq in Ex.
  destruct (key y =? n)%Z eqn:Ey; [|reflexivity].
  apply Z.eqb_eq in Ey. lia.
Qed.

Lemma sorted_stable {A} (key : A -> Z) (n : Z) (l : list A) :
  List.filter (fun b => (key b =? n)%Z) (sorted key l)
  = List.filter (fun b => (key b =? n)%Z) l.
Proof.
  induction l as [|x l IH]; simpl; [reflexivity|].
  rewrite insert_by_filter. simpl. now rewrite IH.
Qed.

(** X7: [list_books] shows every book of the manager once, by ascending
    book number, and books with the same number in the order they have in
    the configuration. *)
Theorem list_books_ordered cm :
  exists ordered,
    list_books cm = map book_info ordered /\
    StronglySorted (fun a b => (Book.book_number a <= Book.book_number b)%Z) ordered /\
    Permutation ordered (dict_values (_books cm)) /\
    (forall n,
       List.filter (fun b => (Book.book_number b =? n)%Z) ordered
       = List.filter (fun b => (Book.book_number b =? n)%Z) (dict_values (_books cm))).
Proof.
  exists (sorted Book.book_number (dict_values (_books cm))).
  split; [reflexivity|]. split; [apply sorted_sorted|].
  split; [apply sorted_perm|]. intros n. apply sorted_stable.
Qed.

(** X8: [get_book_characters] of an unknown book is empty; of a known
    book it is the characters found under the id of the featured character
    and the ids of the supporting ones, in that order, an id that names no
    character being skipped: the ids that name a character and the result
    go together one by one, each entry of the result being the character
    [get_character] finds under its id. *)
Theorem book_characters_known cm book_id :
  match get_book cm book_id with
  | None => get_book_characters cm book_id = []
  | Some book =>
      Forall2 (fun cid c => get_character cm cid = Some c)
        (List.filter (fun cid => dict_in cid (_characters cm))
           (Book.featured_character book :: Book.supporting_characters book))
        (get_book_characters cm book_id)
  end.
Proof.
  unfold get_book_characters. destruct (get_book cm book_id) as [book|]; [|reflexivity].
  induction (Book.featured_character book :: Book.supporting_characters book)
    as [|cid ids IH]; simpl; [constructor|].
  unfold dict_in, get_character in *.
  destruct (dict_get cid (_characters cm)) as [c|] eqn:E; simpl; [|exact IH].
  constructor; [exact E | exact IH].
Qed.

Example book_characters_of_courage :
  get_book_characters farm_with_gus "book_01_courage"
  = [Character.from_dict "barnaby_bunny" barnaby_data].
Proof. reflexivity. Qed.

(** ** Image settings *)

(** The ratio types [get_ratio] knows. *)
Lemma get_ratio_known (s : ImageSettings) (ratio_type : string) :
  get_ratio s ratio_type
  = get_or (dict_get
              (if String.eqb ratio_type "hero" then hero_shot_ratio s
               else if String.eqb ratio_type "scene" then scene_ratio s
               else if String.eqb ratio_type "cover" then cover_ratio s
               else if String.eqb ratio_type "group" then group_shot_ratio s
               else default_aspect_ratio s)
              (aspect_ratios s)) "1:1".
Proof.
  unfold get_ratio. cbn [dict_get].
  destruct (String.eqb ratio_type "hero"); [reflexivity|].
  destruct (String.eqb ratio_type "scene"); [reflexivity|].
  destruct (String.eqb ratio_type "cover"); [reflexivity|].
  destruct (String.eqb ratio_type "group"); [reflexivity|].
  now destruct (String.eqb ratio_type "default").
Qed.

(** X9: [get_ratio] returns the entry the table of aspect ratios has
    under the ratio name of the type, and "1:1" when the table has no entry
    under that name; a ratio type other than "hero", "scene", "cover" and
    "group" is answered as "default" is.  With a document that gives the
    table only, the names are those [_parse_config] falls back on:
    "landscape" for scenes and group shots, "portrait" for covers and
    "square" for hero shots and every other type; and without image
    settings every type is answered "1:1", the table being empty. *)
Theorem get_ratio_fallback (s : ImageSettings) (ratio_type : string) :
  (forall r,
     dict_get (ratio_name s ratio_type) (aspect_ratios s) = Some r ->
     get_ratio s ratio_type = r) /\
  (dict_get (ratio_name s ratio_type) (aspect_ratios s) = None ->
   get_ratio s ratio_type = "1:1") /\
  get_ratio s ratio_type
  = get_ratio s (if existsb (String.eqb ratio_type) ["hero"; "scene"; "cover"; "group"]
                 then ratio_type else "default") /\
  (forall table,
     get_ratio (parse_image_settings (Some (table_only table))) ratio_type
     = get_or (dict_get
                 (if String.eqb ratio_type "scene" || String.eqb ratio_type "group"
                  then "landscape"
                  else if String.eqb ratio_type "cover" then "portrait"
                  else "square")
                 table) "1:1") /\
  (forall path,
     option_map (fun settings => get_ratio settings ratio_type)
       (_image_settings (_parse_config path empty_document))
     = Some "1:1").
Proof.
  split; [|split; [|split; [|split]]].
  - intros r E. rewrite get_ratio_known. fold (ratio_name s ratio_type). now rewrite E.
  - intros E. rewrite get_ratio_known. fold (ratio_name s ratio_type). now rewrite E.
  - rewrite !get_ratio_known. cbn [existsb].
    destruct (String.eqb_spec ratio_type "hero") as [->|]; [reflexivity|].
    destruct (String.eqb_spec ratio_type "scene") as [->|]; [reflexivity|].
    destruct (String.eqb_spec ratio_type "cover") as [->|]; [reflexivity|].
    destruct (String.eqb_spec ratio_type "group") as [->|]; reflexivity.
  - intros table. rewrite get_ratio_known. simpl.
    destruct (String.eqb ratio_type "hero") eqn:Hh.
    { apply String.eqb_eq in Hh as ->. reflexivity. }
    destruct (String.eqb ratio_type "scene"); [reflexivity|].
    destruct (String.eqb ratio_type "cover") eqn:Hc.
    { apply String.eqb_eq in Hc as ->. reflexivity. }
    now destruct (String.eqb ratio_type "group").
  - intros path. simpl. now rewrite get_ratio_known.
Qed.

Example get_ratio_of_a_table :
  let s := parse_image_settings
             (Some (table_only [("square", "1:1"); ("landscape", "16:9"); ("portrait", "3:4")])) in
  map (get_ratio s) ["hero"; "scene"; "cover"; "group"; "default"; "poster"]
  = ["1:1"; "16:9"; "3:4"; "16:9"; "1:1"; "1:1"].
Proof. reflexivity. Qed.

(* ===================================================================== *)
(** * Values by dotted path                                               *)
(* ===================================================================== *)

Lemma str_split_cons (sep : ascii) (s : string) :
  exists p ps, str_split sep s = p :: ps.
Proof.
  induction s as [|c s (p & ps & IH)]; simpl; [now eexists _, _|].
  destruct (Ascii.eqb c sep); [now eexists _, _|].
  rewrite IH. now eexists _, _.
Qed.

Lemma str_concat_cons (sep x y : string) (l : list string) :
  String.concat sep (x :: y :: l) = x +:+ sep +:+ String.concat sep (y :: l).
Proof. reflexivity. Qed.

(** The keys of a path are its parts between the separators. *)
Lemma str_join_split (sep : ascii) (s : string) :
  str_join (String sep "") (str_split sep s) = s.
Proof.
  unfold str_join. induction s as [|c s IH]; [reflexivity|].
  cbn [str_split]. destruct (str_split_cons sep s) as (p & ps & E).
  rewrite E in *. destruct (Ascii.eqb_spec c sep) as [->|Hne].
  - rewrite str_concat_cons, IH. reflexivity.
  - destruct ps as [|q qs].
    + simpl in *. now rewrite IH.
    + rewrite str_concat_cons in *. rewrite <- IH. reflexivity.
Qed.

Lemma get_path_set_path (keys : list string) (value : json) :
  forall config config' default,
    set_path keys value config = Some config' ->
    get_path keys config' default = value.
Proof.
  induction keys as [|key rest IH]; intros config config' default; [discriminate|].
  cbn [set_path]. destruct config as [| | | | | |d]; try discriminate.
  destruct rest as [|key2 rest].
  - intros [= <-]. cbn [get_path]. now rewrite dict_get_set_eq.
  - destruct (set_path (key2 :: rest) value (get_or (dict_get key d) (JDict [])))
      as [child|] eqn:E; [|discriminate].
    intros [= <-]. cbn [get_path]. rewrite dict_get_set_eq.
    fold (get_path (key2 :: rest) child default). now apply (IH _ _ _ E).
Qed.

Lemma get_path_empty (keys : list string) (default : json) :
  keys <> [] -> get_path keys (JDict []) default = default.
Proof. now destruct keys. Qed.

(** A path that leaves the assigned one at some key sees what it saw. *)
Lemma get_path_set_path_other (l : list string) (a b : string) (r1 r2 : list string)
  (value : json) :
  a <> b ->
  forall config config' default,
    set_path (l ++ a :: r1) value config = Some config' ->
    get_path (l ++ b :: r2) config' default = get_path (l ++ b :: r2) config default.
Proof.
  intros Hne. induction l as [|k l IH]; intros config config' default.
  - cbn [app set_path]. destruct config as [| | | | | |d]; try discriminate.
    assert (Hset : forall x, get_path (b :: r2) (JDict (dict_set a x d)) default
                             = get_path (b :: r2) (JDict d) default).
    { intros x. cbn [get_path]. now rewrite dict_get_set_ne. }
    destruct r1 as [|k1 r1]; [now intros [= <-]|].
    destruct (set_path (k1 :: r1) value (get_or (dict_get a d) (JDict [])));
      [now intros [= <-] | discriminate].
  - change ((k :: l) ++ a :: r1) with (k :: (l ++ a :: r1)).
    change ((k :: l) ++ b :: r2) with (k :: (l ++ b :: r2)).
    cbn [set_path]. destruct config as [| | | | | |d]; try discriminate.
    destruct (l ++ a :: r1) as [|k1 rest1] eqn:E1; [now destruct l|].
    destruct (set_path (k1 :: rest1) value (get_or (dict_get k d) (JDict [])))
      as [child|] eqn:E; [|discriminate].
    intros [= <-]. cbn [get_path]. rewrite dict_get_set_eq.
    rewrite (IH _ _ default E).
    destruct (dict_get k d) as [x|]; [reflexivity|].
    simpl get_or. apply get_path_empty. now destruct l.
Qed.

Lemma set_path_empty (keys : list string) (value : json) :
  keys <> [] -> exists config', set_path keys value (JDict []) = Some config'.
Proof.
  induction keys as [|key rest IH]; intros H; [congruence|].
  cbn [set_path]. destruct rest as [|key2 rest]; [now eexists|].
  cbn [dict_get get_or]. destruct IH as [child ->]; [discriminate|]. now eexists.
Qed.

Lemma assigned_set_path raw key_path value raw' :
  assigned (set_value raw key_path value) = Some raw' <->
  set_path (str_split "." key_path) value raw = Some raw'.
Proof.
  unfold set_value.
  destruct (set_path (str_split "." key_path) value raw) as [r|]; simpl; [|tauto].
  now destruct (parses r).
Qed.

(** An assignment under a key that [_parse_config] does not read leaves the
    parse as it was. *)
Lemma parses_set_other (d : list (string * json)) (key : string) (x : json) :
  key <> "characters" -> key <> "locations" -> key <> "books" ->
  key <> "image_settings" ->
  parses (JDict (dict_set key x d)) = parses (JDict d).
Proof.
  intros H1 H2 H3 H4. unfold parses, section_parses.
  now rewrite !dict_get_set_ne by congruence.
Qed.

Lemma set_path_first (key : string) (rest : list string) (value : json)
  (d : list (string * json)) (raw' : json) :
  set_path (key :: rest) value (JDict d) = Some raw' ->
  exists x, raw' = JDict (dict_set key x d).
Proof.
  cbn [set_path]. destruct rest as [|key2 rest].
  - intros [= <-]. now eexists.
  - destruct (set_path (key2 :: rest) value (get_or (dict_get key d) (JDict [])));
      [|discriminate].
    intros [= <-]. now eexists.
Qed.

(** X10: [set_value] either raises in the walk and leaves the document as
    it was, or assigns and then parses the document again.  After it has
    assigned a value at a dotted path, whether the parse then runs through
    or raises, [get_value] returns that value at the path, whatever the
    default, and a path that leaves the assigned path at some key reads
    what it read before.  The assignment is made on a dictionary that lacks
    the first key of the path, the missing dictionaries being created.
    The call returns exactly when it has assigned and the parse runs through
    on the document it leaves; on a document that parsed before, that is
    the case for every path whose first key is none of "characters",
    "locations", "books" and "image_settings".  The keys that both
    functions walk are the parts of the path between the dots. *)
Theorem set_value_then_get_value raw key_path value :
  (forall raw' default,
     assigned (set_value raw key_path value) = Some raw' ->
     get_value raw' key_path default = value) /\
  (forall raw' other default l a b r1 r2,
     assigned (set_value raw key_path value) = Some raw' ->
     str_split "." key_path = l ++ a :: r1 ->
     str_split "." other = l ++ b :: r2 ->
     a <> b ->
     get_value raw' other default = get_value raw other default) /\
  (forall entries key rest,
     raw = JDict entries ->
     str_split "." key_path = key :: rest ->
     dict_get key entries = None ->
     exists raw', assigned (set_value raw key_path value) = Some raw') /\
  (forall raw',
     set_value raw key_path value = Assigned raw' <->
     assigned (set_value raw key_path value) = Some raw' /\ parses raw' = true) /\
  (forall raw' key rest,
     assigned (set_value raw key_path value) = Some raw' ->
     parses raw = true ->
     str_split "." key_path = key :: rest ->
     key <> "characters" -> key <> "locations" -> key <> "books" ->
     key <> "image_settings" ->
     set_value raw key_path value = Assigned raw') /\
  str_join "." (str_split "." key_path) = key_path.
Proof.
  split; [|split; [|split; [|split; [|split]]]].
  - intros raw' default Hset%assigned_set_path. unfold get_value.
    now apply (get_path_set_path _ value raw).
  - intros raw' other default l a b r1 r2 Hset%assigned_set_path Hp Ho Hne.
    unfold get_value. rewrite Hp in Hset. rewrite Ho.
    now apply (get_path_set_path_other l a b r1 r2 value).
  - intros entries key rest -> Hp Hnew.
    assert (H : exists raw', set_path (str_split "." key_path) value (JDict entries)
                             = Some raw').
    { rewrite Hp. cbn [set_path].
      destruct rest as [|key2 rest]; [now eexists|].
      rewrite Hnew. cbn [get_or].
      destruct (set_path_empty (key2 :: rest) value) as [child ->]; [discriminate|].
      now eexists. }
    destruct H as [raw' H]. exists raw'. now apply assigned_set_path.
  - intros raw'. unfold set_value.
    destruct (set_path (str_split "." key_path) value raw) as [r|]; simpl.
    + destruct (parses r) eqn:Hr; simpl; split.
      * intros [= <-]. now split.
      * now intros [[= <-] _].
      * discriminate.
      * intros [[= <-] H]. congruence.
    + split; [discriminate | now intros [? _]].
  - intros raw' key rest Hset%assigned_set_path Hparsed Hp H1 H2 H3 H4.
    unfold set_value. rewrite Hset. rewrite Hp in Hset.
    destruct raw as [| | | | | |d]; try discriminate.
    destruct (set_path_first _ _ _ _ _ Hset) as [x ->].
    now rewrite parses_set_other, Hparsed.
  - apply str_join_split.
Qed.

Lemma set_value_then_get_value_witness :
  let raw := JDict [("api", JDict [("model", JString "fal-ai/flux-pro/kontext")]);
                    ("characters", JDict [("barnaby_bunny", JDict [])])] in
  exists raw',
    set_value raw "api.defaults.num_inference_steps" (JInt 30) = Assigned raw' /\
    get_value raw' "api.defaults.num_inference_steps" JNull = JInt 30 /\
    get_value raw' "api.model" JNull = get_value raw "api.model" JNull /\
    (exists raw2, set_value raw "paths.output" (JString "./out") = Assigned raw2) /\
    (exists raw3,
       set_value raw "characters.gus_goat" (JString "oops") = AssignedUnparsed raw3 /\
       get_value raw3 "characters.gus_goat" JNull = JString "oops").
Proof.
  intros raw.
  destruct (set_value_then_get_value raw "api.defaults.num_inference_steps" (JInt 30))
    as (Hget & Hother & _ & _ & Hret & _).
  destruct (set_value_then_get_value raw "paths.output" (JString "./out"))
    as (_ & _ & Hnew & _ & Hret2 & _).
  destruct (set_value_then_get_value raw "characters.gus_goat" (JString "oops"))
    as (Hget3 & _).
  eexists. split; [|split; [|split; [|split]]].
  - apply (Hret _ "api" ["defaults"; "num_inference_steps"]);
      [reflexivity | reflexivity | reflexivity | discriminate..].
  - apply Hget. reflexivity.
  - apply (Hother _ "api.model" JNull ["api"] "defaults" "model"
             ["num_inference_steps"] []); [reflexivity.. | discriminate].
  - destruct (Hnew _ "paths" ["output"] eq_refl eq_refl eq_refl) as [raw2 H2].
    exists raw2.
    apply (Hret2 _ "paths" ["output"]);
      [exact H2 | reflexivity | reflexivity | discriminate..].
  - eexists. split; [reflexivity|]. apply Hget3. reflexivity.
Defined.

(* ===================================================================== *)
(** * What the operations leave alone                                     *)
(* ===================================================================== *)

(** A property of the state that the synthesis call, the resolution of the
    references in use and, when persistence is on, the saving steps keep, is
    kept by every operation. *)
Section Frame.

Variable fb : string -> string -> dict string -> string -> fmt_result.
Variable w : World.
Variable cm : ConfigManager.
Variable s2d : bool.
Variable I : EngineState -> Prop.
Variable good : string -> Prop.

Hypothesis keep_request :
  forall prompt ref, preserves I (_call_api w cm prompt ref None None).
Hypothesis keep_resolve :
  forall p, good p -> preserves I (_upload_image w p false).
Hypothesis keep_mkdir :
  s2d = true -> forall path, preserves I (mkdir w path).
Hypothesis keep_save :
  s2d = true ->
  forall url path save_prompt prompt,
    preserves I (_save_image w cm url path save_prompt prompt).

Lemma keep_now : preserves I (now w).
Proof. now intros st. Qed.

Lemma keep_timestamp fmt : preserves I (timestamp w fmt).
Proof. now intros st. Qed.

Lemma keep_first_image_url result : preserves I (first_image_url result).
Proof.
  unfold first_image_url. destruct (images result) as [[|[url|] rest]|];
    first [apply preserves_ret | apply preserves_raise].
Qed.

Lemma keep_jpg_name out (default : M string) :
  preserves I default -> preserves I (jpg_name out default).
Proof. intros H. unfold jpg_name. destruct (truthy out); [apply preserves_ret | exact H]. Qed.

Lemma keep_optional_reference ref :
  reference_ok good ref -> preserves I (optional_reference w ref).
Proof.
  intros Hok. unfold optional_reference. destruct (truthy ref) as [r|] eqn:E.
  - apply preserves_bind; [now apply keep_resolve, Hok|].
    intros u. apply preserves_ret.
  - apply preserves_ret.
Qed.

Ltac keep :=
  repeat first
    [ apply preserves_ret | apply preserves_raise | apply preserves_lift
    | apply keep_now | apply keep_timestamp | apply keep_first_image_url
    | apply keep_request
    | apply keep_mkdir; assumption
    | apply keep_save; assumption
    | apply keep_jpg_name
    | apply preserves_bind; [|intros ?]
    | apply preserves_try; [|intros ?] ].

Lemma keep_hero_persist cid out prompt url :
  s2d = true -> preserves I (hero_persist w cm cid out prompt url).
Proof. intros H. unfold hero_persist, _ensure_directory. keep. Qed.

Lemma keep_group_persist ids out prompt url :
  s2d = true -> preserves I (group_persist w cm ids out prompt url).
Proof. intros H. unfold group_persist, _ensure_directory. keep. Qed.

Lemma keep_scene_persist sp out prompt url :
  s2d = true -> preserves I (scene_persist w cm sp out prompt url).
Proof. intros H. unfold scene_persist, _ensure_directory. keep. Qed.

Lemma keep_cover_persist bid out prompt url :
  s2d = true -> preserves I (cover_persist w cm bid out prompt url).
Proof. intros H. unfold cover_persist, _ensure_directory. keep. Qed.

(** The part of [finish] that follows the synthesis call. *)
Lemma keep_packaging start prompt (persist : string -> M string) meta result :
  (s2d = true -> forall url, preserves I (persist url)) ->
  preserves I
    (url <- first_image_url result ;;
     t <- now w ;;
     saved_path <- (if s2d then (p <- persist url ;; ret (Some p)) else ret None) ;;
     ret {| success := true; output_path := saved_path; image_url := Some url;
            prompt_used := prompt; error := None; cost := cost_per_image cm;
            generation_time := t - start; metadata := meta |}).
Proof.
  intros Hpersist. keep.
  destruct s2d; keep. now apply Hpersist.
Qed.

Lemma keep_finish start prompt ref (persist : string -> M string) meta :
  (s2d = true -> forall url, preserves I (persist url)) ->
  preserves I (finish w cm s2d start prompt ref persist meta).
Proof.
  intros Hpersist. unfold finish.
  apply preserves_bind; [apply keep_request|].
  intros result. now apply keep_packaging.
Qed.

Ltac keep_op :=
  repeat first
    [ apply preserves_ret | apply preserves_raise | apply preserves_lift
    | apply keep_now
    | apply keep_optional_reference; assumption
    | apply keep_resolve; assumption
    | apply keep_finish; intros ? ?
    | apply keep_hero_persist; assumption
    | apply keep_group_persist; assumption
    | apply keep_scene_persist; assumption
    | apply keep_cover_persist; assumption
    | apply preserves_bind; [|intros ?]
    | apply preserves_try; [|intros ?] ].

Lemma keep_hero cid ref loc custom out :
  reference_ok good ref ->
  preserves I (generate_hero_shot fb w cm s2d cid ref loc custom out).
Proof.
  intros Hok. unfold generate_hero_shot.
  apply preserves_bind; [apply keep_now|]. intros start.
  destruct (get_character cm cid); [|apply preserves_ret].
  unfold hero_attempt. keep_op.
Qed.

Lemma keep_group ids ref loc custom out :
  reference_ok good ref ->
  preserves I (generate_group_shot fb w cm s2d ids ref loc custom out).
Proof.
  intros Hok. unfold generate_group_shot.
  apply preserves_bind; [apply keep_now|]. intros start.
  destruct (resolve_characters cm ids); [apply preserves_ret|].
  unfold group_attempt. keep_op.
Qed.

Lemma keep_scene sp ids ref loc out notes :
  good ref ->
  preserves I (generate_scene fb w cm s2d sp ids ref loc out notes).
Proof. intros Hok. unfold generate_scene, scene_attempt. keep_op. Qed.

Lemma keep_cover bid ref custom out :
  good ref ->
  preserves I (generate_cover fb w cm s2d bid ref custom out).
Proof.
  intros Hok. unfold generate_cover.
  apply preserves_bind; [apply keep_now|]. intros start.
  destruct (get_book cm bid) as [book|]; [|apply preserves_ret].
  destruct (get_character cm (Book.featured_character book)); [|apply preserves_ret].
  unfold cover_attempt. keep_op.
Qed.

(** The batches also sleep, and a book also creates its directory. *)
Hypothesis keep_sleep : forall d, preserves I (sleep d).

Lemma keep_all_heroes ref ids :
  reference_ok good ref ->
  preserves I (generate_all_hero_shots fb w cm s2d ref ids).
Proof.
  intros Hok. unfold generate_all_hero_shots.
  apply preserves_for_enumerate. intros i cid.
  apply preserves_bind; [now apply keep_hero|]. intros r.
  apply preserves_bind; [|intros ?; apply preserves_ret].
  destruct (i <? _)%nat; [apply keep_sleep | apply preserves_ret].
Qed.

(** What a book generation does once its directory is there. *)
Lemma keep_book_items bid ref (include_cover : bool) book scenes :
  good ref ->
  preserves I
    (cover_results <-
       (if include_cover then book_cover_step fb w cm s2d bid ref else ret []) ;;
     scene_results <-
       for_enumerate (book_scene_step fb w cm s2d bid ref book (length scenes)) 1 scenes ;;
     ret (cover_results ++ scene_results)).
Proof.
  intros Hok. apply preserves_bind.
  - destruct include_cover; [|apply preserves_ret].
    unfold book_cover_step.
    apply preserves_bind; [now apply keep_cover|]. intros r.
    apply preserves_bind; [apply keep_sleep | intros ?; apply preserves_ret].
  - intros cover_results. apply preserves_bind; [|intros ?; apply preserves_ret].
    apply preserves_for_enumerate. intros i scene. unfold book_scene_step.
    apply preserves_bind; [now apply keep_scene|]. intros r.
    apply preserves_bind; [|intros ?; apply preserves_ret].
    destruct (i <? _)%nat; [apply keep_sleep | apply preserves_ret].
Qed.

Lemma keep_book bid ref include_cover range :
  good ref ->
  (forall path, preserves I (mkdir w path)) ->
  preserves I (generate_book fb w cm s2d bid ref include_cover range).
Proof.
  intros Hok Hmk. unfold generate_book.
  destruct (get_book cm bid) as [book|]; [|apply preserves_ret].
  destruct (Book.scenes book) as [|s ss]; [apply preserves_ret|].
  apply preserves_bind.
  - unfold _ensure_directory.
    apply preserves_bind; [apply Hmk | intros ?; apply preserves_ret].
  - intros dir. now apply keep_book_items.
Qed.

End Frame.

(** ** Logging an event, creating files *)

Lemma filter_log (p : event -> bool) (e : event) (st : EngineState) :
  p e = false -> List.filter p (events (log e st)) = List.filter p (events st).
Proof.
  intros H. unfold log. simpl. rewrite List.filter_app. simpl. rewrite H.
  apply app_nil_r.
Qed.

Lemma upload_calls_log e st : is_upload e = false -> upload_calls (log e st) = upload_calls st.
Proof. intros H. unfold upload_calls. now rewrite filter_log. Qed.

Lemma requests_log e st : is_subscribe e = false -> requests (log e st) = requests st.
Proof. intros H. unfold requests. now rewrite filter_log. Qed.

(** A property of the state that no step other than the synthesis call and
    the resolution of a reference can break: it looks at the log and at the
    disk only to see them grow. *)
Section Ledger.

Variable w : World.
Variable cm : ConfigManager.
Variable I : EngineState -> Prop.

Hypothesis I_log :
  forall e st, is_upload e = false -> is_subscribe e = false -> I st -> I (log e st).
Hypothesis I_create : forall ps st, I st -> I (create ps st).

Lemma ledger_download url : preserves I (download w url).
Proof. intros st H. now apply I_log. Qed.

Lemma ledger_mkdir path : preserves I (mkdir w path).
Proof.
  intros st H. unfold mkdir. destruct (mkdir_fault w (events st) path); simpl;
    [assumption|]. now apply I_log, I_create.
Qed.

Lemma ledger_write path data : preserves I (write w path data).
Proof.
  intros st H. unfold write. destruct (write_fault w (events st) path); simpl;
    [assumption|]. now apply I_log, I_create.
Qed.

Lemma ledger_sleep d : preserves I (sleep d).
Proof.
  intros st H. unfold sleep. destruct (Qle_bool 0 d); simpl; [|assumption].
  now apply I_log.
Qed.

Lemma ledger_save url path save_prompt prompt :
  preserves I (_save_image w cm url path save_prompt prompt).
Proof.
  unfold _save_image.
  apply preserves_bind; [apply ledger_download|]. intros data.
  apply preserves_bind; [apply ledger_mkdir|]. intros ?.
  apply preserves_bind; [apply ledger_write|]. intros ?.
  apply preserves_bind; [|intros ?; apply preserves_ret].
  destruct (_ && _ && _); [apply ledger_write | apply preserves_ret].
Qed.

End Ledger.

(* ===================================================================== *)
(** * A reference that is resolved is not uploaded again                  *)
(* ===================================================================== *)

Section Uploads.

Variable w : World.
Variable cm : ConfigManager.
Variable n : nat.
Variable cache : gmap string string.

Lemma uploads_log e st :
  is_upload e = false -> uploads_are n cache st -> uploads_are n cache (log e st).
Proof. intros He [H1 H2]. split; [now rewrite upload_calls_log | exact H2]. Qed.

Lemma uploads_create ps st : uploads_are n cache st -> uploads_are n cache (create ps st).
Proof. now intros [H1 H2]. Qed.

Lemma uploads_request prompt ref :
  preserves (uploads_are n cache) (_call_api w cm prompt ref None None).
Proof. intros st H. now apply (uploads_log (EvSubscribe _ _)). Qed.

Lemma uploads_resolve p :
  resolved cache p -> preserves (uploads_are n cache) (_upload_image w p false).
Proof.
  intros Hp st [H1 H2]. rewrite upload_image_cases.
  destruct (startswith p "http") eqn:E; [now split|].
  destruct Hp as [Hp|[url Hp]]; [congruence|].
  rewrite H2, Hp. now split.
Qed.

End Uploads.

Lemma truthy_Some (s r : string) : truthy (Some s) = Some r -> r = s.
Proof. destruct s; [discriminate | now intros [= <-]]. Qed.

Lemma reference_ok_Some (good : string -> Prop) (ref : string) :
  good ref -> reference_ok good (Some ref).
Proof. intros H r Hr. apply truthy_Some in Hr. now subst. Qed.

Lemma reference_ok_any (ref : option string) : reference_ok (fun _ => True) ref.
Proof. now intros r _. Qed.

Section UploadsKept.

Variable fb : string -> string -> dict string -> string -> fmt_result.
Variable w : World.
Variable cm : ConfigManager.
Variable s2d : bool.
Variable n : nat.
Variable cache : gmap string string.

Lemma uploads_mkdir path : preserves (uploads_are n cache) (mkdir w path).
Proof.
  apply ledger_mkdir; [intros e st He _; now apply uploads_log | apply uploads_create].
Qed.

Lemma uploads_save url path save_prompt prompt :
  preserves (uploads_are n cache) (_save_image w cm url path save_prompt prompt).
Proof.
  apply ledger_save; [intros e st He _; now apply uploads_log | apply uploads_create].
Qed.

Lemma uploads_sleep d : preserves (uploads_are n cache) (sleep d).
Proof.
  apply ledger_sleep. intros e st He _. now apply uploads_log.
Qed.

Lemma uploads_hero cid ref loc custom out :
  reference_ok (resolved cache) ref ->
  preserves (uploads_are n cache) (generate_hero_shot fb w cm s2d cid ref loc custom out).
Proof.
  apply keep_hero;
    [apply uploads_request | apply uploads_resolve
    | intros _; apply uploads_mkdir | intros _; apply uploads_save].
Qed.

Lemma uploads_group ids ref loc custom out :
  reference_ok (resolved cache) ref ->
  preserves (uploads_are n cache) (generate_group_shot fb w cm s2d ids ref loc custom out).
Proof.
  apply keep_group;
    [apply uploads_request | apply uploads_resolve
    | intros _; apply uploads_mkdir | intros _; apply uploads_save].
Qed.

Lemma uploads_scene sp ids ref loc out notes :
  resolved cache ref ->
  preserves (uploads_are n cache) (generate_scene fb w cm s2d sp ids ref loc out notes).
Proof.
  apply keep_scene;
    [apply uploads_request | apply uploads_resolve
    | intros _; apply uploads_mkdir | intros _; apply uploads_save].
Qed.

Lemma uploads_cover bid ref custom out :
  resolved cache ref ->
  preserves (uploads_are n cache) (generate_cover fb w cm s2d bid ref custom out).
Proof.
  apply keep_cover;
    [apply uploads_request | apply uploads_resolve
    | intros _; apply uploads_mkdir | intros _; apply uploads_save].
Qed.

Lemma uploads_all_heroes ref ids :
  reference_ok (resolved cache) ref ->
  preserves (uploads_are n cache) (generate_all_hero_shots fb w cm s2d ref ids).
Proof.
  apply keep_all_heroes;
    [apply uploads_request | apply uploads_resolve
    | intros _; apply uploads_mkdir | intros _; apply uploads_save
    | apply uploads_sleep].
Qed.

Lemma uploads_book bid ref include_cover range :
  resolved cache ref ->
  preserves (uploads_are n cache) (generate_book fb w cm s2d bid ref include_cover range).
Proof.
  intros H.
  apply (keep_book fb w cm s2d (uploads_are n cache) (resolved cache));
    [apply uploads_request | apply uploads_resolve
    | intros _; apply uploads_mkdir | intros _; apply uploads_save
    | apply uploads_sleep | exact H | apply uploads_mkdir].
Qed.

End UploadsKept.

(** X11: a reference that is an address, or a path the engine has
    uploaded before, is never uploaded by an operation that uses it: the
    four operations, a batch of hero shots and a whole book leave the number
    of upload calls and the cache as they were, whatever the remote services
    answer. *)
Theorem resolved_reference_not_uploaded fb w cm s2d st ref :
  resolved (_uploaded_images st) ref ->
  (forall cid loc custom out,
     same_uploads st
       (snd (generate_hero_shot fb w cm s2d cid (Some ref) loc custom out st))) /\
  (forall ids loc custom out,
     same_uploads st
       (snd (generate_group_shot fb w cm s2d ids (Some ref) loc custom out st))) /\
  (forall sp ids loc out notes,
     same_uploads st (snd (generate_scene fb w cm s2d sp ids ref loc out notes st))) /\
  (forall bid custom out,
     same_uploads st (snd (generate_cover fb w cm s2d bid ref custom out st))) /\
  (forall ids,
     same_uploads st (snd (generate_all_hero_shots fb w cm s2d (Some ref) ids st))) /\
  (forall bid include_cover range,
     same_uploads st (snd (generate_book fb w cm s2d bid ref include_cover range st))).
Proof.
  intros Href.
  assert (Hst : uploads_are (upload_calls st) (_uploaded_images st) st) by now split.
  pose proof (reference_ok_Some _ _ Href) as Hopt.
  unfold same_uploads.
  split; [|split; [|split; [|split; [|split]]]]; intros.
  - now apply uploads_hero.
  - now apply uploads_group.
  - now apply uploads_scene.
  - now apply uploads_cover.
  - now apply uploads_all_heroes.
  - now apply uploads_book.
Qed.

Lemma resolved_reference_not_uploaded_witness :
  let st := snd (generate_scene no_beyond calm_world farm_config true "Barnaby wakes up"
                   ["barnaby_bunny"] "./reference.jpg" None None ""
                   (fresh_engine reference_disk)) in
  resolved (_uploaded_images st) "./reference.jpg" /\
  upload_calls st = 1%nat /\
  upload_calls (snd (generate_book no_beyond calm_world farm_config true
                       "book_01_courage" "./reference.jpg" true None st)) = 1%nat.
Proof.
  intros st.
  assert (Hcached : _uploaded_images st !! "./reference.jpg"
                    = Some "https://cdn.example/ref0") by (vm_compute; reflexivity).
  assert (Href : resolved (_uploaded_images st) "./reference.jpg").
  { right. rewrite Hcached. now eexists. }
  assert (Hone : upload_calls st = 1%nat) by (vm_compute; reflexivity).
  split; [exact Href|]. split; [exact Hone|].
  destruct (resolved_reference_not_uploaded no_beyond calm_world farm_config true st
              "./reference.jpg" Href) as (_ & _ & _ & _ & _ & Hbook).
  destruct (Hbook "book_01_courage" true None) as [Hcalls _].
  rewrite Hcalls. exact Hone.
Defined.

(* ===================================================================== *)
(** * Persistence switched off                                            *)
(* ===================================================================== *)

Section DiskKept.

Variable fb : string -> string -> dict string -> string -> fmt_result.
Variable w : World.
Variable cm : ConfigManager.
Variable disk : gset string.
Variable evs : list event.

Lemma disk_log e st :
  is_persist e = false -> disk_is disk evs st -> disk_is disk evs (log e st).
Proof. intros He [H1 H2]. split; [exact H1 | now rewrite filter_log]. Qed.

Lemma disk_request prompt ref :
  preserves (disk_is disk evs) (_call_api w cm prompt ref None None).
Proof. intros st H. now apply (disk_log (EvSubscribe _ _)). Qed.

Lemma disk_resolve p : preserves (disk_is disk evs) (_upload_image w p false).
Proof.
  intros st H. rewrite upload_image_cases.
  destruct (startswith p "http"); [assumption|].
  destruct (_uploaded_images st !! p); [assumption|].
  destruct (bool_decide (p ∈ files st)); [|assumption].
  destruct (read_file w (events st) p) as [data|e]; [|assumption].
  destruct (fal_upload w (events st) data) as [url|e];
    now apply (disk_log (EvUpload data)).
Qed.

Lemma disk_hero cid ref loc custom out :
  preserves (disk_is disk evs) (generate_hero_shot fb w cm false cid ref loc custom out).
Proof.
  apply (keep_hero fb w cm false (disk_is disk evs) (fun _ => True));
    [apply disk_request | intros p _; apply disk_resolve
    | discriminate | discriminate | apply reference_ok_any].
Qed.

Lemma disk_group ids ref loc custom out :
  preserves (disk_is disk evs) (generate_group_shot fb w cm false ids ref loc custom out).
Proof.
  apply (keep_group fb w cm false (disk_is disk evs) (fun _ => True));
    [apply disk_request | intros p _; apply disk_resolve
    | discriminate | discriminate | apply reference_ok_any].
Qed.

Lemma disk_scene sp ids ref loc out notes :
  preserves (disk_is disk evs) (generate_scene fb w cm false sp ids ref loc out notes).
Proof.
  apply (keep_scene fb w cm false (disk_is disk evs) (fun _ => True));
    [apply disk_request | intros p _; apply disk_resolve
    | discriminate | discriminate | exact I].
Qed.

Lemma disk_cover bid ref custom out :
  preserves (disk_is disk evs) (generate_cover fb w cm false bid ref custom out).
Proof.
  apply (keep_cover fb w cm false (disk_is disk evs) (fun _ => True));
    [apply disk_request | intros p _; apply disk_resolve
    | discriminate | discriminate | exact I].
Qed.

End DiskKept.

(** X12: with persistence off, the four operations leave the disk as it
    is: whatever their arguments and whatever the remote services answer,
    no directory and no file is created and the produced image is not
    downloaded. *)
Theorem nothing_persisted_when_off fb w cm st :
  (forall cid ref loc custom out,
     same_disk st (snd (generate_hero_shot fb w cm false cid ref loc custom out st))) /\
  (forall ids ref loc custom out,
     same_disk st (snd (generate_group_shot fb w cm false ids ref loc custom out st))) /\
  (forall sp ids ref loc out notes,
     same_disk st (snd (generate_scene fb w cm false sp ids ref loc out notes st))) /\
  (forall bid ref custom out,
     same_disk st (snd (generate_cover fb w cm false bid ref custom out st))).
Proof.
  assert (Hst : disk_is (files st) (List.filter is_persist (events st)) st) by now split.
  unfold same_disk. split; [|split; [|split]]; intros.
  - now apply disk_hero.
  - now apply disk_group.
  - now apply disk_scene.
  - now apply disk_cover.
Qed.

(* ===================================================================== *)
(** * What only grows                                                     *)
(* ===================================================================== *)

(** A property of the state that survives every new event, every created
    file and every cached reference survives every operation. *)
Section Growing.

Variable fb : string -> string -> dict string -> string -> fmt_result.
Variable w : World.
Variable cm : ConfigManager.
Variable s2d : bool.
Variable I : EngineState -> Prop.

Hypothesis I_log : forall e st, I st -> I (log e st).
Hypothesis I_create : forall ps st, I st -> I (create ps st).
Hypothesis I_cache : forall p url st, I st -> I (snd (cache_store p url st)).

Lemma growing_request prompt ref : preserves I (_call_api w cm prompt ref None None).
Proof. intros st H. now apply I_log. Qed.

Lemma growing_resolve p force : preserves I (_upload_image w p force).
Proof.
  intros st H. rewrite upload_image_cases.
  destruct (startswith p "http"); [assumption|].
  destruct (if force then None else _uploaded_images st !! p); [assumption|].
  destruct (bool_decide (p ∈ files st)); [|assumption].
  destruct (read_file w (events st) p) as [data|e]; [|assumption].
  destruct (fal_upload w (events st) data) as [url|e]; [|now apply I_log].
  now apply (I_cache p url (log (EvUpload data) st)), I_log.
Qed.

Lemma growing_mkdir path : preserves I (mkdir w path).
Proof. apply ledger_mkdir; [intros e st _ _; apply I_log | apply I_create]. Qed.

Lemma growing_save url path save_prompt prompt :
  preserves I (_save_image w cm url path save_prompt prompt).
Proof. apply ledger_save; [intros e st _ _; apply I_log | apply I_create]. Qed.

Lemma growing_sleep d : preserves I (sleep d).
Proof. apply ledger_sleep. intros e st _ _. apply I_log. Qed.

Lemma growing_hero cid ref loc custom out :
  preserves I (generate_hero_shot fb w cm s2d cid ref loc custom out).
Proof.
  apply (keep_hero fb w cm s2d I (fun _ => True));
    [ apply growing_request | intros p _; apply growing_resolve
    | intros _; apply growing_mkdir | intros _; apply growing_save
    | apply reference_ok_any ].
Qed.

Lemma growing_group ids ref loc custom out :
  preserves I (generate_group_shot fb w cm s2d ids ref loc custom out).
Proof.
  apply (keep_group fb w cm s2d I (fun _ => True));
    [ apply growing_request | intros p _; apply growing_resolve
    | intros _; apply growing_mkdir | intros _; apply growing_save
    | apply reference_ok_any ].
Qed.

Lemma growing_scene sp ids ref loc out notes :
  preserves I (generate_scene fb w cm s2d sp ids ref loc out notes).
Proof.
  apply (keep_scene fb w cm s2d I (fun _ => True));
    [ apply growing_request | intros p _; apply growing_resolve
    | intros _; apply growing_mkdir | intros _; apply growing_save
    | exact Logic.I ].
Qed.

Lemma growing_cover bid ref custom out :
  preserves I (generate_cover fb w cm s2d bid ref custom out).
Proof.
  apply (keep_cover fb w cm s2d I (fun _ => True));
    [ apply growing_request | intros p _; apply growing_resolve
    | intros _; apply growing_mkdir | intros _; apply growing_save
    | exact Logic.I ].
Qed.

Lemma growing_all_heroes ref ids :
  preserves I (generate_all_hero_shots fb w cm s2d ref ids).
Proof.
  apply (keep_all_heroes fb w cm s2d I (fun _ => True));
    [ apply growing_request | intros p _; apply growing_resolve
    | intros _; apply growing_mkdir | intros _; apply growing_save
    | apply growing_sleep | apply reference_ok_any ].
Qed.

Lemma growing_book_items bid ref (include_cover : bool) book scenes :
  preserves I
    (cover_results <-
       (if include_cover then book_cover_step fb w cm s2d bid ref else ret []) ;;
     scene_results <-
       for_enumerate (book_scene_step fb w cm s2d bid ref book (length scenes)) 1 scenes ;;
     ret (cover_results ++ scene_results)).
Proof.
  apply (keep_book_items fb w cm s2d I (fun _ => True));
    [ apply growing_request | intros p _; apply growing_resolve
    | intros _; apply growing_mkdir | intros _; apply growing_save
    | apply growing_sleep | exact Logic.I ].
Qed.

Lemma growing_book bid ref include_cover range :
  preserves I (generate_book fb w cm s2d bid ref include_cover range).
Proof.
  apply (keep_book fb w cm s2d I (fun _ => True));
    [ apply growing_request | intros p _; apply growing_resolve
    | intros _; apply growing_mkdir | intros _; apply growing_save
    | apply growing_sleep | exact Logic.I | apply growing_mkdir ].
Qed.

End Growing.

(** ** The directory of a book *)

Lemma made_log dir e st : directory_made dir st -> directory_made dir (log e st).
Proof. intros [H1 H2]. split; [exact H1|]. simpl. apply in_or_app. now left. Qed.

Lemma made_create dir ps st : directory_made dir st -> directory_made dir (create ps st).
Proof. intros [H1 H2]. split; [|exact H2]. simpl. now apply elem_of_union_r. Qed.

(** X13: with persistence off a whole book is another matter: as soon as
    the book is known and has a scene, [generate_book] creates the
    directory of the book, whether persistence is on or off, and the
    directory is there at the end whatever happens to the items. *)
Theorem book_directory_is_created fb w cm s2d bid ref include_cover range st book :
  get_book cm bid = Some book ->
  Book.scenes book <> [] ->
  mkdir_fault w (events st) (book_output_dir w cm bid) = None ->
  directory_made (book_output_dir w cm bid)
    (snd (generate_book fb w cm s2d bid ref include_cover range st)).
Proof.
  intros Hbook Hscenes Hmk. unfold generate_book. rewrite Hbook.
  destruct (Book.scenes book) as [|s0 ss] eqn:Hs; [congruence|].
  set (dir := book_output_dir w cm bid) in *.
  assert (Hdir : _ensure_directory w dir st = (Returned dir, snd (mkdir w dir st))).
  { unfold _ensure_directory, bind, mkdir. now rewrite Hmk. }
  rewrite (bind_returned _ _ _ _ _ Hdir).
  apply growing_book_items; [apply made_log | apply made_create | now intros p url s|].
  unfold mkdir. rewrite Hmk. simpl. split.
  - apply elem_of_union_l. rewrite elem_of_list_to_set. apply list_elem_of_In. now left.
  - apply in_or_app. right. now left.
Qed.

Lemma book_directory_is_created_witness :
  let st := fresh_engine reference_disk in
  let run := generate_book no_beyond (flaky_world 1) farm_config false "book_01_courage"
               "./reference.jpg" true None st in
  get_book farm_config "book_01_courage"
  = Some (Book.from_dict "book_01_courage" courage_data) /\
  ("./output/books/book_01_courage" ∉ files st) /\
  ("./output/books/book_01_courage" ∈ files (snd run)) /\
  In (EvMkdir "./output/books/book_01_courage") (events (snd run)).
Proof.
  intros st run.
  assert (Hbook : get_book farm_config "book_01_courage"
                  = Some (Book.from_dict "book_01_courage" courage_data)) by reflexivity.
  split; [exact Hbook|]. split; [vm_compute; intros H; discriminate H|].
  exact (book_directory_is_created no_beyond (flaky_world 1) farm_config false
           "book_01_courage" "./reference.jpg" true None st _ Hbook
           ltac:(discriminate) eq_refl).
Defined.

(* ===================================================================== *)
(** * The requests an engine makes                                        *)
(* ===================================================================== *)

Lemma truthy_not_empty (o : option string) : truthy o <> Some "".
Proof. destruct o as [[|c s]|]; discriminate. Qed.

Section RequestsConfigured.

Variable fb : string -> string -> dict string -> string -> fmt_result.
Variable w : World.
Variable cm : ConfigManager.
Variable s2d : bool.

Lemma configured_log e st :
  configured_request cm e -> requests_configured cm st -> requests_configured cm (log e st).
Proof.
  intros He H. unfold requests_configured, log. simpl.
  apply Forall_app. split; [exact H | now repeat constructor].
Qed.

Lemma configured_other e st :
  is_upload e = false -> is_subscribe e = false ->
  requests_configured cm st -> requests_configured cm (log e st).
Proof. intros _ He. apply configured_log. now destruct e. Qed.

Lemma configured_create ps st :
  requests_configured cm st -> requests_configured cm (create ps st).
Proof. now intros H. Qed.

Lemma configured_call prompt ref :
  preserves (requests_configured cm) (_call_api w cm prompt ref None None).
Proof.
  intros st H. apply (configured_log (EvSubscribe _ _)); [|exact H].
  simpl. repeat split. apply truthy_not_empty.
Qed.

Lemma configured_resolve p force :
  preserves (requests_configured cm) (_upload_image w p force).
Proof.
  intros st H. rewrite upload_image_cases.
  destruct (startswith p "http"); [assumption|].
  destruct (if force then None else _uploaded_images st !! p); [assumption|].
  destruct (bool_decide (p ∈ files st)); [|assumption].
  destruct (read_file w (events st) p) as [data|e]; [|assumption].
  destruct (fal_upload w (events st) data) as [url|e];
    now apply (configured_log (EvUpload data)).
Qed.

Lemma configured_state st :
  engine_state fb w cm s2d st -> requests_configured cm st.
Proof.
  assert (Hmk : forall path, preserves (requests_configured cm) (mkdir w path))
    by (intros; apply ledger_mkdir; [apply configured_other | apply configured_create]).
  assert (Hsave : forall url path sp prompt,
             preserves (requests_configured cm) (_save_image w cm url path sp prompt))
    by (intros; apply ledger_save; [apply configured_other | apply configured_create]).
  assert (Hsleep : forall d, preserves (requests_configured cm) (sleep d))
    by (intros; apply ledger_sleep, configured_other).
  assert (Hres : forall p, True ->
                           preserves (requests_configured cm) (_upload_image w p false))
    by (intros p _; apply configured_resolve).
  induction 1.
  - constructor.
  - now apply configured_resolve.
  - apply (keep_hero fb w cm s2d (requests_configured cm) (fun _ => True));
      auto using configured_call.
    apply reference_ok_any.
  - apply (keep_all_heroes fb w cm s2d (requests_configured cm) (fun _ => True));
      auto using configured_call.
    apply reference_ok_any.
  - apply (keep_group fb w cm s2d (requests_configured cm) (fun _ => True));
      auto using configured_call.
    apply reference_ok_any.
  - apply (keep_scene fb w cm s2d (requests_configured cm) (fun _ => True));
      auto using configured_call.
  - apply (keep_cover fb w cm s2d (requests_configured cm) (fun _ => True));
      auto using configured_call.
  - apply (keep_book fb w cm s2d (requests_configured cm) (fun _ => True));
      auto using configured_call.
Qed.

End RequestsConfigured.

(** X14: every synthesis request an engine instance has made, in any
    sequence of operations with any arguments, went to the configured model
    with the configured guidance scale, number of steps and output format
    (the defaults 3.5, 28 and "jpeg" where the configuration has none), and
    none carried an empty reference address. *)
Theorem requests_follow_configuration fb w cm s2d st :
  engine_state fb w cm s2d st ->
  forall model request,
    In (EvSubscribe model request) (events st) ->
    model = api_model cm /\
    arg_guidance_scale request = get_or (guidance_scale (api_defaults cm)) (35 # 10) /\
    arg_num_inference_steps request
    = get_or (num_inference_steps (api_defaults cm)) 28%Z /\
    arg_output_format request = get_or (output_format (api_defaults cm)) "jpeg" /\
    arg_image_url request <> Some "".
Proof.
  intros Hst model request Hin.
  apply configured_state in Hst.
  exact (proj1 (List.Forall_forall _ _) Hst _ Hin).
Qed.

Lemma requests_follow_configuration_witness :
  let st := snd (generate_hero_shot no_beyond calm_world farm_config false
                   "barnaby_bunny" None None None None (fresh_engine reference_disk)) in
  engine_state no_beyond calm_world farm_config false st /\
  exists request,
    events st = [EvSubscribe "fal-ai/flux-pro/kontext" request] /\
    arg_guidance_scale request = 35 # 10 /\
    arg_num_inference_steps request = 28%Z /\
    arg_output_format request = "jpeg".
Proof.
  intros st.
  assert (Hst : engine_state no_beyond calm_world farm_config false st)
    by apply es_hero, es_fresh.
  split; [exact Hst|].
  eexists. split; [reflexivity|].
  destruct (requests_follow_configuration no_beyond calm_world farm_config false st Hst
              _ _ (or_introl eq_refl)) as (_ & Hg & Hn & Hf & _).
  split; [exact Hg|]. split; [exact Hn | exact Hf].
Defined.

(* ===================================================================== *)
(** * One request per item                                                *)
(* ===================================================================== *)

Lemma at_most_ret {A} (a : A) : requests_at_most 0 (ret a).
Proof. intros st. simpl. lia. Qed.

Lemma at_most_le {A} (a b : nat) (m : M A) :
  (a <= b)%nat -> requests_at_most a m -> requests_at_most b m.
Proof. intros Hab H st. specialize (H st). lia. Qed.

Lemma at_most_bind {A B} (a b : nat) (m : M A) (k : A -> M B) :
  requests_at_most a m -> (forall x, requests_at_most b (k x)) ->
  requests_at_most (a + b) (bind m k).
Proof.
  intros Hm Hk st. unfold bind. specialize (Hm st).
  destruct (m st) as [[x|e] s1]; simpl in *; [|lia].
  specialize (Hk x s1). lia.
Qed.

Lemma at_most_try {A} (a b : nat) (m : M A) (h : exn -> M A) :
  requests_at_most a m -> (forall e, requests_at_most b (h e)) ->
  requests_at_most (a + b) (try_except m h).
Proof.
  intros Hm Hh st. unfold try_except. specialize (Hm st).
  destruct (m st) as [[x|e] s1]; simpl in *; [lia|].
  specialize (Hh e s1). lia.
Qed.

(** A computation that keeps the number of requests makes none. *)
Lemma at_most_none {A} (m : M A) :
  (forall r, preserves (fun st => requests st = r) m) -> requests_at_most 0 m.
Proof. intros H st. rewrite (H (requests st) st eq_refl). lia. Qed.

Lemma at_most_for_enumerate {A B} (body : nat -> A -> M B) (l : list A) :
  (forall i x, requests_at_most 1 (body i x)) ->
  forall i, requests_at_most (length l) (for_enumerate body i l).
Proof.
  intros Hbody. induction l as [|x xs IH]; intros i; simpl.
  - apply at_most_ret.
  - apply (at_most_bind 1 (length xs)); [apply Hbody|]. intros r.
    apply (at_most_le (length xs + 0)); [lia|].
    apply at_most_bind; [apply IH | intros rs; apply at_most_ret].
Qed.

Section RequestsCounted.

Variable fb : string -> string -> dict string -> string -> fmt_result.
Variable w : World.
Variable cm : ConfigManager.
Variable s2d : bool.

Lemma counted_event r e st :
  is_subscribe e = false -> requests st = r -> requests (log e st) = r.
Proof. intros He <-. now apply requests_log. Qed.

Lemma counted_log r e st :
  is_upload e = false -> is_subscribe e = false ->
  requests st = r -> requests (log e st) = r.
Proof. intros _. apply counted_event. Qed.

Lemma counted_create r ps st : requests st = r -> requests (create ps st) = r.
Proof. now intros H. Qed.

Lemma counted_mkdir r path : preserves (fun st => requests st = r) (mkdir w path).
Proof. apply ledger_mkdir; [apply counted_log | apply counted_create]. Qed.

Lemma counted_save r url path sp prompt :
  preserves (fun st => requests st = r) (_save_image w cm url path sp prompt).
Proof. apply ledger_save; [apply counted_log | apply counted_create]. Qed.

Lemma counted_sleep r d : preserves (fun st => requests st = r) (sleep d).
Proof. apply ledger_sleep, counted_log. Qed.

Lemma counted_resolve r p : preserves (fun st => requests st = r) (_upload_image w p false).
Proof.
  intros st H. rewrite upload_image_cases.
  destruct (startswith p "http"); [assumption|].
  destruct (_uploaded_images st !! p); [assumption|].
  destruct (bool_decide (p ∈ files st)); [|assumption].
  destruct (read_file w (events st) p) as [data|e]; [|assumption].
  destruct (fal_upload w (events st) data) as [url|e];
    now apply (counted_event r (EvUpload data)).
Qed.

Lemma no_request_sleep d : requests_at_most 0 (sleep d).
Proof. apply at_most_none. intros r. apply counted_sleep. Qed.

Lemma no_request_mkdir path : requests_at_most 0 (mkdir w path).
Proof. apply at_most_none. intros r. apply counted_mkdir. Qed.

Lemma no_request_resolve p : requests_at_most 0 (_upload_image w p false).
Proof. apply at_most_none. intros r. apply counted_resolve. Qed.

Lemma no_request_optional_reference ref :
  requests_at_most 0 (optional_reference w ref).
Proof.
  apply at_most_none. intros r.
  apply (keep_optional_reference w _ (fun _ => True));
    [intros p _; apply counted_resolve | apply reference_ok_any].
Qed.

Lemma one_request_call prompt ref :
  requests_at_most 1 (_call_api w cm prompt ref None None).
Proof.
  intros st. unfold _call_api, subscribe, requests, log. simpl.
  rewrite List.filter_app, length_app. simpl. lia.
Qed.

(** [finish] makes the one synthesis call of an attempt. *)
Lemma one_request_finish start prompt ref (persist : string -> M string) meta :
  (s2d = true -> forall r url, preserves (fun st => requests st = r) (persist url)) ->
  requests_at_most 1 (finish w cm s2d start prompt ref persist meta).
Proof.
  intros Hpersist. unfold finish.
  apply (at_most_bind 1 0); [apply one_request_call|]. intros result.
  apply at_most_none. intros r.
  apply (keep_packaging w cm s2d (fun st => requests st = r)).
  - intros _. apply counted_mkdir.
  - intros _. apply counted_save.
  - intros H url. now apply Hpersist.
Qed.

Lemma one_request_guarded {A} (resolve : M A) start prompt (ref : A -> option string)
  (persist : string -> M string) meta :
  requests_at_most 0 resolve ->
  (s2d = true -> forall r url, preserves (fun st => requests st = r) (persist url)) ->
  requests_at_most 1
    (try_except
       (bind resolve (fun u => finish w cm s2d start prompt (ref u) persist meta))
       (capture prompt)).
Proof.
  intros Hresolve Hpersist.
  apply (at_most_try 1 0); [|intros e; apply at_most_ret].
  apply (at_most_bind 0 1); [exact Hresolve|]. intros u.
  now apply one_request_finish.
Qed.

Lemma one_request_hero cid ref loc custom out :
  requests_at_most 1 (generate_hero_shot fb w cm s2d cid ref loc custom out).
Proof.
  unfold generate_hero_shot.
  apply (at_most_bind 0 1); [apply at_most_none; now intros r st|]. intros start.
  destruct (get_character cm cid) as [c|];
    [|apply (at_most_le 0); [lia | apply at_most_ret]].
  apply (at_most_bind 0 1); [apply at_most_none; now intros r st|]. intros prompt.
  apply one_request_guarded; [apply no_request_optional_reference|].
  intros H r url. apply (keep_hero_persist w cm s2d); [| |exact H]; intros _;
    [apply counted_mkdir | apply counted_save].
Qed.

Lemma one_request_group ids ref loc custom out :
  requests_at_most 1 (generate_group_shot fb w cm s2d ids ref loc custom out).
Proof.
  unfold generate_group_shot.
  apply (at_most_bind 0 1); [apply at_most_none; now intros r st|]. intros start.
  destruct (resolve_characters cm ids) as [|c cs];
    [apply (at_most_le 0); [lia | apply at_most_ret]|].
  apply (at_most_bind 0 1); [apply at_most_none; now intros r st|]. intros prompt.
  apply one_request_guarded; [apply no_request_optional_reference|].
  intros H r url. apply (keep_group_persist w cm s2d); [| |exact H]; intros _;
    [apply counted_mkdir | apply counted_save].
Qed.

Lemma one_request_scene sp ids ref loc out notes :
  requests_at_most 1 (generate_scene fb w cm s2d sp ids ref loc out notes).
Proof.
  unfold generate_scene.
  apply (at_most_bind 0 1); [apply at_most_none; now intros r st|]. intros start.
  apply (at_most_bind 0 1); [apply at_most_none; now intros r st|]. intros prompt.
  apply (one_request_guarded (_upload_image w ref false) start prompt Some);
    [apply no_request_resolve|].
  intros H r url. apply (keep_scene_persist w cm s2d); [| |exact H]; intros _;
    [apply counted_mkdir | apply counted_save].
Qed.

Lemma one_request_cover bid ref custom out :
  requests_at_most 1 (generate_cover fb w cm s2d bid ref custom out).
Proof.
  unfold generate_cover.
  apply (at_most_bind 0 1); [apply at_most_none; now intros r st|]. intros start.
  destruct (get_book cm bid) as [book|];
    [|apply (at_most_le 0); [lia | apply at_most_ret]].
  destruct (get_character cm (Book.featured_character book)) as [featured|];
    [|apply (at_most_le 0); [lia | apply at_most_ret]].
  apply (at_most_bind 0 1); [apply at_most_none; now intros r st|]. intros prompt.
  apply (one_request_guarded (_upload_image w ref false) start prompt Some);
    [apply no_request_resolve|].
  intros H r url. apply (keep_cover_persist w cm s2d); [| |exact H]; intros _;
    [apply counted_mkdir | apply counted_save].
Qed.

(** An item of a batch: the operation, then perhaps the delay. *)
Lemma one_request_item (item : M GenerationResult) (delayed : bool) d :
  requests_at_most 1 item ->
  requests_at_most 1
    (result <- item ;; (if delayed then sleep d else ret tt) ;; ret result).
Proof.
  intros H. apply (at_most_bind 1 0); [exact H|]. intros r.
  apply (at_most_bind 0 0); [|intros ?; apply at_most_ret].
  destruct delayed; [apply no_request_sleep | apply at_most_ret].
Qed.

Lemma requests_all_heroes ref ids :
  requests_at_most
    (length (match ids with
             | Some (c :: cs) => c :: cs
             | _ => list_character_ids cm
             end))
    (generate_all_hero_shots fb w cm s2d ref ids).
Proof.
  unfold generate_all_hero_shots. apply at_most_for_enumerate. intros i cid.
  apply one_request_item, one_request_hero.
Qed.

Lemma requests_book bid ref (include_cover : bool) range :
  requests_at_most
    (match get_book cm bid with
     | Some book =>
         length (select_scenes range (Book.scenes book))
         + (if include_cover then 1 else 0)
     | None => 0
     end)
    (generate_book fb w cm s2d bid ref include_cover range).
Proof.
  unfold generate_book. destruct (get_book cm bid) as [book|]; [|apply at_most_ret].
  destruct (Book.scenes book) as [|s0 ss] eqn:Hs;
    [apply (at_most_le 0); [lia | apply at_most_ret]|].
  set (scenes := select_scenes range (s0 :: ss)).
  apply (at_most_le (0 + ((if include_cover then 1 else 0) + (length scenes + 0))));
    [lia|].
  apply at_most_bind.
  - unfold _ensure_directory.
    apply (at_most_bind 0 0); [apply no_request_mkdir | intros ?; apply at_most_ret].
  - intros dir. apply at_most_bind.
    + destruct include_cover; [|apply at_most_ret].
      unfold book_cover_step.
      apply (at_most_bind 1 0); [apply one_request_cover|]. intros r.
      apply (at_most_bind 0 0); [apply no_request_sleep | intros ?; apply at_most_ret].
    + intros cover_results.
      apply at_most_bind; [|intros ?; apply at_most_ret].
      apply at_most_for_enumerate. intros i scene. unfold book_scene_step.
      apply one_request_item, one_request_scene.
Qed.

End RequestsCounted.

(** X15: an operation makes at most one synthesis request, whatever
    happens: nothing is retried.  A batch of hero shots makes at most one
    request per character, and a book at most one per scene of the page
    range plus one for the cover, which is the number of images its cost
    estimate counts; for an unknown book no request is made. *)
Theorem requests_are_bounded fb w cm s2d st :
  (forall cid ref loc custom out,
     (requests (snd (generate_hero_shot fb w cm s2d cid ref loc custom out st))
      <= requests st + 1)%nat) /\
  (forall ids ref loc custom out,
     (requests (snd (generate_group_shot fb w cm s2d ids ref loc custom out st))
      <= requests st + 1)%nat) /\
  (forall sp ids ref loc out notes,
     (requests (snd (generate_scene fb w cm s2d sp ids ref loc out notes st))
      <= requests st + 1)%nat) /\
  (forall bid ref custom out,
     (requests (snd (generate_cover fb w cm s2d bid ref custom out st))
      <= requests st + 1)%nat) /\
  (forall ref ids,
     (requests (snd (generate_all_hero_shots fb w cm s2d ref ids st))
      <= requests st
         + length (match ids with
                   | Some (c :: cs) => c :: cs
                   | _ => list_character_ids cm
                   end))%nat) /\
  (forall bid ref (include_cover : bool) range,
     (requests (snd (generate_book fb w cm s2d bid ref include_cover range st))
      <= requests st
         + match get_book cm bid with
           | Some book =>
               length (select_scenes range (Book.scenes book))
               + (if include_cover then 1 else 0)
           | None => 0
           end)%nat).
Proof.
  split; [|split; [|split; [|split; [|split]]]]; intros.
  - apply one_request_hero.
  - apply one_request_group.
  - apply one_request_scene.
  - apply one_request_cover.
  - apply requests_all_heroes.
  - apply requests_book.
Qed.

(* ===================================================================== *)
(** * What a result holds                                                 *)
(* ===================================================================== *)

Lemma failed_result_shape cm s2d err prompt :
  result_shape cm s2d (failed_result err prompt).
Proof. right. repeat split. now exists err. Qed.

Lemma for_enumerate_inv {A B} (P : B -> Prop) (body : nat -> A -> M B) :
  (forall i x st r st', body i x st = (Returned r, st') -> P r) ->
  forall l i st rs st',
    for_enumerate body i l st = (Returned rs, st') -> List.Forall P rs.
Proof.
  intros Hbody. induction l as [|x xs IH]; intros i st rs st' H; simpl in H.
  - injection H as <- _. constructor.
  - apply bind_inv in H as (r & s1 & Hr & H).
    apply bind_inv in H as (rs' & s2 & Hrs & H).
    injection H as <- _.
    constructor; [now apply (Hbody i x st r s1) | now apply (IH _ _ _ _ Hrs)].
Qed.

Section Results.

Variable fb : string -> string -> dict string -> string -> fmt_result.
Variable w : World.
Variable cm : ConfigManager.
Variable s2d : bool.

Lemma finish_result start prompt ref persist meta st r st' :
  finish w cm s2d start prompt ref persist meta st = (Returned r, st') ->
  result_shape cm s2d r /\ success r = true /\ prompt_used r = prompt /\
  metadata r = meta.
Proof.
  unfold finish. intros H.
  apply bind_inv in H as (resp & s1 & _ & H).
  apply bind_inv in H as (url & s2 & _ & H).
  apply bind_inv in H as (t & s3 & _ & H).
  apply bind_inv in H as (saved & s4 & Hsaved & H).
  injection H as <- _. split; [left | now repeat split].
  split; [reflexivity|]. split; [reflexivity|]. split; [reflexivity|].
  split; [now exists url|].
  intros ->. simpl. now injection Hsaved as <- _.
Qed.

(** The result of a guarded attempt. *)
Lemma guarded_result {A} (resolve : M A) start prompt (ref : A -> option string)
  persist meta st r st' :
  try_except
    (bind resolve (fun u => finish w cm s2d start prompt (ref u) persist meta))
    (capture prompt) st = (Returned r, st') ->
  result_shape cm s2d r /\ prompt_used r = prompt /\
  (success r = true -> metadata r = meta).
Proof.
  rewrite try_capture.
  destruct (bind resolve _ st) as [[r0|e] s1] eqn:E; intros [= <- <-].
  - apply bind_inv in E as (u & s0 & _ & E).
    apply finish_result in E as (Hshape & _ & Hprompt & Hmeta). auto.
  - split; [apply failed_result_shape|]. split; [reflexivity | discriminate].
Qed.

Lemma hero_result cid ref loc custom out st r st' :
  generate_hero_shot fb w cm s2d cid ref loc custom out st = (Returned r, st') ->
  result_shape cm s2d r /\
  match get_character cm cid with
  | None => r = failed_result ("Character not found: " +:+ cid) ""
  | Some c =>
      hero_prompt fb cm c loc custom = Returned (prompt_used r) /\
      (success r = true -> metadata r = hero_metadata cid c)
  end.
Proof.
  unfold generate_hero_shot, bind at 1, now.
  destruct (get_character cm cid) as [c|].
  - unfold bind at 1, lift.
    destruct (hero_prompt fb cm c loc custom) as [p|e]; [|discriminate].
    intros H. apply guarded_result in H as (Hshape & -> & Hmeta). auto.
  - intros [= <- <-]. split; [apply failed_result_shape | reflexivity].
Qed.

Lemma group_result ids ref loc custom out st r st' :
  generate_group_shot fb w cm s2d ids ref loc custom out st = (Returned r, st') ->
  result_shape cm s2d r.
Proof.
  unfold generate_group_shot, bind at 1, now.
  destruct (resolve_characters cm ids) as [|c cs].
  - intros [= <- <-]. apply failed_result_shape.
  - unfold bind at 1, lift.
    destruct (group_prompt fb cm (c :: cs) loc custom) as [p|e]; [|discriminate].
    intros H. now apply guarded_result in H as (Hshape & _).
Qed.

Lemma scene_result sp ids ref loc out notes st r st' :
  generate_scene fb w cm s2d sp ids ref loc out notes st = (Returned r, st') ->
  result_shape cm s2d r.
Proof.
  unfold generate_scene, bind at 1, now. unfold bind at 1, lift.
  destruct (scene_prompt_text fb cm sp ids loc notes) as [p|e]; [|discriminate].
  intros H.
  now apply (guarded_result (_upload_image w ref false) _ p Some) in H as (Hshape & _).
Qed.

Lemma cover_result bid ref custom out st r st' :
  generate_cover fb w cm s2d bid ref custom out st = (Returned r, st') ->
  result_shape cm s2d r.
Proof.
  unfold generate_cover, bind at 1, now.
  destruct (get_book cm bid) as [book|];
    [|intros [= <- <-]; apply failed_result_shape].
  destruct (get_character cm (Book.featured_character book)) as [featured|];
    [|intros [= <- <-]; apply failed_result_shape].
  unfold bind at 1, lift.
  destruct (cover_prompt fb cm book featured custom) as [p|e]; [|discriminate].
  intros H.
  now apply (guarded_result (_upload_image w ref false) _ p Some) in H as (Hshape & _).
Qed.

(** The result of an item of a batch is the result of its operation. *)
Lemma item_result (P : GenerationResult -> Prop) (item : M GenerationResult)
  (pause : M unit) st r st' :
  (forall r0 s0, item st = (Returned r0, s0) -> P r0) ->
  (result <- item ;; pause ;; ret result) st = (Returned r, st') -> P r.
Proof.
  intros Hitem H. apply bind_inv in H as (r0 & s0 & Hr & H).
  apply bind_inv in H as (u & s1 & _ & H). injection H as <- _. now apply (Hitem r0 s0).
Qed.

Lemma all_heroes_result ref ids st rs st' :
  generate_all_hero_shots fb w cm s2d ref ids st = (Returned rs, st') ->
  List.Forall (result_shape cm s2d) rs.
Proof.
  unfold generate_all_hero_shots. apply for_enumerate_inv.
  intros i cid s r s'. apply item_result. intros r0 s0 H.
  now apply hero_result in H as (Hshape & _).
Qed.

Lemma book_result bid ref include_cover range st rs st' :
  generate_book fb w cm s2d bid ref include_cover range st = (Returned rs, st') ->
  List.Forall (result_shape cm s2d) rs.
Proof.
  unfold generate_book. destruct (get_book cm bid) as [book|];
    [|intros [= <- _]; constructor].
  destruct (Book.scenes book) as [|s0 ss]; [intros [= <- _]; constructor|].
  intros H. apply bind_inv in H as (dir & s1 & _ & H).
  apply bind_inv in H as (cover_results & s2 & Hcover & H).
  apply bind_inv in H as (scene_results & s3 & Hscenes & H).
  injection H as <- _. apply Forall_app. split.
  - destruct include_cover; [|injection Hcover as <- _; constructor].
    unfold book_cover_step in Hcover.
    apply bind_inv in Hcover as (rc & s4 & Hrc & Hcover).
    apply bind_inv in Hcover as (u & s5 & _ & Hcover).
    injection Hcover as <- _. constructor; [|constructor].
    now apply cover_result in Hrc.
  - revert Hscenes. apply for_enumerate_inv.
    intros i scene s r s'. unfold book_scene_step. apply item_result.
    intros r0 s6. apply scene_result.
Qed.

End Results.

(** X16: a result that an operation returns is of one of two kinds.  A
    success has no error, the address of the image and the configured cost
    per image, and no local path when persistence is off.  A failure has an
    error text, no address and no path, empty metadata, and the cost 0.04
    of the dataclass, whatever cost the configuration sets.  The same holds
    of every entry of the list a batch returns. *)
Theorem results_have_shape fb w cm s2d st st' :
  (forall cid ref loc custom out r,
     generate_hero_shot fb w cm s2d cid ref loc custom out st = (Returned r, st') ->
     result_shape cm s2d r) /\
  (forall ids ref loc custom out r,
     generate_group_shot fb w cm s2d ids ref loc custom out st = (Returned r, st') ->
     result_shape cm s2d r) /\
  (forall sp ids ref loc out notes r,
     generate_scene fb w cm s2d sp ids ref loc out notes st = (Returned r, st') ->
     result_shape cm s2d r) /\
  (forall bid ref custom out r,
     generate_cover fb w cm s2d bid ref custom out st = (Returned r, st') ->
     result_shape cm s2d r) /\
  (forall ref ids rs,
     generate_all_hero_shots fb w cm s2d ref ids st = (Returned rs, st') ->
     List.Forall (result_shape cm s2d) rs) /\
  (forall bid ref include_cover range rs,
     generate_book fb w cm s2d bid ref include_cover range st = (Returned rs, st') ->
     List.Forall (result_shape cm s2d) rs).
Proof.
  split; [|split; [|split; [|split; [|split]]]]; intros.
  - now apply (hero_result fb w cm s2d cid ref loc custom out st r st').
  - now apply (group_result fb w cm s2d ids ref loc custom out st r st').
  - now apply (scene_result fb w cm s2d sp ids ref loc out notes st r st').
  - now apply (cover_result fb w cm s2d bid ref custom out st r st').
  - now apply (all_heroes_result fb w cm s2d ref ids st rs st').
  - now apply (book_result fb w cm s2d bid ref include_cover range st rs st').
Qed.

Lemma results_have_shape_witness :
  let run := generate_book no_beyond (flaky_world 3) farm_config false "book_01_courage"
               "./reference.jpg" true None (fresh_engine reference_disk) in
  exists rs,
    run = (Returned rs, snd run) /\
    List.Forall (result_shape farm_config false) rs /\
    map success rs = [true; true; false; true] /\
    map cost rs = [5 # 100; 5 # 100; 4 # 100; 5 # 100] /\
    map output_path rs = [None; None; None; None].
Proof.
  intros run.
  assert (Hrun : run = (Returned (match fst run with
                                  | Returned l => l
                                  | Raised _ => []
                                  end), snd run)) by (vm_compute; reflexivity).
  eexists. split; [exact Hrun|]. split; [|vm_compute; repeat split].
  destruct (results_have_shape no_beyond (flaky_world 3) farm_config false
              (fresh_engine reference_disk) (snd run)) as (_ & _ & _ & _ & _ & Hbook).
  exact (Hbook _ _ _ _ _ Hrun).
Defined.

(* ===================================================================== *)
(** * A batch of hero shots                                               *)
(* ===================================================================== *)



(* ===================================================================== *)
(** * The file of a result                                                *)
(* ===================================================================== *)

Lemma present_log q e st : q ∈ files st -> q ∈ files (log e st).
Proof. now intros H. Qed.

Lemma present_create q ps st : q ∈ files st -> q ∈ files (create ps st).
Proof. intros H. simpl. now apply elem_of_union_r. Qed.

Lemma for_enumerate_keeps {A B} (Q : EngineState -> Prop) (body : nat -> A -> M B) :
  (forall i x, preserves Q (body i x)) ->
  forall l i st rs st',
    Q st -> for_enumerate body i l st = (Returned rs, st') -> Q st'.
Proof.
  intros Hkeep l i st rs st' HQ H.
  pose proof (preserves_for_enumerate Q body l Hkeep i st HQ) as Hk.
  now rewrite H in Hk.
Qed.

(** The entries of a loop satisfy at its end what each satisfies when it is
    made, if the later rounds keep it. *)
Lemma for_enumerate_inv_state {A B} (P : EngineState -> B -> Prop)
  (body : nat -> A -> M B) :
  (forall i x st r st', body i x st = (Returned r, st') -> P st' r) ->
  (forall i x r, preserves (fun st => P st r) (body i x)) ->
  forall l i st rs st',
    for_enumerate body i l st = (Returned rs, st') -> List.Forall (P st') rs.
Proof.
  intros Hbody Hkeep. induction l as [|x xs IH]; intros i st rs st' H; simpl in H.
  - injection H as <- _. constructor.
  - apply bind_inv in H as (r & s1 & Hr & H).
    apply bind_inv in H as (rs' & s2 & Hrs & H).
    injection H as <- <-. constructor; [|now apply (IH _ _ _ _ Hrs)].
    apply (for_enumerate_keeps (fun st => P st r) body (fun i x => Hkeep i x r)
             xs (S i) s1 rs' s2); [|exact Hrs].
    now apply (Hbody i x st).
Qed.

Section ResultsOnDisk.

Variable fb : string -> string -> dict string -> string -> fmt_result.
Variable w : World.
Variable cm : ConfigManager.
Variable s2d : bool.

Lemma write_written path data st st' :
  write w path data st = (Returned tt, st') -> path ∈ files st'.
Proof.
  unfold write. destruct (write_fault w (events st) path); [discriminate|].
  intros [= <-]. change (path ∈ list_to_set [path] ∪ files st).
  apply elem_of_union_l. rewrite elem_of_list_to_set.
  apply list_elem_of_In. now left.
Qed.

(** [_save_image] returns the path it was given, once the file is there. *)
Lemma save_image_written url path save_prompt prompt st p st' :
  _save_image w cm url path save_prompt prompt st = (Returned p, st') ->
  p ∈ files st'.
Proof.
  unfold _save_image. intros H.
  apply bind_inv in H as (data & s1 & _ & H).
  apply bind_inv in H as (u1 & s2 & _ & H).
  apply bind_inv in H as ([] & s3 & Hw & H).
  apply bind_inv in H as (u3 & s4 & Hnote & H).
  injection H as <- <-. apply write_written in Hw.
  destruct (_ && _ && _).
  - pose proof (ledger_write w (fun st => path ∈ files st)
                  (fun e st _ _ => present_log path e st)
                  (fun ps st => present_create path ps st)
                  (path_with_suffix w path ".txt") prompt s3 Hw) as Hk.
    now rewrite Hnote in Hk.
  - now injection Hnote as _ <-.
Qed.

(** A place to persist to, followed by [_save_image]. *)
Lemma persist_written {A B} (place : M A) (name : A -> M B) (path : A -> B -> string)
  url prompt st p st' :
  (a <- place ;; b <- name a ;; _save_image w cm url (path a b) true prompt) st
  = (Returned p, st') ->
  p ∈ files st'.
Proof.
  intros H. apply bind_inv in H as (a & s1 & _ & H).
  apply bind_inv in H as (b & s2 & _ & H). now apply save_image_written in H.
Qed.

Lemma finish_on_disk start prompt ref (persist : string -> M string) meta st r st' :
  (forall url s p s', persist url s = (Returned p, s') -> p ∈ files s') ->
  finish w cm s2d start prompt ref persist meta st = (Returned r, st') ->
  result_on_disk st' r.
Proof.
  intros Hpersist. unfold finish. intros H.
  apply bind_inv in H as (resp & s1 & _ & H).
  apply bind_inv in H as (url & s2 & _ & H).
  apply bind_inv in H as (t & s3 & _ & H).
  apply bind_inv in H as (saved & s4 & Hsaved & H).
  injection H as <- <-. intros p. simpl. intros ->.
  destruct s2d; [|discriminate].
  apply bind_inv in Hsaved as (p' & s5 & Hp & Hsaved).
  injection Hsaved as <- <-. now apply (Hpersist url s3).
Qed.

Lemma guarded_on_disk {A} (resolve : M A) start prompt (ref : A -> option string)
  (persist : string -> M string) meta st r st' :
  (forall url s p s', persist url s = (Returned p, s') -> p ∈ files s') ->
  try_except
    (bind resolve (fun u => finish w cm s2d start prompt (ref u) persist meta))
    (capture prompt) st = (Returned r, st') ->
  result_on_disk st' r.
Proof.
  intros Hpersist. rewrite try_capture.
  destruct (bind resolve _ st) as [[r0|e] s1] eqn:E; intros [= <- <-].
  - apply bind_inv in E as (u & s0 & _ & E). now apply finish_on_disk in E.
  - intros p. discriminate.
Qed.

Lemma hero_on_disk cid ref loc custom out st r st' :
  generate_hero_shot fb w cm s2d cid ref loc custom out st = (Returned r, st') ->
  result_on_disk st' r.
Proof.
  unfold generate_hero_shot, bind at 1, now.
  destruct (get_character cm cid) as [c|]; [|intros [= <- _] p; discriminate].
  unfold bind at 1, lift.
  destruct (hero_prompt fb cm c loc custom) as [prompt|e]; [|discriminate].
  apply guarded_on_disk. intros url s p s'. apply persist_written.
Qed.

Lemma group_on_disk ids ref loc custom out st r st' :
  generate_group_shot fb w cm s2d ids ref loc custom out st = (Returned r, st') ->
  result_on_disk st' r.
Proof.
  unfold generate_group_shot, bind at 1, now.
  destruct (resolve_characters cm ids) as [|c cs]; [intros [= <- _] p; discriminate|].
  unfold bind at 1, lift.
  destruct (group_prompt fb cm (c :: cs) loc custom) as [prompt|e]; [|discriminate].
  apply guarded_on_disk. intros url s p s'. apply persist_written.
Qed.

Lemma scene_on_disk sp ids ref loc out notes st r st' :
  generate_scene fb w cm s2d sp ids ref loc out notes st = (Returned r, st') ->
  result_on_disk st' r.
Proof.
  unfold generate_scene, bind at 1, now. unfold bind at 1, lift.
  destruct (scene_prompt_text fb cm sp ids loc notes) as [prompt|e]; [|discriminate].
  apply (guarded_on_disk (_upload_image w ref false) _ prompt Some).
  intros url s p s'. apply persist_written.
Qed.

Lemma cover_on_disk bid ref custom out st r st' :
  generate_cover fb w cm s2d bid ref custom out st = (Returned r, st') ->
  result_on_disk st' r.
Proof.
  unfold generate_cover, bind at 1, now.
  destruct (get_book cm bid) as [book|]; [|intros [= <- _] p; discriminate].
  destruct (get_character cm (Book.featured_character book)) as [featured|];
    [|intros [= <- _] p; discriminate].
  unfold bind at 1, lift.
  destruct (cover_prompt fb cm book featured custom) as [prompt|e]; [|discriminate].
  apply (guarded_on_disk (_upload_image w ref false) _ prompt Some).
  intros url s p s'. apply persist_written.
Qed.

(** The file of a result stays where it is. *)
Lemma on_disk_kept {A} (m : M A) r :
  (forall q, preserves (fun st => q ∈ files st) m) ->
  preserves (fun st => result_on_disk st r) m.
Proof. intros Hm st Hr p Hp. apply Hm. now apply Hr. Qed.

Lemma on_disk_item (item : M GenerationResult) (pause : M unit) st r st' :
  (forall r0 s0, item st = (Returned r0, s0) -> result_on_disk s0 r0) ->
  (forall q, preserves (fun st => q ∈ files st) pause) ->
  (result <- item ;; pause ;; ret result) st = (Returned r, st') ->
  result_on_disk st' r.
Proof.
  intros Hitem Hpause H. apply bind_inv in H as (r0 & s0 & Hr & H).
  apply bind_inv in H as (u & s1 & Hu & H). injection H as <- <-.
  pose proof (on_disk_kept pause r0 Hpause s0 (Hitem r0 s0 Hr)) as Hk.
  now rewrite Hu in Hk.
Qed.

Lemma present_pause q (delayed : bool) d :
  preserves (fun st => q ∈ files st) (if delayed then sleep d else ret tt).
Proof.
  destruct delayed; [|apply preserves_ret].
  apply ledger_sleep. intros e st _ _. apply present_log.
Qed.

Lemma present_hero q cid ref loc custom out :
  preserves (fun st => q ∈ files st)
    (generate_hero_shot fb w cm s2d cid ref loc custom out).
Proof.
  apply growing_hero; [apply present_log | apply present_create | now intros p url st].
Qed.

Lemma present_scene q sp ids ref loc out notes :
  preserves (fun st => q ∈ files st)
    (generate_scene fb w cm s2d sp ids ref loc out notes).
Proof.
  apply growing_scene; [apply present_log | apply present_create | now intros p url st].
Qed.

Lemma all_heroes_on_disk ref ids st rs st' :
  generate_all_hero_shots fb w cm s2d ref ids st = (Returned rs, st') ->
  List.Forall (result_on_disk st') rs.
Proof.
  unfold generate_all_hero_shots. apply for_enumerate_inv_state.
  - intros i cid s r s'. apply on_disk_item; [|intros q; apply present_pause].
    intros r0 s0. apply hero_on_disk.
  - intros i cid r. apply on_disk_kept. intros q.
    apply preserves_bind; [apply present_hero|]. intros r0.
    apply preserves_bind; [apply present_pause | intros ?; apply preserves_ret].
Qed.

Lemma book_on_disk bid ref include_cover range st rs st' :
  generate_book fb w cm s2d bid ref include_cover range st = (Returned rs, st') ->
  List.Forall (result_on_disk st') rs.
Proof.
  unfold generate_book. destruct (get_book cm bid) as [book|];
    [|intros [= <- _]; constructor].
  destruct (Book.scenes book) as [|s0 ss]; [intros [= <- _]; constructor|].
  set (scenes := select_scenes range (s0 :: ss)).
  intros H. apply bind_inv in H as (dir & s1 & _ & H).
  apply bind_inv in H as (cover_results & s2 & Hcover & H).
  apply bind_inv in H as (scene_results & s3 & Hscenes & H).
  injection H as <- <-. apply Forall_app. split.
  - destruct include_cover; [|injection Hcover as <- _; constructor].
    unfold book_cover_step in Hcover.
    apply bind_inv in Hcover as (rc & s4 & Hrc & Hcover).
    apply bind_inv in Hcover as (u & s5 & Hu & Hcover).
    injection Hcover as <- <-. constructor; [|constructor].
    apply cover_on_disk in Hrc.
    assert (Hkeep : forall i scene,
               preserves (fun st => result_on_disk st rc)
                 (book_scene_step fb w cm s2d bid ref book (length scenes) i scene)).
    { intros i scene. apply on_disk_kept. intros q. unfold book_scene_step.
      apply preserves_bind; [apply present_scene|]. intros r0.
      apply preserves_bind; [apply present_pause | intros ?; apply preserves_ret]. }
    assert (Hslept : result_on_disk s5 rc).
    { pose proof (on_disk_kept (sleep (rate_limit_delay cm)) rc
                    (fun q => present_pause q true _) s4 Hrc) as Hk.
      now rewrite Hu in Hk. }
    exact (for_enumerate_keeps _ _ Hkeep _ _ _ _ _ Hslept Hscenes).
  - revert Hscenes. apply for_enumerate_inv_state.
    + intros i scene s r s'. unfold book_scene_step.
      apply on_disk_item; [|intros q; apply present_pause].
      intros r0 s6. apply scene_on_disk.
    + intros i scene r. apply on_disk_kept. intros q. unfold book_scene_step.
      apply preserves_bind; [apply present_scene|]. intros r0.
      apply preserves_bind; [apply present_pause | intros ?; apply preserves_ret].
Qed.

End ResultsOnDisk.

(** X19: the local path that a result reports names a file that is on the
    disk when the operation returns: the image has been written there.  For
    a batch this holds of every entry at the end of the batch, no later item
    removing what an earlier one wrote. *)
Theorem reported_files_exist fb w cm s2d st st' :
  (forall cid ref loc custom out r,
     generate_hero_shot fb w cm s2d cid ref loc custom out st = (Returned r, st') ->
     result_on_disk st' r) /\
  (forall ids ref loc custom out r,
     generate_group_shot fb w cm s2d ids ref loc custom out st = (Returned r, st') ->
     result_on_disk st' r) /\
  (forall sp ids ref loc out notes r,
     generate_scene fb w cm s2d sp ids ref loc out notes st = (Returned r, st') ->
     result_on_disk st' r) /\
  (forall bid ref custom out r,
     generate_cover fb w cm s2d bid ref custom out st = (Returned r, st') ->
     result_on_disk st' r) /\
  (forall ref ids rs,
     generate_all_hero_shots fb w cm s2d ref ids st = (Returned rs, st') ->
     List.Forall (result_on_disk st') rs) /\
  (forall bid ref include_cover range rs,
     generate_book fb w cm s2d bid ref include_cover range st = (Returned rs, st') ->
     List.Forall (result_on_disk st') rs).
Proof.
  split; [|split; [|split; [|split; [|split]]]]; intros.
  - now apply (hero_on_disk fb w cm s2d cid ref loc custom out st r st').
  - now apply (group_on_disk fb w cm s2d ids ref loc custom out st r st').
  - now apply (scene_on_disk fb w cm s2d sp ids ref loc out notes st r st').
  - now apply (cover_on_disk fb w cm s2d bid ref custom out st r st').
  - now apply (all_heroes_on_disk fb w cm s2d ref ids st rs st').
  - now apply (book_on_disk fb w cm s2d bid ref include_cover range st rs st').
Qed.

Lemma reported_files_exist_witness :
  let run := generate_book no_beyond (flaky_world 3) farm_config true "book_01_courage"
               "./reference.jpg" true None (fresh_engine reference_disk) in
  exists rs,
    run = (Returned rs, snd run) /\
    List.Forall (result_on_disk (snd run)) rs /\
    map output_path rs
    = [Some "./output/covers/./output/books/book_01_courage/cover.jpg";
       Some "./output/./output/books/book_01_courage/page_01.jpg";
       None;
       Some "./output/./output/books/book_01_courage/page_03.jpg"].
Proof.
  intros run.
  assert (Hrun : run = (Returned (match fst run with
                                  | Returned l => l
                                  | Raised _ => []
                                  end), snd run)) by (vm_compute; reflexivity).
  eexists. split; [exact Hrun|]. split; [|vm_compute; reflexivity].
  destruct (reported_files_exist no_beyond (flaky_world 3) farm_config true
              (fresh_engine reference_disk) (snd run)) as (_ & _ & _ & _ & _ & Hbook).
  exact (Hbook _ _ _ _ _ Hrun).
Defined.

(* ===================================================================== *)
(** * Where a named output goes                                           *)
(* ===================================================================== *)

Section OutputLocation.

Variable fb : string -> string -> dict string -> string -> fmt_result.
Variable w : World.
Variable cm : ConfigManager.
Variable s2d : bool.

Lemma save_image_path url path save_prompt prompt st p st' :
  _save_image w cm url path save_prompt prompt st = (Returned p, st') -> p = path.
Proof.
  unfold _save_image. intros H.
  apply bind_inv in H as (data & s1 & _ & H).
  apply bind_inv in H as (u1 & s2 & _ & H).
  apply bind_inv in H as (u2 & s3 & _ & H).
  apply bind_inv in H as (u3 & s4 & _ & H).
  now injection H as <- _.
Qed.

Lemma ensure_directory_path path st d st' :
  _ensure_directory w path st = (Returned d, st') -> d = path.
Proof.
  unfold _ensure_directory. intros H.
  apply bind_inv in H as (u & s1 & _ & H). now injection H as <- _.
Qed.

(** A directory, then a given name, then [_save_image]. *)
Lemma persist_path dir out (default : M string) url prompt name st p st' :
  truthy out = Some name ->
  (d <- _ensure_directory w dir ;;
   filename <- jpg_name out default ;;
   _save_image w cm url (path_join w d filename) true prompt) st = (Returned p, st') ->
  p = path_join w dir (name +:+ ".jpg").
Proof.
  intros Hout H. apply bind_inv in H as (d & s1 & Hd & H).
  apply ensure_directory_path in Hd as ->.
  unfold jpg_name in H. rewrite Hout in H.
  apply bind_inv in H as (filename & s2 & Hf & H). injection Hf as <- _.
  now apply save_image_path in H.
Qed.

Lemma finish_saved start prompt ref (persist : string -> M string) meta path st r st' :
  (forall url s p s', persist url s = (Returned p, s') -> p = path) ->
  finish w cm s2d start prompt ref persist meta st = (Returned r, st') ->
  saved_at path r.
Proof.
  intros Hpersist. unfold finish. intros H.
  apply bind_inv in H as (resp & s1 & _ & H).
  apply bind_inv in H as (url & s2 & _ & H).
  apply bind_inv in H as (t & s3 & _ & H).
  apply bind_inv in H as (saved & s4 & Hsaved & H).
  injection H as <- _. intros p. simpl. intros ->.
  destruct s2d; [|discriminate].
  apply bind_inv in Hsaved as (p' & s5 & Hp & Hsaved).
  injection Hsaved as <- _. now apply (Hpersist url s3 p' s5).
Qed.

Lemma guarded_saved {A} (resolve : M A) start prompt (ref : A -> option string)
  (persist : string -> M string) meta path st r st' :
  (forall url s p s', persist url s = (Returned p, s') -> p = path) ->
  try_except
    (bind resolve (fun u => finish w cm s2d start prompt (ref u) persist meta))
    (capture prompt) st = (Returned r, st') ->
  saved_at path r.
Proof.
  intros Hpersist. rewrite try_capture.
  destruct (bind resolve _ st) as [[r0|e] s1] eqn:E; intros [= <- _].
  - apply bind_inv in E as (u & s0 & _ & E). now apply finish_saved with (path := path) in E.
  - intros p. discriminate.
Qed.

Lemma hero_saved cid ref loc custom out name st r st' :
  truthy out = Some name ->
  generate_hero_shot fb w cm s2d cid ref loc custom out st = (Returned r, st') ->
  saved_at
    (path_join w
       (path_join w (get_or (dict_get "character_references" (paths cm))
                            "./reference_images/characters") cid)
       (name +:+ ".jpg")) r.
Proof.
  intros Hout. unfold generate_hero_shot, bind at 1, now.
  destruct (get_character cm cid) as [c|]; [|intros [= <- _] p; discriminate].
  unfold bind at 1, lift.
  destruct (hero_prompt fb cm c loc custom) as [prompt|e]; [|discriminate].
  apply guarded_saved. intros url s p s'. now apply persist_path.
Qed.

Lemma group_saved ids ref loc custom out name st r st' :
  truthy out = Some name ->
  generate_group_shot fb w cm s2d ids ref loc custom out st = (Returned r, st') ->
  saved_at
    (path_join w (get_or (dict_get "group_shots" (paths cm))
                         "./reference_images/group_shots")
       (name +:+ ".jpg")) r.
Proof.
  intros Hout. unfold generate_group_shot, bind at 1, now.
  destruct (resolve_characters cm ids) as [|c cs]; [intros [= <- _] p; discriminate|].
  unfold bind at 1, lift.
  destruct (group_prompt fb cm (c :: cs) loc custom) as [prompt|e]; [|discriminate].
  apply guarded_saved. intros url s p s'. now apply persist_path.
Qed.

Lemma scene_saved sp ids ref loc out notes name st r st' :
  truthy out = Some name ->
  generate_scene fb w cm s2d sp ids ref loc out notes st = (Returned r, st') ->
  saved_at
    (path_join w (get_or (dict_get "output" (paths cm)) "./output") (name +:+ ".jpg")) r.
Proof.
  intros Hout. unfold generate_scene, bind at 1, now. unfold bind at 1, lift.
  destruct (scene_prompt_text fb cm sp ids loc notes) as [prompt|e]; [|discriminate].
  apply (guarded_saved (_upload_image w ref false) _ prompt Some).
  intros url s p s'. now apply persist_path.
Qed.

Lemma cover_saved bid ref custom out name st r st' :
  truthy out = Some name ->
  generate_cover fb w cm s2d bid ref custom out st = (Returned r, st') ->
  saved_at
    (path_join w (get_or (dict_get "covers_output" (paths cm)) "./output/covers")
       (name +:+ ".jpg")) r.
Proof.
  intros Hout. unfold generate_cover, bind at 1, now.
  destruct (get_book cm bid) as [book|]; [|intros [= <- _] p; discriminate].
  destruct (get_character cm (Book.featured_character book)) as [featured|];
    [|intros [= <- _] p; discriminate].
  unfold bind at 1, lift.
  destruct (cover_prompt fb cm book featured custom) as [prompt|e]; [|discriminate].
  apply (guarded_saved (_upload_image w ref false) _ prompt Some).
  intros url s p s'. now apply persist_path.
Qed.

End OutputLocation.

(** X20: an output name that is given (and not empty) decides the file of
    a result: the name with ".jpg" appended, joined to the directory of the
    operation (the directory of the character for a hero shot; the
    configured, or default, directory of group shots, scenes and covers).
    So the pages and the cover of a book, which [generate_book] names by a
    path inside the directory of the book, are saved at that path joined to
    the directory of scenes and to the directory of covers. *)
Theorem named_output_location fb w cm s2d st st' :
  (forall cid ref loc custom out name r,
     truthy out = Some name ->
     generate_hero_shot fb w cm s2d cid ref loc custom out st = (Returned r, st') ->
     saved_at
       (path_join w
          (path_join w (get_or (dict_get "character_references" (paths cm))
                               "./reference_images/characters") cid)
          (name +:+ ".jpg")) r) /\
  (forall ids ref loc custom out name r,
     truthy out = Some name ->
     generate_group_shot fb w cm s2d ids ref loc custom out st = (Returned r, st') ->
     saved_at
       (path_join w (get_or (dict_get "group_shots" (paths cm))
                            "./reference_images/group_shots")
          (name +:+ ".jpg")) r) /\
  (forall sp ids ref loc out notes name r,
     truthy out = Some name ->
     generate_scene fb w cm s2d sp ids ref loc out notes st = (Returned r, st') ->
     saved_at
       (path_join w (get_or (dict_get "output" (paths cm)) "./output")
          (name +:+ ".jpg")) r) /\
  (forall bid ref custom out name r,
     truthy out = Some name ->
     generate_cover fb w cm s2d bid ref custom out st = (Returned r, st') ->
     saved_at
       (path_join w (get_or (dict_get "covers_output" (paths cm)) "./output/covers")
          (name +:+ ".jpg")) r) /\
  (forall bid ref book total i scene r,
     truthy (Some (path_join w (book_output_dir w cm bid)
                     ("page_" +:+ format_02d (get_or (page scene) (Z.of_nat i)))))
     <> None ->
     book_scene_step fb w cm s2d bid ref book total i scene st = (Returned r, st') ->
     saved_at
       (path_join w (get_or (dict_get "output" (paths cm)) "./output")
          (path_join w (book_output_dir w cm bid)
             ("page_" +:+ format_02d (get_or (page scene) (Z.of_nat i)))
           +:+ ".jpg")) r) /\
  (forall bid ref rs,
     truthy (Some (path_join w (book_output_dir w cm bid) "cover")) <> None ->
     book_cover_step fb w cm s2d bid ref st = (Returned rs, st') ->
     List.Forall
       (saved_at
          (path_join w (get_or (dict_get "covers_output" (paths cm)) "./output/covers")
             (path_join w (book_output_dir w cm bid) "cover" +:+ ".jpg"))) rs).
Proof.
  split; [|split; [|split; [|split; [|split]]]].
  - intros cid ref loc custom out name r Hout H.
    now apply (hero_saved fb w cm s2d cid ref loc custom out name st r st').
  - intros ids ref loc custom out name r Hout H.
    now apply (group_saved fb w cm s2d ids ref loc custom out name st r st').
  - intros sp ids ref loc out notes name r Hout H.
    now apply (scene_saved fb w cm s2d sp ids ref loc out notes name st r st').
  - intros bid ref custom out name r Hout H.
    now apply (cover_saved fb w cm s2d bid ref custom out name st r st').
  - intros bid ref book total i scene r Hname H. unfold book_scene_step in H.
    apply bind_inv in H as (r0 & s0 & Hr & H).
    apply bind_inv in H as (u & s1 & _ & H). injection H as <- _.
    revert Hr. apply scene_saved.
    destruct (path_join w _ _); [now contradiction Hname | reflexivity].
  - intros bid ref rs Hname H. unfold book_cover_step in H.
    apply bind_inv in H as (r0 & s0 & Hr & H).
    apply bind_inv in H as (u & s1 & _ & H). injection H as <- _.
    constructor; [|constructor]. revert Hr. apply cover_saved.
    destruct (path_join w _ _); [now contradiction Hname | reflexivity].
Qed.

Lemma named_output_location_witness :
  let run := generate_cover no_beyond calm_world farm_config true "book_01_courage"
               "./reference.jpg" None (Some "front")
               (fresh_engine reference_disk) in
  exists r,
    run = (Returned r, snd run) /\
    saved_at "./output/covers/front.jpg" r /\
    output_path r = Some "./output/covers/front.jpg".
Proof.
  intros run.
  assert (Hrun : run = (Returned (match fst run with
                                  | Returned r => r
                                  | Raised e => failed_result "" ""
                                  end), snd run)) by (vm_compute; reflexivity).
  eexists. split; [exact Hrun|]. split; [|vm_compute; reflexivity].
  destruct (named_output_location no_beyond calm_world farm_config true
              (fresh_engine reference_disk) (snd run)) as (_ & _ & _ & Hcover & _).
  exact (Hcover "book_01_courage" "./reference.jpg" None (Some "front") "front" _
           eq_refl Hrun).
Defined.

(* ===================================================================== *)
(** * A request behind every success                                      *)
(* ===================================================================== *)

Lemma successful_cons r rs : successful (r :: rs) = (successful [r] + successful rs)%nat.
Proof. unfold successful. simpl. now destruct (success r). Qed.

Lemma successful_app rs1 rs2 :
  successful (rs1 ++ rs2) = (successful rs1 + successful rs2)%nat.
Proof. unfold successful. now rewrite List.filter_app, length_app. Qed.

Lemma successful_one r : successful [r] = if success r then 1%nat else 0%nat.
Proof. unfold successful. simpl. now destruct (success r). Qed.

Lemma requests_log_le k e st : (k <= requests st)%nat -> (k <= requests (log e st))%nat.
Proof.
  intros H. unfold requests, log in *. simpl. rewrite List.filter_app, length_app. lia.
Qed.

Lemma paid_for_enumerate {A} (body : nat -> A -> M GenerationResult) :
  (forall i x st r st', body i x st = (Returned r, st') -> successes_paid st st' [r]) ->
  forall l i st rs st',
    for_enumerate body i l st = (Returned rs, st') -> successes_paid st st' rs.
Proof.
  intros Hbody. unfold successes_paid in *.
  induction l as [|x xs IH]; intros i st rs st' H; simpl in H.
  - injection H as <- <-. unfold successful. simpl. lia.
  - apply bind_inv in H as (r & s1 & Hr & H).
    apply bind_inv in H as (rs' & s2 & Hrs & H).
    injection H as <- <-. rewrite successful_cons.
    specialize (Hbody i x st r s1 Hr). specialize (IH _ _ _ _ Hrs). lia.
Qed.

Section SuccessesPaid.

Variable fb : string -> string -> dict string -> string -> fmt_result.
Variable w : World.
Variable cm : ConfigManager.
Variable s2d : bool.

(** [finish] returns only after its synthesis call. *)
Lemma finish_paid start prompt ref (persist : string -> M string) meta st r st' :
  (s2d = true -> forall k url, preserves (fun st => requests st = k) (persist url)) ->
  finish w cm s2d start prompt ref persist meta st = (Returned r, st') ->
  requests st' = S (requests st).
Proof.
  intros Hpersist. unfold finish. intros H.
  apply bind_inv in H as (resp & s1 & Hcall & H).
  assert (Hs1 : requests s1 = S (requests st)).
  { unfold _call_api, subscribe in Hcall. injection Hcall as _ <-.
    unfold requests, log. simpl. rewrite List.filter_app, length_app. simpl. lia. }
  pose proof (keep_packaging w cm s2d (fun s => requests s = S (requests st))
                (fun _ => counted_mkdir w _) (fun _ => counted_save w cm _)
                start prompt persist meta resp
                (fun Hon url => Hpersist Hon _ url) s1 Hs1) as Hk.
  now rewrite H in Hk.
Qed.

Lemma guarded_paid {A} (resolve : M A) start prompt (ref : A -> option string)
  (persist : string -> M string) meta st r st' :
  (forall k, preserves (fun st => requests st = k) resolve) ->
  (s2d = true -> forall k url, preserves (fun st => requests st = k) (persist url)) ->
  try_except
    (bind resolve (fun u => finish w cm s2d start prompt (ref u) persist meta))
    (capture prompt) st = (Returned r, st') ->
  success r = true ->
  requests st' = S (requests st).
Proof.
  intros Hresolve Hpersist. rewrite try_capture.
  destruct (bind resolve _ st) as [[r0|e] s1] eqn:E; intros [= <- <-];
    [|discriminate].
  intros _. apply bind_inv in E as (u & s0 & Hu & E).
  apply finish_paid in E; [|exact Hpersist].
  pose proof (Hresolve (requests st) st eq_refl) as Hk. rewrite Hu in Hk.
  simpl in Hk. now rewrite E, Hk.
Qed.

(** A result that is a failure asks for nothing. *)
Lemma paid_of_growth (m : M GenerationResult) st r st' :
  (forall k, preserves (fun st => (k <= requests st)%nat) m) ->
  (success r = true -> requests st' = S (requests st)) ->
  m st = (Returned r, st') ->
  successes_paid st st' [r].
Proof.
  intros Hgrow Hpaid H. unfold successes_paid. rewrite successful_one.
  destruct (success r).
  - rewrite Hpaid by reflexivity. lia.
  - pose proof (Hgrow (requests st) st (le_n _)) as Hk. rewrite H in Hk.
    simpl in Hk. lia.
Qed.

Lemma hero_paid cid ref loc custom out st r st' :
  generate_hero_shot fb w cm s2d cid ref loc custom out st = (Returned r, st') ->
  successes_paid st st' [r].
Proof.
  intros H. apply (paid_of_growth _ _ _ _ (fun k => growing_hero fb w cm s2d _
                     (requests_log_le k) (fun ps st Hk => Hk) (fun p url st Hk => Hk)
                     cid ref loc custom out)); [|exact H].
  revert H. unfold generate_hero_shot, bind at 1, now.
  destruct (get_character cm cid) as [c|]; [|now intros [= <- _]].
  unfold bind at 1, lift.
  destruct (hero_prompt fb cm c loc custom) as [prompt|e]; [|discriminate].
  apply guarded_paid.
  - intros k. apply (keep_optional_reference w _ (fun _ => True));
      [intros p _; apply counted_resolve | apply reference_ok_any].
  - intros Hon k url. apply (keep_hero_persist w cm s2d); [| |exact Hon]; intros _;
      [apply counted_mkdir | apply counted_save].
Qed.

Lemma group_paid ids ref loc custom out st r st' :
  generate_group_shot fb w cm s2d ids ref loc custom out st = (Returned r, st') ->
  successes_paid st st' [r].
Proof.
  intros H. apply (paid_of_growth _ _ _ _ (fun k => growing_group fb w cm s2d _
                     (requests_log_le k) (fun ps st Hk => Hk) (fun p url st Hk => Hk)
                     ids ref loc custom out)); [|exact H].
  revert H. unfold generate_group_shot, bind at 1, now.
  destruct (resolve_characters cm ids) as [|c cs]; [now intros [= <- _]|].
  unfold bind at 1, lift.
  destruct (group_prompt fb cm (c :: cs) loc custom) as [prompt|e]; [|discriminate].
  apply guarded_paid.
  - intros k. apply (keep_optional_reference w _ (fun _ => True));
      [intros p _; apply counted_resolve | apply reference_ok_any].
  - intros Hon k url. apply (keep_group_persist w cm s2d); [| |exact Hon]; intros _;
      [apply counted_mkdir | apply counted_save].
Qed.

Lemma scene_paid sp ids ref loc out notes st r st' :
  generate_scene fb w cm s2d sp ids ref loc out notes st = (Returned r, st') ->
  successes_paid st st' [r].
Proof.
  intros H. apply (paid_of_growth _ _ _ _ (fun k => growing_scene fb w cm s2d _
                     (requests_log_le k) (fun ps st Hk => Hk) (fun p url st Hk => Hk)
                     sp ids ref loc out notes)); [|exact H].
  revert H. unfold generate_scene, bind at 1, now. unfold bind at 1, lift.
  destruct (scene_prompt_text fb cm sp ids loc notes) as [prompt|e]; [|discriminate].
  apply (guarded_paid (_upload_image w ref false) _ prompt Some).
  - intros k. apply counted_resolve.
  - intros Hon k url. apply (keep_scene_persist w cm s2d); [| |exact Hon]; intros _;
      [apply counted_mkdir | apply counted_save].
Qed.

Lemma cover_paid bid ref custom out st r st' :
  generate_cover fb w cm s2d bid ref custom out st = (Returned r, st') ->
  successes_paid st st' [r].
Proof.
  intros H. apply (paid_of_growth _ _ _ _ (fun k => growing_cover fb w cm s2d _
                     (requests_log_le k) (fun ps st Hk => Hk) (fun p url st Hk => Hk)
                     bid ref custom out)); [|exact H].
  revert H. unfold generate_cover, bind at 1, now.
  destruct (get_book cm bid) as [book|]; [|now intros [= <- _]].
  destruct (get_character cm (Book.featured_character book)) as [featured|];
    [|now intros [= <- _]].
  unfold bind at 1, lift.
  destruct (cover_prompt fb cm book featured custom) as [prompt|e]; [|discriminate].
  apply (guarded_paid (_upload_image w ref false) _ prompt Some).
  - intros k. apply counted_resolve.
  - intros Hon k url. apply (keep_cover_persist w cm s2d); [| |exact Hon]; intros _;
      [apply counted_mkdir | apply counted_save].
Qed.

(** An item of a batch: the delay makes no request. *)
Lemma item_paid (item : M GenerationResult) (delayed : bool) d st r st' :
  (forall r0 s0, item st = (Returned r0, s0) -> successes_paid st s0 [r0]) ->
  (result <- item ;; (if delayed then sleep d else ret tt) ;; ret result) st
  = (Returned r, st') ->
  successes_paid st st' [r].
Proof.
  intros Hitem H. apply bind_inv in H as (r0 & s0 & Hr & H).
  apply bind_inv in H as (u & s1 & Hu & H). injection H as <- <-.
  specialize (Hitem r0 s0 Hr). unfold successes_paid in *.
  assert (Hs : requests s1 = requests s0).
  { destruct delayed; [|now injection Hu as _ <-].
    pose proof (counted_sleep _ d s0 eq_refl) as Hk. now rewrite Hu in Hk. }
  lia.
Qed.

Lemma all_heroes_paid ref ids st rs st' :
  generate_all_hero_shots fb w cm s2d ref ids st = (Returned rs, st') ->
  successes_paid st st' rs.
Proof.
  unfold generate_all_hero_shots. apply paid_for_enumerate.
  intros i cid s r s'. apply item_paid. intros r0 s0. apply hero_paid.
Qed.

Lemma book_paid bid ref include_cover range st rs st' :
  generate_book fb w cm s2d bid ref include_cover range st = (Returned rs, st') ->
  successes_paid st st' rs.
Proof.
  unfold generate_book, successes_paid.
  destruct (get_book cm bid) as [book|];
    [|intros [= <- <-]; unfold successful; simpl; lia].
  destruct (Book.scenes book) as [|s0 ss];
    [intros [= <- <-]; unfold successful; simpl; lia|].
  intros H. apply bind_inv in H as (dir & s1 & Hdir & H).
  apply bind_inv in H as (cover_results & s2 & Hcover & H).
  apply bind_inv in H as (scene_results & s3 & Hscenes & H).
  injection H as <- <-. rewrite successful_app.
  assert (H1 : requests s1 = requests st).
  { unfold _ensure_directory in Hdir.
    apply bind_inv in Hdir as (u & s4 & Hmk & Hdir). injection Hdir as _ <-.
    pose proof (counted_mkdir w _ (book_output_dir w cm bid) st eq_refl) as Hk.
    now rewrite Hmk in Hk. }
  assert (H2 : (requests s1 + successful cover_results <= requests s2)%nat).
  { destruct include_cover;
      [|injection Hcover as <- <-; unfold successful; simpl; lia].
    unfold book_cover_step in Hcover.
    apply bind_inv in Hcover as (rc & s4 & Hrc & Hcover).
    apply bind_inv in Hcover as (u & s5 & Hu & Hcover). injection Hcover as <- <-.
    apply cover_paid in Hrc. unfold successes_paid in Hrc.
    pose proof (counted_sleep _ (rate_limit_delay cm) s4 eq_refl) as Hk.
    rewrite Hu in Hk. simpl in Hk. lia. }
  assert (H3 : (requests s2 + successful scene_results <= requests s3)%nat).
  { revert Hscenes. apply paid_for_enumerate.
    intros i scene s r s'. unfold book_scene_step. apply item_paid.
    intros r0 s5. apply scene_paid. }
  lia.
Qed.

End SuccessesPaid.

(** X22: behind every success there is a synthesis request of its own:
    from the start of an operation or of a batch to its return, the number
    of requests grows by at least the number of successes among the results
    returned.  With the bound of one request per item, the successes never
    exceed the requests made, and these never exceed the items. *)
Theorem successes_are_paid_for fb w cm s2d st st' :
  (forall cid ref loc custom out r,
     generate_hero_shot fb w cm s2d cid ref loc custom out st = (Returned r, st') ->
     successes_paid st st' [r]) /\
  (forall ids ref loc custom out r,
     generate_group_shot fb w cm s2d ids ref loc custom out st = (Returned r, st') ->
     successes_paid st st' [r]) /\
  (forall sp ids ref loc out notes r,
     generate_scene fb w cm s2d sp ids ref loc out notes st = (Returned r, st') ->
     successes_paid st st' [r]) /\
  (forall bid ref custom out r,
     generate_cover fb w cm s2d bid ref custom out st = (Returned r, st') ->
     successes_paid st st' [r]) /\
  (forall ref ids rs,
     generate_all_hero_shots fb w cm s2d ref ids st = (Returned rs, st') ->
     successes_paid st st' rs) /\
  (forall bid ref include_cover range rs,
     generate_book fb w cm s2d bid ref include_cover range st = (Returned rs, st') ->
     successes_paid st st' rs).
Proof.
  split; [|split; [|split; [|split; [|split]]]]; intros.
  - now apply (hero_paid fb w cm s2d cid ref loc custom out).
  - now apply (group_paid fb w cm s2d ids ref loc custom out).
  - now apply (scene_paid fb w cm s2d sp ids ref loc out notes).
  - now apply (cover_paid fb w cm s2d bid ref custom out).
  - now apply (all_heroes_paid fb w cm s2d ref ids).
  - now apply (book_paid fb w cm s2d bid ref include_cover range).
Qed.

Lemma successes_are_paid_for_witness :
  let st := fresh_engine reference_disk in
  let run := generate_book no_beyond (flaky_world 3) farm_config false "book_01_courage"
               "./reference.jpg" true None st in
  exists rs,
    run = (Returned rs, snd run) /\
    successes_paid st (snd run) rs /\
    successful rs = 3%nat /\
    requests (snd run) = 4%nat.
Proof.
  intros st run.
  assert (Hrun : run = (Returned (match fst run with
                                  | Returned l => l
                                  | Raised _ => []
                                  end), snd run)) by (vm_compute; reflexivity).
  eexists. split; [exact Hrun|]. split; [|vm_compute; split; reflexivity].
  destruct (successes_are_paid_for no_beyond (flaky_world 3) farm_config false
              st (snd run)) as (_ & _ & _ & _ & _ & Hbook).
  exact (Hbook _ _ _ _ _ Hrun).
Defined.
